(** * ClaudioScribe: the recording pipeline, its status store and its file names

    A shallow embedding of the parts of [pipeline.py], [doc_writer.py] and
    [app/app.py] that drive one recording through
    download, cloud mirror, transcription, document generation and archive.

    Conventions of the embedding.
    - A Python [str] is a list of Unicode code points ([list N]); [len],
      slicing and [strip] therefore count characters exactly as Python does.
      [lit] turns a Rocq string literal (ASCII) into such a list.
    - A Python dictionary that is used as a map is a [gmap].
    - Stateful code is a state-and-exception monad [M] over [state]; an
      external collaborator (the recording service, the transcription engine,
      the LLM API, the cloud drive, the clock) is a field of [world] that
      tells what each call returns or raises.
    - The exceptions of the model are instances of Python's [Exception];
      interpreter-exit signals ([KeyboardInterrupt], [SystemExit]) are not
      modelled.
    - The status file holds a dictionary of entries and the history file a
      list of entries whenever [json.load] returns at all; creating a
      directory and rewriting the status file, the history file or a
      transcript file succeed.
    - A text file is what decoding its bytes gives, or the exception that
      opening or reading it raises; reading it in text mode turns the line
      endings [\r\n] and [\r] into [\n], as [open] does by default. *)

From Stdlib Require Import ZArith NArith Bool Ascii String Lia DecimalString.
From Stdlib.Strings Require Import Byte.
From stdpp Require Import base option list gmap strings sorting.

Set Warnings "-register-all".
Local Open Scope N_scope.

(** ** Python strings *)

Abbreviation str := (list N).

Definition lit (s : string) : str :=
  List.map N_of_ascii (list_ascii_of_string s).

(** [c in chars] for a character and a string of characters. *)
Definition in_chars (c : N) (chars : str) : bool :=
  existsb (N.eqb c) chars.

(** [str.lstrip], [str.rstrip] and [str.strip] for a class [p] of characters. *)
Fixpoint lstrip (p : N -> bool) (s : str) : str :=
  match s with
  | [] => []
  | c :: s' => if p c then lstrip p s' else s
  end.

Definition rstrip (p : N -> bool) (s : str) : str :=
  rev (lstrip p (rev s)).

Definition strip (p : N -> bool) (s : str) : str :=
  rstrip p (lstrip p s).

(** [str.isspace] of one character: the code points Python strips with a
    bare [strip()]. *)
Definition isspace (c : N) : bool :=
  ((9 <=? c) && (c <=? 13)) || ((28 <=? c) && (c <=? 32))
  || (c =? 133) || (c =? 160) || (c =? 5760)
  || ((8192 <=? c) && (c <=? 8202))
  || (c =? 8232) || (c =? 8233) || (c =? 8239) || (c =? 8287) || (c =? 12288).

(** [s.endswith(suffix)] and [s.startswith(prefix)]. *)
Fixpoint startswith (s prefix : str) : bool :=
  match prefix, s with
  | [], _ => true
  | p :: prefix', c :: s' => (c =? p) && startswith s' prefix'
  | _ :: _, [] => false
  end.

Definition endswith (s suffix : str) : bool :=
  startswith (rev s) (rev suffix).

(** [str.lower] restricted to what the extension test can see.  The test
    [name.lower().endswith(extensions)] compares the tail of the lowered
    name with ASCII text made of [. 3 4 a c f g l m o p v w].  Outside
    [A-Z] the only characters whose lower-case form contains an ASCII
    character are U+212A (to [k]) and U+0130 (to [i] and U+0307), and neither
    [k] nor [i] occurs in an extension, so lowering [A-Z] alone decides the
    test exactly as Python does. *)
Definition lower_char (c : N) : N :=
  if (65 <=? c) && (c <=? 90) then c + 32 else c.

Definition lower (s : str) : str := List.map lower_char s.

Definition AUDIO_EXTENSIONS : list str :=
  [lit ".mp3"; lit ".ogg"; lit ".m4a"; lit ".wav"; lit ".flac"].

(** [name.lower().endswith(AUDIO_EXTENSIONS)]. *)
Definition has_audio_extension (name : str) : bool :=
  existsb (endswith (lower name)) AUDIO_EXTENSIONS.

(** Python compares strings code point by code point. *)
Fixpoint str_leb (a b : str) : bool :=
  match a, b with
  | [], _ => true
  | _ :: _, [] => false
  | x :: a', y :: b' =>
    if x <? y then true else if y <? x then false else str_leb a' b'
  end.

Definition str_le (a b : str) : Prop := Is_true (str_leb a b).

(** [sorted(names)]. *)
Definition sorted (names : list str) : list str := merge_sort str_le names.

(** [s.rfind(c)], counting from [i]. *)
Fixpoint rfind_from (c : N) (s : str) (i : nat) : option nat :=
  match s with
  | [] => None
  | x :: s' =>
    match rfind_from c s' (S i) with
    | Some j => Some j
    | None => if x =? c then Some i else None
    end
  end.

Definition rfind (c : N) (s : str) : option nat := rfind_from c s 0.

Definition SLASH : N := 47.
Definition DOT : N := 46.
Definition NEWLINE : N := 10.

(** [os.path.join(a, b)] on POSIX. *)
Definition path_join (a b : str) : str :=
  if startswith b [SLASH] then b
  else if bool_decide (a = []) || endswith a [SLASH] then a ++ b
  else a ++ [SLASH] ++ b.

(** [os.path.basename(p)]. *)
Definition basename (p : str) : str :=
  match rfind SLASH p with
  | None => p
  | Some i => drop (S i) p
  end.

(** [os.path.splitext(p)[0]]: the name up to its last dot, unless that dot
    is before the last slash or only dots come before it in the name. *)
Definition splitext_root (p : str) : str :=
  match rfind DOT p with
  | None => p
  | Some d =>
    let first := match rfind SLASH p with None => 0%nat | Some i => S i end in
    if (first <=? d)%nat
       && existsb (fun c => negb (c =? DOT)) (take (d - first) (drop first p))
    then take d p
    else p
  end.

(** A number in decimal, and as the format [02d] prints it. *)
Definition decimal (n : N) : str := lit (NilZero.string_of_uint (N.to_uint n)).

Definition format_02d (n : N) : str :=
  let d := decimal n in
  if (length d <? 2)%nat then lit "0" ++ d else d.

(** [separator.join(parts)]. *)
Fixpoint join (separator : str) (parts : list str) : str :=
  match parts with
  | [] => []
  | [x] => x
  | x :: rest => x ++ separator ++ join separator rest
  end.

(** ** Exceptions and results *)

Inductive exc_class :=
  | ValueError | JSONDecodeError | UnicodeDecodeError
  | OSError | RuntimeError | KeyError | AttributeError | TypeError
  | ImportError | APIError.

#[global] Instance exc_class_eq_dec : EqDecision exc_class.
Proof. solve_decision. Defined.

(** The direct base class, [None] for a direct subclass of [Exception]:
    [JSONDecodeError] and [UnicodeDecodeError] (through [UnicodeError]) are
    [ValueError]s, [ImportError] and the others derive from [Exception]. *)
Definition base_class (c : exc_class) : option exc_class :=
  match c with
  | JSONDecodeError | UnicodeDecodeError => Some ValueError
  | _ => None
  end.

(** [issubclass c k]. *)
Definition issubclass (c k : exc_class) : bool :=
  bool_decide (c = k) || bool_decide (base_class c = Some k).

Record exn := Exn { exn_class : exc_class; exn_message : str }.

(** [isinstance(e, (k1, k2, ...))], the test of an [except] clause. *)
Definition caught_by (e : exn) (classes : list exc_class) : bool :=
  existsb (issubclass (exn_class e)) classes.

Inductive result (A : Type) :=
  | Ok (a : A)
  | Raise (e : exn).
Arguments Ok {A} a.
Arguments Raise {A} e.

(** ** Files that hold JSON

    The status file and the history file are read with
    [open(path)] and [json.load].  [disk_file] is what is on disk; [stored]
    is what the two calls make of it. *)

Inductive json :=
  | JNull
  | JBool (b : bool)
  | JInt (z : Z)
  | JFloat (lexeme : str)
  | JStr (s : str)
  | JList (items : list json)
  | JDict (items : list (str * json)).

Inductive disk_file :=
  | NoFile                          (* [os.path.exists] is false *)
  | Unreadable (message : str)      (* [open] or [read] fails with an [OSError] *)
  | Content (bytes : list byte).    (* the bytes of the file *)

Inductive stored (A : Type) :=
  | Absent                          (* [os.path.exists] is false *)
  | Damaged (e : exn)               (* [open] or [json.load] raises [e] *)
  | Holding (a : A).                (* [json.load] returns [a] *)
Arguments Absent {A}.
Arguments Damaged {A} e.
Arguments Holding {A} a.

(** A continuation byte of UTF-8. *)
Definition continuation (b : N) : bool := (128 <=? b) && (b <=? 191).

(** The strict UTF-8 decoder of text-mode [open]: [None] where Python raises
    [UnicodeDecodeError] (a stray or missing continuation byte, an overlong
    form, a surrogate, a value above U+10FFFF). *)
Fixpoint utf8_decode (bs : list N) : option str :=
  match bs with
  | [] => Some []
  | b0 :: r0 =>
    if b0 <? 128 then cons b0 <$> utf8_decode r0
    else if (194 <=? b0) && (b0 <=? 223) then
      match r0 with
      | b1 :: r1 =>
        if continuation b1
        then cons ((b0 - 192) * 64 + (b1 - 128)) <$> utf8_decode r1
        else None
      | _ => None
      end
    else if (224 <=? b0) && (b0 <=? 239) then
      match r0 with
      | b1 :: b2 :: r2 =>
        if continuation b1 && continuation b2
           && negb ((b0 =? 224) && (b1 <? 160))
           && negb ((b0 =? 237) && (159 <? b1))
        then cons ((b0 - 224) * 4096 + (b1 - 128) * 64 + (b2 - 128))
               <$> utf8_decode r2
        else None
      | _ => None
      end
    else if (240 <=? b0) && (b0 <=? 244) then
      match r0 with
      | b1 :: b2 :: b3 :: r3 =>
        if continuation b1 && continuation b2 && continuation b3
           && negb ((b0 =? 240) && (b1 <? 144))
           && negb ((b0 =? 244) && (143 <? b1))
        then cons ((b0 - 240) * 262144 + (b1 - 128) * 4096
                   + (b2 - 128) * 64 + (b3 - 128))
               <$> utf8_decode r3
        else None
      | _ => None
      end
    else None
  end.

Section JsonFiles.

(** [json.loads] on decoded text: [None] where it raises
    [json.JSONDecodeError]. *)
Variable json_loads : str -> option json.

(** [with open(path) as f: return json.load(f)] on a path that exists. *)
Definition open_and_load (f : disk_file) : stored json :=
  match f with
  | NoFile => Absent
  | Unreadable message => Damaged (Exn OSError message)
  | Content bytes =>
    match utf8_decode (List.map Byte.to_N bytes) with
    | None => Damaged (Exn UnicodeDecodeError (lit "invalid utf-8"))
    | Some text =>
      match json_loads text with
      | None => Damaged (Exn JSONDecodeError (lit "invalid JSON"))
      | Some v => Holding v
      end
    end
  end.

End JsonFiles.

(** ** The state the program works on *)

(** An entry of the status file: the keys [status], [updated] and
    [filename] of the dictionary, each possibly missing. *)
Record entry := Entry {
  e_status : option str;
  e_updated : option str;
  e_filename : option str;
}.

(** An entry of the history file. *)
Record history_entry := HistoryEntry {
  h_filename : str;
  h_status : str;
  h_message : str;
  h_timestamp : str;
}.

(** The argument of a tool call: the keys [title] and [content] of
    [block.input], each possibly missing. *)
Record tool_input := ToolInput {
  ti_title : option str;
  ti_content : option str;
}.

Inductive block :=
  | TextBlock (text : str)
  | ToolUseBlock (id name : str) (input : tool_input).

(** What [handle_tool_call] returns. *)
Inductive tool_result :=
  | Created (filename path : str)      (* the dictionary of [create_document] *)
  | Listing (files : list str)         (* the dictionary of [list_documents] *)
  | UnknownTool (error : str).

Inductive message :=
  | UserText (text : str)
  | AssistantContent (content : list block)
  | UserToolResults (results : list (str * tool_result)).

(** What the program does to the outside, in the order it does it. *)
Inductive event :=
  | EvStatus (file_id status : str)       (* the status file is rewritten *)
  | EvDownload (file_id path : str)       (* [download_recording] is called *)
  | EvUpload (local_path folder_id : str) (* [upload_file] is called *)
  | EvTranscribe (path : str)             (* the engine's [transcribe] is called *)
  | EvAnalyze (filename transcript timestamp : str)
                                          (* [create_document_via_claude] is called *)
  | EvRequest (messages : list message)   (* [client.messages.create] is called *)
  | EvDocument (path : str)               (* [doc.save] is called *)
  | EvArchive (source destination : str). (* [os.rename] is called *)

(** A text file on disk: the characters its bytes decode to, line endings
    as they are in the file, or the exception that [open] or [read] raises
    on it (an [OSError], a [UnicodeDecodeError]). *)
Inductive text_file :=
  | Readable (characters : str)
  | Broken (e : exn).

(** What reading in text mode makes of the characters of a file: with the
    default [newline=None], a carriage return followed by a line feed, and
    a carriage return alone, become one line feed. *)
Fixpoint universal_newlines (s : str) : str :=
  match s with
  | [] => []
  | 13 :: rest =>
    match rest with
    | 10 :: rest' => 10 :: universal_newlines rest'
    | _ => 10 :: universal_newlines rest
    end
  | c :: rest => c :: universal_newlines rest
  end.

Record state := State {
  status_file : stored (gmap str entry);        (* PIPELINE_STATUS_FILE *)
  history_file : stored (list history_entry);   (* HISTORY_FILE *)
  files : gmap str text_file;                   (* text files, by path *)
  events : list event;
  ticks : nat;                                  (* readings of the clock so far *)
  lock_held : bool;                             (* [_processing_lock.locked()] *)
}.

(** ** The state-and-exception monad *)

Definition M (A : Type) : Type := state -> result A * state.

Definition ret {A} (a : A) : M A := fun st => (Ok a, st).

Definition raise {A} (e : exn) : M A := fun st => (Raise e, st).

Definition bind {A B} (m : M A) (k : A -> M B) : M B :=
  fun st =>
    match m st with
    | (Ok a, st') => k a st'
    | (Raise e, st') => (Raise e, st')
    end.

(** [try: body  except Exception as exc: handler(exc)]. *)
Definition try_except {A} (body : M A) (handler : exn -> M A) : M A :=
  fun st =>
    match body st with
    | (Ok a, st') => (Ok a, st')
    | (Raise e, st') => handler e st'
    end.

(** The outcome of a call to a collaborator, as the world gives it. *)
Definition call {A} (outcome : result A) : M A := fun st => (outcome, st).

Definition get {A} (field : state -> A) : M A := fun st => (Ok (field st), st).

Definition modify (f : state -> state) : M unit := fun st => (Ok tt, f st).

Notation "x <- m ;; k" := (bind m (fun x => k))
  (at level 100, m at next level, right associativity).
Notation "m ;;; k" := (bind m (fun _ => k))
  (at level 100, right associativity).

Definition set_status_file (v : stored (gmap str entry)) (st : state) : state :=
  State v (history_file st) (files st) (events st) (ticks st) (lock_held st).

Definition set_history_file (v : stored (list history_entry)) (st : state) : state :=
  State (status_file st) v (files st) (events st) (ticks st) (lock_held st).

Definition set_files (v : gmap str text_file) (st : state) : state :=
  State (status_file st) (history_file st) v (events st) (ticks st) (lock_held st).

Definition add_event (e : event) (st : state) : state :=
  State (status_file st) (history_file st) (files st) (events st ++ [e])
        (ticks st) (lock_held st).

Definition tick (st : state) : state :=
  State (status_file st) (history_file st) (files st) (events st)
        (S (ticks st)) (lock_held st).

Definition set_lock (v : bool) (st : state) : state :=
  State (status_file st) (history_file st) (files st) (events st) (ticks st) v.

Definition emit (e : event) : M unit := modify (add_event e).

(** ** The collaborators *)

(** The keys of [load_config()] that the modelled code reads. *)
Record config := Config {
  anthropic_api_key : str;
  claude_prompt : str;
  claude_model : str;
  plaud_token : str;
  gdrive_documents_folder_id : str;
  gdrive_recordings_folder_id : str;
}.

(** What the engine returns: the segments (start second, text) and the
    plain text. *)
Record whisper_result := WhisperResult {
  wr_segments : list (N * str);
  wr_text : str;
}.

Record response := Response {
  stop_reason : str;
  content : list block;
}.

(** The answers of [client.messages.create], call after call, in a
    conversation that comes to an end.  A run that ends has made finitely
    many calls, so it is the run of some script.  A conversation in which
    the LLM answers [tool_use] for ever, on which the loop of
    [create_document_via_claude] never returns, is no script: what is
    stated below of a run is stated of the runs that end. *)
Inductive api_script :=
  | ApiRaises (e : exn)
  | ApiReturns (r : response) (rest : api_script).

(** A recording as [list_recordings] returns it. *)
Record recording := Recording {
  rec_id : option str;
  rec_filename : option str;
  rec_name : option str;
}.

Record world := World {
  load_config : config;
  (** [plaud_client.download_recording(file_id, output_path)] *)
  download_recording : str -> str -> result bool;
  (** [plaud_client.list_recordings()] *)
  list_recordings : result (list recording);
  (** [get_gdrive_client_from_config()] when uploading a path: it raises,
      returns [None] ([false]) or returns a client ([true]) *)
  get_gdrive_client_from_config : str -> result bool;
  (** [client.upload_file(local_path, folder_id)] *)
  upload_file : str -> str -> result unit;
  (** [os.path.getsize(path)] *)
  getsize : str -> result N;
  (** loading the model and [model.transcribe(path)] *)
  transcribe : str -> result whisper_result;
  (** [client.messages.create(...)] *)
  messages_create : api_script;
  (** rendering the document and [doc.save(path)] *)
  save_document : str -> result unit;
  (** the names [os.listdir(output_dir)] gives to [list_documents] *)
  listdir : result (list str);
  (** [os.rename(source, destination)] in [archive_audio] *)
  rename : str -> str -> result unit;
  (** [datetime.now(...).isoformat()] at each reading of the clock *)
  isoformat_now : nat -> str;
  (** [datetime.now(...).isoformat()] when startup recovery rewrites the
      entry of a key *)
  isoformat_at_reset : str -> str;
  (** [datetime.now(...).strftime(...)], the suffix of the names of a run *)
  strftime_now : str;
  (** whether [from settings_app import add_history_entry] succeeds *)
  settings_app_importable : bool;
}.

(** ** [doc_writer.py] *)

Module DocWriter.

(** The character class that [re.sub] deletes from the title: less-than,
    greater-than, colon, double quote, slash, backslash, bar, question
    mark and star. *)
Definition UNSAFE : str := [60; 62; 58; 34; 47; 92; 124; 63; 42].

Definition dot_or_space (c : N) : bool := in_chars c (lit ". ").

Definition _sanitize_filename (title : str) : str :=
  let safe := List.filter (fun c => negb (in_chars c UNSAFE)) title in
  let safe := strip dot_or_space safe in
  match safe with
  | [] => lit "untitled"
  | _ => take 200 safe
  end.

(** [create_document]: the name is the sanitized title, an underscore and
    the timestamp when there is one, and the extension; the text is
    rendered and saved under [output_dir].  Returns the file name and the
    path. *)
Definition create_document (w : world) (title content output_dir timestamp : str)
  : M (str * str) :=
  let safe_title := _sanitize_filename title in
  let filename :=
    match timestamp with
    | [] => safe_title ++ lit ".docx"
    | _ => safe_title ++ lit "_" ++ timestamp ++ lit ".docx"
    end in
  let filepath := path_join output_dir filename in
  emit (EvDocument filepath) ;;;
  call (save_document w filepath) ;;;
  ret (filename, filepath).

(** [list_documents]: the sorted names of the directory that end in
    [.docx]. *)
Definition list_documents (w : world) : M (list str) :=
  names <- call (listdir w) ;;
  ret (List.filter (fun name => endswith name (lit ".docx")) (sorted names)).

End DocWriter.

(** ** The history helpers of [app/app.py] *)

Module History.

Definition MAX_HISTORY : nat := 50.

(** [_load_history] on what [open] and [json.load] make of the file: the
    empty list when the file is missing, and when reading it raises a
    [json.JSONDecodeError] or an [OSError]. *)
Definition _load_history_from {A} (empty_list : A) (f : stored A) : result A :=
  match f with
  | Absent => Ok empty_list
  | Damaged e =>
    if caught_by e [JSONDecodeError; OSError] then Ok empty_list else Raise e
  | Holding history => Ok history
  end.

Definition _load_history : M (list history_entry) :=
  fun st => (_load_history_from [] (history_file st), st).

Definition add_history_entry (w : world) (filename status message : str) : M unit :=
  history <- _load_history ;;
  now <- get ticks ;;
  modify tick ;;;
  let history :=
    HistoryEntry filename status message (isoformat_now w now) :: history in
  let history := take MAX_HISTORY history in
  modify (set_history_file (Holding history)).

(** A call of [add_history_entry], as its three arguments. *)
Definition history_call : Type := str * str * str.

(** A sequence of calls of [add_history_entry], oldest first. *)
Fixpoint add_history_entries (w : world) (calls : list history_call) : M unit :=
  match calls with
  | [] => ret tt
  | (filename, status, message) :: rest =>
    add_history_entry w filename status message ;;; add_history_entries w rest
  end.

(** The entries the calls write, oldest first, from the clock reading [n]. *)
Fixpoint entries_of (w : world) (n : nat) (calls : list history_call)
  : list history_entry :=
  match calls with
  | [] => []
  | (filename, status, message) :: rest =>
    HistoryEntry filename status message (isoformat_now w n) :: entries_of w (S n) rest
  end.

End History.

(** ** [pipeline.py] *)

Module Pipeline.

Definition MAX_AUDIO_FILE_SIZE : N := 500 * 1024 * 1024.
Definition MAX_TRANSCRIPT_LENGTH : N := 500000.
Definition MAX_TITLE_LENGTH : nat := 200.
Definition ARCHIVE_DIR : str := lit "/watch/input/processed".

Definition _ACTIVE_STATUSES : list str :=
  [lit "queued"; lit "downloading"; lit "uploading_recording";
   lit "transcribing"; lit "analyzing"].

(** [load_pipeline_status] on what [open] and [json.load] make of the
    file: the empty dictionary when the file is missing, and when reading
    it raises a [json.JSONDecodeError] or an [OSError]. *)
Definition load_pipeline_status_from {A} (empty_dict : A) (f : stored A) : result A :=
  match f with
  | Absent => Ok empty_dict
  | Damaged e =>
    if caught_by e [JSONDecodeError; OSError] then Ok empty_dict else Raise e
  | Holding all_status => Ok all_status
  end.

Definition load_pipeline_status : M (gmap str entry) :=
  fun st => (load_pipeline_status_from ∅ (status_file st), st).

Definition set_pipeline_status (w : world) (file_id status filename : str) : M unit :=
  all_status <- load_pipeline_status ;;
  let old := default (Entry None None None) (all_status !! file_id) in
  now <- get ticks ;;
  modify tick ;;;
  let new :=
    Entry (Some status) (Some (isoformat_now w now))
          (match filename with [] => e_filename old | _ => Some filename end) in
  modify (set_status_file (Holding (<[file_id := new]> all_status))) ;;;
  emit (EvStatus file_id status).

(** Whether the status of the entry is one of [_ACTIVE_STATUSES]. *)
Definition is_active (e : entry) : bool :=
  match e_status e with
  | Some s => bool_decide (s ∈ _ACTIVE_STATUSES)
  | None => false
  end.

Definition reset_entry (w : world) (file_id : str) (e : entry) : entry :=
  if is_active e
  then Entry (Some (lit "error")) (Some (isoformat_at_reset w file_id)) (e_filename e)
  else e.

Definition reset_stale_statuses (w : world) : M unit :=
  all_status <- load_pipeline_status ;;
  let changed := bool_decide (map_Exists (fun _ e => is_active e = true) all_status) in
  let all_status := map_imap (fun file_id e => Some (reset_entry w file_id e)) all_status in
  if changed
  then modify (set_status_file (Holding all_status))
  else ret tt.

Definition KEEP : str :=
  lit "abcdefghijklmnopqrstuvwxyzABCDEFGHIJKLMNOPQRSTUVWXYZ0123456789-_. ".

Definition _sanitize_filename (name : str) : str :=
  match strip isspace (List.filter (fun c => in_chars c KEEP) name) with
  | [] => lit "recording"
  | kept => kept
  end.

(** One line of the transcript: the start as minutes and seconds, and the
    stripped text of the segment. *)
Definition format_segment (seg : N * str) : str :=
  let start := fst seg in
  let mm := start / 60 in
  let ss := start mod 60 in
  lit "[" ++ format_02d mm ++ lit ":" ++ format_02d ss ++ lit "] "
      ++ strip isspace (snd seg).

(** The text [transcribe_audio] makes of what the engine returns: one line
    per segment, or the plain text when there is no segment, cut at the
    length cap. *)
Definition format_transcript (result : whisper_result) : str :=
  let lines := List.map format_segment (wr_segments result) in
  let text := match lines with [] => wr_text result | _ => join [NEWLINE] lines end in
  if MAX_TRANSCRIPT_LENGTH <? N.of_nat (length text)
  then take (N.to_nat MAX_TRANSCRIPT_LENGTH) text
  else text.

(** The [ValueError] of a file over the size cap, with the message the
    f-string gives it. *)
Definition file_too_large (file_size : N) : exn :=
  Exn ValueError (lit "File too large: " ++ decimal file_size
                  ++ lit " bytes (max " ++ decimal MAX_AUDIO_FILE_SIZE ++ lit ")").

Definition transcribe_audio (w : world) (file_path : str) : M str :=
  file_size <- call (getsize w file_path) ;;
  if MAX_AUDIO_FILE_SIZE <? file_size
  then raise (file_too_large file_size)
  else
    emit (EvTranscribe file_path) ;;;
    result <- call (transcribe w file_path) ;;
    ret (format_transcript result).

(** The upload of a file to the cloud drive: whatever is raised inside is
    logged and dropped. *)
Definition _upload_to_gdrive (w : world) (local_path folder_type : str) : M unit :=
  try_except
    (client <- call (get_gdrive_client_from_config w local_path) ;;
     if negb client then ret tt
     else
       let folder_id :=
         if bool_decide (folder_type = lit "documents")
         then gdrive_documents_folder_id (load_config w)
         else gdrive_recordings_folder_id (load_config w) in
       match folder_id with
       | [] => ret tt
       | _ =>
         emit (EvUpload local_path folder_id) ;;;
         call (upload_file w local_path folder_id)
       end)
    (fun _ => ret tt).

Definition OUTPUT_DIR : str := lit "/tmp/claudioscribe".

(** [tool_input[key]]; the text of a [KeyError] is the key between
    quotes. *)
Definition item (key : string) (value : option str) : M str :=
  match value with
  | Some v => ret v
  | None => raise (Exn KeyError (lit "'" ++ lit key ++ lit "'"))
  end.

Definition handle_tool_call (w : world) (timestamp tool_name : str)
           (input : tool_input) : M tool_result :=
  if bool_decide (tool_name = lit "create_document") then
    title <- item "title" (ti_title input) ;;
    let title := take MAX_TITLE_LENGTH title in
    content <- item "content" (ti_content input) ;;
    result <- DocWriter.create_document w title content OUTPUT_DIR timestamp ;;
    _upload_to_gdrive w (snd result) (lit "documents") ;;;
    ret (Created (fst result) (snd result))
  else if bool_decide (tool_name = lit "list_documents") then
    names <- DocWriter.list_documents w ;;
    ret (Listing names)
  else ret (UnknownTool (lit "Unknown tool: " ++ tool_name)).

(** The [for block in response.content] loop: every block of type
    [tool_use] is handled and its result collected. *)
Fixpoint handle_blocks (w : world) (timestamp : str) (blocks : list block)
  : M (list (str * tool_result)) :=
  match blocks with
  | [] => ret []
  | TextBlock _ :: rest => handle_blocks w timestamp rest
  | ToolUseBlock id name input :: rest =>
    result <- handle_tool_call w timestamp name input ;;
    results <- handle_blocks w timestamp rest ;;
    ret ((id, result) :: results)
  end.

(** The [while True] loop of [create_document_via_claude], on the answers
    of a conversation that comes to an end: the loop has no bound of its
    own, and stops only on an answer that is no [tool_use] or on an
    exception. *)
Fixpoint tool_use_loop (w : world) (timestamp : str) (script : api_script)
         (messages : list message) : M unit :=
  match script with
  | ApiRaises e => emit (EvRequest messages) ;;; raise e
  | ApiReturns response rest =>
    emit (EvRequest messages) ;;;
    if bool_decide (stop_reason response = lit "end_turn") then ret tt
    else if bool_decide (stop_reason response = lit "tool_use") then
      tool_results <- handle_blocks w timestamp (content response) ;;
      tool_use_loop w timestamp rest
        (messages ++ [AssistantContent (content response);
                      UserToolResults tool_results])
    else
      raise (Exn RuntimeError
               (lit "Claude failed: stop_reason=" ++ stop_reason response
                    ++ lit " (no document created)"))
  end.

Definition create_document_via_claude (w : world) (filename transcript timestamp : str)
  : M unit :=
  emit (EvAnalyze filename transcript timestamp) ;;;
  let config := load_config w in
  match anthropic_api_key config with
  | [] => raise (Exn ValueError (lit "Anthropic API key not configured"))
  | _ =>
    let base_name := splitext_root filename in
    let messages :=
      [UserText (claude_prompt config ++ [NEWLINE; NEWLINE]
                 ++ lit "You are running as model: " ++ claude_model config
                 ++ [NEWLINE; NEWLINE]
                 ++ lit "Audio file: " ++ base_name ++ [NEWLINE; NEWLINE]
                 ++ lit "Transcript:" ++ [NEWLINE] ++ transcript)] in
    tool_use_loop w timestamp (messages_create w) messages
  end.

(** [_record_history]: the import of [add_history_entry] and the call; a
    failure of either is dropped. *)
Definition _record_history (w : world) (filename status message : str) : M unit :=
  try_except
    (if settings_app_importable w
     then History.add_history_entry w filename status message
     else raise (Exn ImportError (lit "No module named 'settings_app'")))
    (fun _ => ret tt).

Definition archive_audio (w : world) (file_path : str) : M unit :=
  let dest := path_join ARCHIVE_DIR (basename file_path) in
  emit (EvArchive file_path dest) ;;;
  call (rename w file_path dest).

(** A base name that [glob] reads literally: it holds none of the
    characters [*], [?] and [[], which [glob] reads as wildcards, and no
    slash, which would move the pattern to another directory. *)
Definition literal_name (base_name : str) : bool :=
  forallb (fun c => negb (in_chars c (lit "*?[/"))) base_name.

(** Whether a path is matched by the pattern
    [transcript_dir/base_name_*.txt] of [glob], for a base name that [glob]
    reads literally: the path is in the directory itself, its name starts
    with the base name and an underscore and ends in [.txt].  In a base
    name with a wildcard character [glob] would match more than this; the
    base names of the pipeline come out of [_sanitize_filename], which keeps
    no such character, so they are read literally.  A name that starts with
    a literal base name is hidden only when the pattern starts with a dot
    too, so the rule of [glob] on hidden files excludes nothing. *)
Definition is_transcript_of (base_name transcript_dir path : str) : bool :=
  let prefix := path_join transcript_dir (base_name ++ lit "_") in
  let rest := drop (length prefix) path in
  startswith path prefix && endswith rest (lit ".txt") && negb (in_chars SLASH rest).

Definition _find_existing_transcript (base_name transcript_dir : str) : M (option str) :=
  all_files <- get files ;;
  let matches :=
    sorted (List.filter (is_transcript_of base_name transcript_dir)
                        (List.map fst (map_to_list all_files))) in
  ret (last matches).

(** What [open(path)] raises on a path that is not there: a
    [FileNotFoundError], which is an [OSError]. *)
Definition no_such_file (path : str) : exn :=
  Exn OSError (lit "[Errno 2] No such file or directory: '" ++ path ++ lit "'").

(** [with open(path) as f: f.read()]: the file is opened in text mode, so
    its line endings are translated, and opening or decoding it can
    raise. *)
Definition read_text (path : str) : M str :=
  all_files <- get files ;;
  match all_files !! path with
  | Some (Readable characters) => ret (universal_newlines characters)
  | Some (Broken e) => raise e
  | None => raise (no_such_file path)
  end.

(** Opening a text file for writing and [f.write(text)]: the characters
    are written as they are, the line separator of the system being the
    line feed. *)
Definition write_text (path text : str) : M unit :=
  all_files <- get files ;;
  modify (set_files (<[path := Readable text]> all_files)).

(** The safe local file name the pipeline builds from the name the
    provider gives: the default extension is appended when no known one is
    there, then the name is sanitized. *)
Definition local_filename (raw_filename : str) : str :=
  let filename := raw_filename in
  let filename :=
    if negb (has_audio_extension filename) then filename ++ lit ".mp3" else filename in
  _sanitize_filename filename.

Definition DOWNLOAD_DIR : str := lit "/watch/input".
Definition TRANSCRIPT_DIR : str := lit "/app/config/transcripts".

(** Step 3 of [process_plaud_recording]: the transcript, read from the
    file of an earlier run when there is one, made by the engine and saved
    otherwise. *)
Definition transcript_step (w : world) (file_id filename file_path timestamp : str)
  : M str :=
  let base_name := splitext_root filename in
  existing_transcript <- _find_existing_transcript base_name TRANSCRIPT_DIR ;;
  match existing_transcript with
  | Some existing => read_text existing
  | None =>
    set_pipeline_status w file_id (lit "transcribing") filename ;;;
    transcript <- transcribe_audio w file_path ;;
    let transcript_name := base_name ++ lit "_" ++ timestamp ++ lit ".txt" in
    let transcript_path := path_join TRANSCRIPT_DIR transcript_name in
    write_text transcript_path transcript ;;;
    _upload_to_gdrive w transcript_path (lit "documents") ;;;
    ret transcript
  end.

(** Steps 4 and 6 of [process_plaud_recording]: the analysis, the archive
    and the final status. *)
Definition analyze_and_finish (w : world)
           (file_id filename file_path timestamp transcript : str) : M unit :=
  set_pipeline_status w file_id (lit "analyzing") filename ;;;
  create_document_via_claude w filename transcript timestamp ;;;
  archive_audio w file_path ;;;
  set_pipeline_status w file_id (lit "processed") filename ;;;
  _record_history w filename (lit "success") [].

(** The [try] block of [process_plaud_recording]. *)
Definition stages (w : world) (file_id filename file_path timestamp : str) : M unit :=
  set_pipeline_status w file_id (lit "downloading") filename ;;;
  emit (EvDownload file_id file_path) ;;;
  downloaded <- call (download_recording w file_id file_path) ;;
  if negb downloaded then
    set_pipeline_status w file_id (lit "error") filename ;;;
    _record_history w filename (lit "error") (lit "Download failed")
  else
    set_pipeline_status w file_id (lit "uploading_recording") filename ;;;
    _upload_to_gdrive w file_path (lit "recordings") ;;;
    transcript <- transcript_step w file_id filename file_path timestamp ;;
    analyze_and_finish w file_id filename file_path timestamp transcript.

Definition process_plaud_recording (w : world) (file_id raw_filename : str) : M unit :=
  let filename := local_filename raw_filename in
  let file_path := path_join DOWNLOAD_DIR filename in
  let timestamp := strftime_now w in
  try_except
    (stages w file_id filename file_path timestamp)
    (fun exc =>
       set_pipeline_status w file_id (lit "error") filename ;;;
       _record_history w filename (lit "error") (exn_message exc)).

End Pipeline.

(** ** The routes of [app/app.py] *)

Module App.

(** The safe local file name the web layer builds from the name the
    provider gives: the name is sanitized, then the default extension is
    appended when no known one is there. *)
Definition safe_name (raw_name : str) : str :=
  let safe_name := Pipeline._sanitize_filename raw_name in
  if negb (has_audio_extension safe_name) then safe_name ++ lit ".mp3" else safe_name.

(** The name of the recording with the given identifier in the list of the
    provider: [rec.get(filename, rec.get(name, default))] of the first
    recording with that identifier, the default when there is none. *)
Fixpoint resolve_filename (recordings : list recording) (file_id default_name : str) : str :=
  match recordings with
  | [] => default_name
  | r :: rest =>
    if bool_decide (rec_id r = Some file_id)
    then match rec_filename r with
         | Some name => name
         | None => default (default_name) (rec_name r)
         end
    else resolve_filename rest file_id default_name
  end.

(** The status the route reads for a recording:
    [pipeline_status.get(file_id, {}).get(status, new)]. *)
Definition current_status (pipeline_status : gmap str entry) (file_id : str) : str :=
  default (lit "new") (pipeline_status !! file_id ≫= e_status).

(** What [process_recording] answers: the HTTP status, the message or
    status of the body, and the raw file name given to the background
    thread when one is started. *)
Record answer := Answer {
  http_status : N;
  body : str;
  thread_started : option str;
}.

Definition process_recording (w : world) (file_id : str) : M answer :=
  pipeline_status <- Pipeline.load_pipeline_status ;;
  let current := current_status pipeline_status file_id in
  if negb (bool_decide (current ∈ [lit "new"; lit "error"; lit "processed"]))
  then ret (Answer 409 (lit "Already processing") None)
  else
    locked <- get lock_held ;;
    if locked
    then ret (Answer 409 (lit "Another recording is being processed. Please wait.") None)
    else
      match plaud_token (load_config w) with
      | [] => ret (Answer 400 (lit "No Plaud token configured") None)
      | _ =>
        recordings <- call (list_recordings w) ;;
        let raw_filename := resolve_filename recordings file_id (file_id ++ lit ".mp3") in
        Pipeline.set_pipeline_status w file_id (lit "queued") raw_filename ;;;
        ret (Answer 200 (lit "queued") (Some raw_filename))
      end.

(** The body of the background thread: the pipeline, under the lock. *)
Definition _run (w : world) (file_id raw_filename : str) : M unit :=
  fun st =>
    let '(r, st') := Pipeline.process_plaud_recording w file_id raw_filename
                       (set_lock true st) in
    (r, set_lock false st').

(** A trigger and, when it is accepted, the run of the thread it starts;
    an exception that leaves the thread ends the thread and nothing else. *)
Definition trigger_and_run (w : world) (file_id : str) : M answer :=
  answer <- process_recording w file_id ;;
  match thread_started answer with
  | Some raw_filename =>
    try_except (_run w file_id raw_filename) (fun _ => ret tt) ;;;
    ret answer
  | None => ret answer
  end.

End App.

(** ** What a run shows

    The events that matter to the stage order and to the transcript cache
    are the writes of a status, the calls of the engine and the calls of
    the analysis; the other events (requests, uploads, documents, renames)
    are left out of the [key] events of a run. *)

Definition is_key (e : event) : bool :=
  match e with
  | EvStatus _ _ | EvTranscribe _ | EvAnalyze _ _ _ => true
  | _ => false
  end.

Definition key (L : list event) : list event := List.filter is_key L.

(** The statuses written, in order. *)
Definition status_trace (L : list event) : list str :=
  flat_map (fun e => match e with EvStatus _ s => [s] | _ => [] end) L.

(** The events a run appended to the log of the state it started from. *)
Definition new_events (st st' : state) : list event :=
  drop (length (events st)) (events st').

(** The status the status file holds for a recording. *)
Definition stored_status (st : state) (file_id : str) : option str :=
  match status_file st with
  | Holding all_status => all_status !! file_id ≫= e_status
  | _ => None
  end.

(** The forward order of the stages. *)
Definition CHAIN : list str :=
  [lit "queued"; lit "downloading"; lit "uploading_recording";
   lit "transcribing"; lit "analyzing"; lit "processed"].

Definition rank (s : str) : option nat :=
  fst <$> list_find (fun t => t = s) CHAIN.

(** A status [t] may be written after a status [s]: [s] is not terminal,
    and [t] is [error] or a later stage of the chain. *)
Definition advancesb (s t : str) : bool :=
  bool_decide (s ∈ Pipeline._ACTIVE_STATUSES)
  && (bool_decide (t = lit "error")
      || match rank s, rank t with
         | Some i, Some j => (i <? j)%nat
         | _, _ => false
         end).

Definition advances (s t : str) : Prop := Is_true (advancesb s t).

(** The conversation ends on a stop signal that is neither the completion
    signal nor the tool-use signal, after any number of tool-use rounds. *)
Inductive stops_abnormally : api_script -> Prop :=
  | stops_now (r : response) (rest : api_script) :
      stop_reason r <> lit "end_turn" ->
      stop_reason r <> lit "tool_use" ->
      stops_abnormally (ApiReturns r rest)
  | stops_later (r : response) (rest : api_script) :
      stop_reason r = lit "tool_use" ->
      stops_abnormally rest ->
      stops_abnormally (ApiReturns r rest).

(** Whether a block of a response is a call of [create_document]. *)
Definition calls_create_document (b : block) : bool :=
  match b with
  | ToolUseBlock _ name _ => bool_decide (name = lit "create_document")
  | TextBlock _ => false
  end.

(** The conversation ends on the completion signal and no call of
    [create_document] is made in it: the LLM signals completion at once, or
    after rounds of tool use in which it calls other tools only. *)
Inductive completes_without_document : api_script -> Prop :=
  | completes_now (r : response) (rest : api_script) :
      stop_reason r = lit "end_turn" ->
      completes_without_document (ApiReturns r rest)
  | completes_later (r : response) (rest : api_script) :
      stop_reason r = lit "tool_use" ->
      forallb (fun b => negb (calls_create_document b)) (content r) = true ->
      completes_without_document rest ->
      completes_without_document (ApiReturns r rest).

(** A state from which nothing has run yet. *)
Definition blank : state := State Absent Absent ∅ [] 0 false.

(** *** The outcome of a run, read off the world

    What each step returns or raises and which key events it leaves, as
    functions of the answers of the collaborators and of the files on disk.
    [stages_run] below shows that the pipeline does exactly this. *)

Module Outcome.
Import Pipeline.

(** What [create_document_via_claude] returns or raises. *)
Definition analysis (w : world) (filename transcript timestamp : str) : result unit :=
  fst (create_document_via_claude w filename transcript timestamp blank).

(** What [transcribe_audio] returns or raises, and whether the engine was
    called. *)
Definition transcription (w : world) (file_path : str) : result str * list event :=
  match getsize w file_path with
  | Raise e => (Raise e, [])
  | Ok file_size =>
    if MAX_AUDIO_FILE_SIZE <? file_size
    then (Raise (file_too_large file_size), [])
    else match transcribe w file_path with
         | Raise e => (Raise e, [EvTranscribe file_path])
         | Ok result => (Ok (format_transcript result), [EvTranscribe file_path])
         end
  end.

(** The transcript file [_find_existing_transcript] picks. *)
Definition cached (all_files : gmap str text_file) (base_name : str) : option str :=
  last (sorted (List.filter (is_transcript_of base_name TRANSCRIPT_DIR)
                            (List.map fst (map_to_list all_files)))).

Section OfARun.
Variables (w : world) (all_files : gmap str text_file).
Variables (file_id filename file_path timestamp : str).

Definition of_transcript_step : result str * list event :=
  match cached all_files (splitext_root filename) with
  | Some existing =>
    match all_files !! existing with
    | Some (Readable characters) => (Ok (universal_newlines characters), [])
    | Some (Broken e) => (Raise e, [])
    | None => (Raise (no_such_file existing), [])
    end
  | None =>
    (fst (transcription w file_path),
     EvStatus file_id (lit "transcribing") :: snd (transcription w file_path))
  end.

Definition of_analyze_and_finish (transcript : str) : result unit * list event :=
  let started := [EvStatus file_id (lit "analyzing");
                  EvAnalyze filename transcript timestamp] in
  match analysis w filename transcript timestamp with
  | Raise e => (Raise e, started)
  | Ok _ =>
    match rename w file_path (path_join ARCHIVE_DIR (basename file_path)) with
    | Raise e => (Raise e, started)
    | Ok _ => (Ok tt, started ++ [EvStatus file_id (lit "processed")])
    end
  end.

Definition of_stages : result unit * list event :=
  match download_recording w file_id file_path with
  | Raise e => (Raise e, [EvStatus file_id (lit "downloading")])
  | Ok false =>
    (Ok tt, [EvStatus file_id (lit "downloading"); EvStatus file_id (lit "error")])
  | Ok true =>
    let started := [EvStatus file_id (lit "downloading");
                    EvStatus file_id (lit "uploading_recording")] in
    match of_transcript_step with
    | (Raise e, K) => (Raise e, started ++ K)
    | (Ok transcript, K) =>
      (fst (of_analyze_and_finish transcript),
       started ++ K ++ snd (of_analyze_and_finish transcript))
    end
  end.

End OfARun.

(** The key events of [process_plaud_recording]: those of the [try] block,
    and the [error] status of the handler when the block raises. *)
Definition of_process (w : world) (all_files : gmap str text_file) (file_id raw_filename : str)
  : list event :=
  let filename := local_filename raw_filename in
  let file_path := path_join DOWNLOAD_DIR filename in
  let out := of_stages w all_files file_id filename file_path (strftime_now w) in
  match fst out with
  | Ok _ => snd out
  | Raise _ => snd out ++ [EvStatus file_id (lit "error")]
  end.

End Outcome.

(** ** A sample world and sample states

    Concrete inputs on which the statements below are evaluated. *)

Module Sample.

Definition settings : config :=
  Config (lit "sk-ant-key") (lit "Summarise the transcript.")
         (lit "claude-sonnet-4-6") (lit "bearer token")
         (lit "documents-folder") (lit "recordings-folder").

(** A world in which the download, the engine, the rendering and the
    rename succeed; the upload to the drive and the answers of the LLM are
    the arguments. *)
Definition world_with (upload : result unit) (script : api_script) : world :=
  World settings
        (fun _ _ => Ok true)
        (Ok [Recording (Some (lit "rec1")) (Some (lit "Team sync")) None])
        (fun _ => Ok true)
        (fun _ _ => upload)
        (fun _ => Ok 1024)
        (fun _ => Ok (WhisperResult [(75, lit " hello there ")] (lit "hello there")))
        script
        (fun _ => Ok tt)
        (Ok [])
        (fun _ _ => Ok tt)
        (fun n => decimal (N.of_nat n))
        (fun _ => lit "restart")
        (lit "20240501_1030")
        true.

(** The LLM creates one document and then signals completion. *)
Definition creates_document : api_script :=
  ApiReturns
    (Response (lit "tool_use")
       [ToolUseBlock (lit "call-1") (lit "create_document")
          (ToolInput (Some (lit "Team sync notes")) (Some (lit "# Summary")))])
    (ApiReturns (Response (lit "end_turn") [TextBlock (lit "Done.")])
                (ApiRaises (Exn APIError (lit "no further call")))).

(** The LLM signals completion at once, without any tool call. *)
Definition declines : api_script :=
  ApiReturns (Response (lit "end_turn") [TextBlock (lit "Nothing to write.")])
             (ApiRaises (Exn APIError (lit "no further call"))).

(** The LLM stops because it ran out of tokens. *)
Definition runs_out : api_script :=
  ApiReturns (Response (lit "max_tokens") [TextBlock (lit "The meeting")])
             (ApiRaises (Exn APIError (lit "no further call"))).

Definition upload_fails : result unit := Raise (Exn OSError (lit "connection reset")).

Definition fresh : state := blank.

(** A status file with one recording left in [transcribing] and one
    [processed]. *)
Definition interrupted_entry : entry :=
  Entry (Some (lit "transcribing")) (Some (lit "t0")) (Some (lit "a.mp3")).
Definition finished_entry : entry :=
  Entry (Some (lit "processed")) (Some (lit "t1")) (Some (lit "b.mp3")).
Definition interrupted_store : gmap str entry :=
  <[lit "rec1" := interrupted_entry]> (<[lit "rec2" := finished_entry]> ∅).
Definition interrupted : state :=
  State (Holding interrupted_store) Absent ∅ [] 0 false.

(** A transcript of an earlier run of the recording [Team sync]. *)
Definition cached_path : str :=
  lit "/app/config/transcripts/Team sync_20240430_0900.txt".
Definition with_cached_transcript : state :=
  State Absent Absent (<[cached_path := Readable (lit "[00:00] earlier text")]> ∅)
        [] 0 false.

(** The same transcript with the line endings of another system: a
    carriage return and a line feed between its two lines. *)
Definition dos_text : str := lit "[00:00] earlier" ++ [13; 10] ++ lit "[00:05] text".
Definition with_dos_transcript : state :=
  State Absent Absent (<[cached_path := Readable dos_text]> ∅) [] 0 false.

(** The transcript file cannot be decoded. *)
Definition undecodable : exn :=
  Exn UnicodeDecodeError
      (lit "'utf-8' codec can't decode byte 0xff in position 0: invalid start byte").
Definition with_broken_transcript : state :=
  State Absent Absent (<[cached_path := Broken undecodable]> ∅) [] 0 false.

(** The status file cannot be decoded and the processing lock is held. *)
Definition locked_and_undecodable : state :=
  State (Damaged undecodable) Absent ∅ [] 0 true.

(** Fifty-one calls of [add_history_entry]. *)
Definition many_calls : list History.history_call :=
  replicate 51 (lit "a.mp3", lit "success", []).

End Sample.

(** ** The rest of [pipeline.py]: the file watcher's entry point *)

Module Legacy.
Import Pipeline.

(** The characters [_validate_filename] rejects: slash, backslash, colon,
    star, question mark, double quote, less-than, greater-than and bar. *)
Definition REJECTED : str := [47; 92; 58; 42; 63; 34; 60; 62; 124].

Definition _validate_filename (filename : str) : bool :=
  match filename with
  | [] => false
  | _ =>
    if existsb (fun c => in_chars c filename) REJECTED then false
    else if startswith filename (lit ".") then false
    else true
  end.

(** [process_audio_file]: the name and the size are checked before the
    [try] block; inside it the recording is mirrored, transcribed, analysed
    and archived, and the history records how it went. *)
Definition process_audio_file (w : world) (file_path : str) : M unit :=
  let filename := basename file_path in
  if negb (_validate_filename filename) then ret tt
  else
    file_size <- call (getsize w file_path) ;;
    if MAX_AUDIO_FILE_SIZE <? file_size then ret tt
    else
      try_except
        (_upload_to_gdrive w file_path (lit "recordings") ;;;
         transcript <- transcribe_audio w file_path ;;
         create_document_via_claude w filename transcript [] ;;;
         archive_audio w file_path ;;;
         _record_history w filename (lit "success") [])
        (fun exc => _record_history w filename (lit "error") (exn_message exc)).

End Legacy.

(** ** The settings of [config.py]

    The settings are a dictionary from names to JSON values.  The settings
    file is read with [open] and [json.load] like the status file;
    [save_config] writes a JSON object, and a file that holds another JSON
    value is read too. *)

Module Settings.

Abbreviation settings := (gmap str json).

(** What [json.load] returns for the settings file: the dictionary of a JSON
    object, or another JSON value. *)
Inductive saved_value :=
  | Object (entries : settings)
  | Other (value : json).

Definition DEFAULTS : list (str * json) :=
  [ (lit "anthropic_api_key", JStr []);
    (lit "output_dir", JStr (lit "/tmp/claudioscribe"));
    (lit "log_level", JStr (lit "INFO"));
    (lit "claude_prompt",
     JStr (lit "You are a document assistant. Create a well-structured document "
           ++ lit "from this audio transcript." ++ [NEWLINE; NEWLINE]
           ++ lit "Instructions:" ++ [NEWLINE]
           ++ lit "1. First list existing documents to understand context" ++ [NEWLINE]
           ++ lit "2. Create a new document with a clear title based on the content"
           ++ [NEWLINE]
           ++ lit "3. The document should include:" ++ [NEWLINE]
           ++ lit "   - A summary section at the top" ++ [NEWLINE]
           ++ lit "   - Key points or action items" ++ [NEWLINE]
           ++ lit "   - The full transcript at the bottom under a Transcript heading"
           ++ [NEWLINE]
           ++ lit "4. Use clear headings and organize the content logically"));
    (lit "claude_model", JStr (lit "claude-sonnet-4-6"));
    (lit "plaud_token", JStr []);
    (lit "plaud_base_url", JStr (lit "https://api-euc1.plaud.ai"));
    (lit "plaud_poll_interval", JInt 60);
    (lit "gdrive_enabled", JBool false);
    (lit "gdrive_access_token", JStr []);
    (lit "gdrive_refresh_token", JStr []);
    (lit "gdrive_token_expiry", JStr []);
    (lit "gdrive_folder_id", JStr []);
    (lit "gdrive_documents_folder_id", JStr []);
    (lit "gdrive_recordings_folder_id", JStr []) ].

(** [dict(DEFAULTS)]. *)
Definition dict (items : list (str * json)) : settings := list_to_map items.

(** The names of a JSON object in the order of their first appearance,
    the order of the keys of the dictionary [json.load] makes of it. *)
Fixpoint distinct (seen names : list str) : list str :=
  match names with
  | [] => []
  | name :: rest =>
    if bool_decide (name ∈ seen) then distinct seen rest
    else name :: distinct (name :: seen) rest
  end.

Definition object_keys (items : list (str * json)) : list str := distinct [] (items.*1).

(** The dictionary [json.load] makes of a JSON object: a name that is given
    more than once keeps its last value. *)
Definition object_entries (items : list (str * json)) : settings :=
  foldl (fun entries item => <[fst item := snd item]> entries) ∅ items.

(** [list(value)], what iterating over a value gives: the items of a list,
    the characters of a string, the keys of a dictionary; a number, a
    boolean and [None] cannot be iterated over. *)
Definition elements (value : json) : option (list json) :=
  match value with
  | JList items => Some items
  | JStr s => Some (List.map (fun c => JStr [c]) s)
  | JDict items => Some (List.map JStr (object_keys items))
  | _ => None
  end.

(** The name of the type of a value in the messages of the interpreter. *)
Definition type_name (value : json) : str :=
  match value with
  | JNull => lit "NoneType"
  | JBool _ => lit "bool"
  | JInt _ => lit "int"
  | JFloat _ => lit "float"
  | JStr _ => lit "str"
  | JList _ => lit "list"
  | JDict _ => lit "dict"
  end.

(** The exceptions of [dict.update] on an argument that is no dictionary,
    with the messages of CPython. *)
Definition not_iterable (value : json) : exn :=
  Exn TypeError (lit "'" ++ type_name value ++ lit "' object is not iterable").
Definition not_a_sequence (index : nat) : exn :=
  Exn TypeError (lit "cannot convert dictionary update sequence element #"
                 ++ decimal (N.of_nat index) ++ lit " to a sequence").
Definition wrong_length (index size : nat) : exn :=
  Exn ValueError (lit "dictionary update sequence element #" ++ decimal (N.of_nat index)
                  ++ lit " has length " ++ decimal (N.of_nat size)
                  ++ lit "; 2 is required").
Definition unhashable (key : json) : exn :=
  Exn TypeError (lit "unhashable type: '" ++ type_name key ++ lit "'").

(** [dict.update] on the items of a sequence: every item must itself give
    two elements, a key and a value, and the key must be hashable.  A key
    that is a number, a boolean or [None] makes an entry that no name looks
    up; [settings] keeps the entries whose key is a string. *)
Fixpoint pairs (items : list json) (index : nat) (added : settings) : result settings :=
  match items with
  | [] => Ok added
  | item :: rest =>
    match elements item with
    | None => Raise (not_a_sequence index)
    | Some [key; value] =>
      match key with
      | JStr name => pairs rest (S index) (<[name := value]> added)
      | JList _ | JDict _ => Raise (unhashable key)
      | _ => pairs rest (S index) added
      end
    | Some parts => Raise (wrong_length index (length parts))
    end
  end.

(** The entries [config.update(saved)] adds to [config], or what it
    raises: the entries of a dictionary; the pairs of a sequence. *)
Definition entries (saved : saved_value) : result settings :=
  match saved with
  | Object entries => Ok entries
  | Other (JDict items) => Ok (object_entries items)
  | Other value =>
    match elements value with
    | None => Raise (not_iterable value)
    | Some items => pairs items 0 ∅
    end
  end.

(** [config.update(saved)]: the entries of [saved] replace those of
    [config]. *)
Definition update (config : settings) (saved : saved_value) : result settings :=
  match entries saved with
  | Raise e => Raise e
  | Ok added => Ok (added ∪ config)
  end.

(** [load_config]: [env_key] is [os.environ.get("ANTHROPIC_API_KEY")], the
    file is what [open] and [json.load] make of [settings.json].  The
    [except] clause catches a [json.JSONDecodeError] and an [OSError], also
    one that [update] would raise; [update] raises neither. *)
Definition load_config (env_key : option str) (f : stored saved_value) : result settings :=
  let config := dict DEFAULTS in
  let read :=
    match f with
    | Absent => Ok config
    | Damaged e =>
      if caught_by e [JSONDecodeError; OSError] then Ok config else Raise e
    | Holding saved =>
      match update config saved with
      | Raise e => if caught_by e [JSONDecodeError; OSError] then Ok config else Raise e
      | Ok config => Ok config
      end
    end in
  match read with
  | Raise e => Raise e
  | Ok config =>
    match env_key with
    | Some (c :: key) => Ok (<[lit "anthropic_api_key" := JStr (c :: key)]> config)
    | _ => Ok config
    end
  end.

(** The loop [for key in DEFAULTS: if key in data: config[key] = data[key]]. *)
Definition recognized (data : settings) (config : settings) : settings :=
  foldl (fun config key =>
           match data !! key with
           | Some value => <[key := value]> config
           | None => config
           end)
        config (DEFAULTS.*1).

Definition valid_levels : list str :=
  [lit "DEBUG"; lit "INFO"; lit "WARNING"; lit "ERROR"].

(** [value not in valid_levels], a test of membership in a set: a list or
    a dictionary cannot be hashed and the test raises a [TypeError]; a
    value that is no string equals none of the levels. *)
Definition not_in_valid_levels (value : json) : result bool :=
  match value with
  | JList _ => Raise (Exn TypeError (lit "unhashable type: 'list'"))
  | JDict _ => Raise (Exn TypeError (lit "unhashable type: 'dict'"))
  | JStr s => Ok (negb (bool_decide (s ∈ valid_levels)))
  | _ => Ok true
  end.

(** [save_config]: [open_file] is what [os.makedirs] and [open] for writing
    do.  The result is the value returned and what the settings file holds
    afterwards. *)
Definition save_config (open_file : result unit) (data : settings)
           (f : stored saved_value) : result settings * stored saved_value :=
  let config := recognized data (dict DEFAULTS) in
  match config !! lit "log_level" with
  | None => (Raise (Exn KeyError (lit "'log_level'")), f)
  | Some level =>
    match not_in_valid_levels level with
    | Raise e => (Raise e, f)
    | Ok invalid =>
      let config :=
        if invalid then <[lit "log_level" := JStr (lit "INFO")]> config else config in
      match open_file with
      | Raise e => (Raise e, f)
      | Ok _ => (Ok config, Holding (Object config))
      end
    end
  end.

(** The names of the settings of the drive that [google_disconnect] of
    [app/app.py] clears. *)
Definition cleared : list (str * json) :=
  [ (lit "gdrive_enabled", JBool false);
    (lit "gdrive_access_token", JStr []);
    (lit "gdrive_refresh_token", JStr []);
    (lit "gdrive_token_expiry", JStr []);
    (lit "gdrive_folder_id", JStr []);
    (lit "gdrive_documents_folder_id", JStr []);
    (lit "gdrive_recordings_folder_id", JStr []) ].

(** [google_disconnect]: the settings are loaded, the settings of the drive
    are cleared, and the result is saved. *)
Definition google_disconnect (env_key : option str) (open_file : result unit)
           (f : stored saved_value) : result unit * stored saved_value :=
  match load_config env_key f with
  | Raise e => (Raise e, f)
  | Ok config =>
    let config := foldl (fun config item => <[fst item := snd item]> config) config cleared in
    match save_config open_file config f with
    | (Raise e, f') => (Raise e, f')
    | (Ok _, f') => (Ok tt, f')
    end
  end.

End Settings.

(** ** The client of the Plaud API, [app/clients/plaud_client.py]

    What [PlaudClient.__init__] stores: the base address and the token, which
    is also the [Authorization] header of every request of the session.
    The test [token.lower().startswith("bearer ")] sees only the letters
    [a b e r] and the space, which no character outside [A-Z] is lowered to,
    so [lower] decides it as Python does. *)

Module Plaud.

Definition DEFAULT_BASE_URL : str := lit "https://api.plaud.ai".

Record client := Client {
  base_url : str;
  token : str;
}.

Definition init (token base_url : str) : client :=
  let base_url := rstrip (fun c => c =? SLASH) base_url in
  let token := strip isspace token in
  let token :=
    if negb (startswith (lower token) (lit "bearer "))
    then lit "bearer " ++ token
    else token in
  Client base_url token.

End Plaud.

(** ** The file watcher, [watcher.py]

    [PROCESSED] is the module's set of file names; [wait_for_file], a loop
    that polls the file until its size is stable or two minutes have passed,
    and [os.path.exists] are what the surroundings answer. *)

Module Watcher.

Definition SUPPORTED_EXTENSIONS : list str :=
  [lit ".mp3"; lit ".m4a"; lit ".wav"; lit ".ogg"; lit ".flac"].

Record fs_event := FsEvent {
  is_directory : bool;
  src_path : str;
}.

Record surroundings := Surroundings {
  path_exists : str -> bool;
  wait_for_file : str -> bool;
}.

(** [os.path.splitext(p)[1]]: what follows the root. *)
Definition splitext_ext (p : str) : str := drop (length (splitext_root p)) p.

(** [AudioHandler.on_created]: the result, the set [PROCESSED] and the
    state afterwards. *)
Definition on_created (w : world) (env : surroundings) (event : fs_event)
           (PROCESSED : gset str) (st : state) : result unit * (gset str * state) :=
  if is_directory event then (Ok tt, (PROCESSED, st))
  else
    let filepath := src_path event in
    let fname := basename filepath in
    let ext := lower (splitext_ext filepath) in
    if negb (bool_decide (ext ∈ SUPPORTED_EXTENSIONS)) then (Ok tt, (PROCESSED, st))
    else if bool_decide (fname ∈ PROCESSED) then (Ok tt, (PROCESSED, st))
    else if negb (path_exists env filepath) then (Ok tt, (PROCESSED, st))
    else
      let PROCESSED := PROCESSED ∪ {[fname]} in
      if wait_for_file env filepath then
        match getsize w filepath with
        | Raise e => (Raise e, (PROCESSED, st))
        | Ok file_size =>
          if Pipeline.MAX_AUDIO_FILE_SIZE <? file_size
          then (Ok tt, (PROCESSED ∖ {[fname]}, st))
          else
            let out := Legacy.process_audio_file w filepath st in
            (fst out, (PROCESSED, snd out))
        end
      else (Ok tt, (PROCESSED ∖ {[fname]}, st)).

End Watcher.

(** ** Further sample inputs *)

Module Cases.

(** Settings without a key for the LLM. *)
Definition settings_without_key : config :=
  Config [] (lit "Summarise the transcript.")
         (lit "claude-sonnet-4-6") (lit "bearer token")
         (lit "documents-folder") (lit "recordings-folder").

(** The world of [Sample.world_with] with these settings. *)
Definition world_without_key : world :=
  World settings_without_key
        (fun _ _ => Ok true)
        (Ok [Recording (Some (lit "rec1")) (Some (lit "Team sync")) None])
        (fun _ => Ok true)
        (fun _ _ => Ok tt)
        (fun _ => Ok 1024)
        (fun _ => Ok (WhisperResult [(75, lit " hello there ")] (lit "hello there")))
        Sample.creates_document
        (fun _ => Ok tt)
        (Ok [])
        (fun _ _ => Ok tt)
        (fun n => decimal (N.of_nat n))
        (fun _ => lit "restart")
        (lit "20240501_1030")
        true.

(** The blocks of one response: some text, a call of [create_document], a
    call of [list_documents] and a call of a tool that does not exist. *)
Definition mixed_blocks : list block :=
  [ TextBlock (lit "Let me look.");
    ToolUseBlock (lit "call-1") (lit "create_document")
                 (ToolInput (Some (lit "Team sync notes")) (Some (lit "# Summary")));
    ToolUseBlock (lit "call-2") (lit "list_documents") (ToolInput None None);
    ToolUseBlock (lit "call-3") (lit "delete_document") (ToolInput None None) ].

(** A settings file with a key, a level of the log that is not valid and a
    name that [config.py] does not know. *)
Definition saved_settings : Settings.settings :=
  <[lit "anthropic_api_key" := JStr (lit "sk-file")]>
    (<[lit "log_level" := JStr (lit "verbose")]>
       (<[lit "theme" := JStr (lit "dark")]>
          (<[lit "gdrive_enabled" := JBool true]>
             (<[lit "gdrive_refresh_token" := JStr (lit "refresh")]> ∅)))).

(** Settings whose level of the log is a list. *)
Definition settings_with_list_level : Settings.settings :=
  <[lit "log_level" := JList [JStr (lit "INFO")]]> ∅.

(** A text of one character more than the length cap, and a world whose
    engine returns it for every file, without segments. *)
Definition long_text : str := List.repeat 97 (N.to_nat (Pipeline.MAX_TRANSCRIPT_LENGTH + 1)).

Definition world_with_long_text : world :=
  World Sample.settings
        (fun _ _ => Ok true)
        (Ok [Recording (Some (lit "rec1")) (Some (lit "Team sync")) None])
        (fun _ => Ok true)
        (fun _ _ => Ok tt)
        (fun _ => Ok 1024)
        (fun _ => Ok (WhisperResult [] long_text))
        Sample.creates_document
        (fun _ => Ok tt)
        (Ok [])
        (fun _ _ => Ok tt)
        (fun n => decimal (N.of_nat n))
        (fun _ => lit "restart")
        (lit "20240501_1030")
        true.

(** Surroundings in which every file is there and ready. *)
Definition ready : Watcher.surroundings :=
  Watcher.Surroundings (fun _ => true) (fun _ => true).

(** A conversation in which the LLM asks for tools, with no tool call in
    its answers, a given number of times before it signals completion. *)
Fixpoint keeps_asking (n : nat) : api_script :=
  match n with
  | O => ApiReturns (Response (lit "end_turn") [])
                    (ApiRaises (Exn RuntimeError (lit "no further answer")))
  | S n => ApiReturns (Response (lit "tool_use") []) (keeps_asking n)
  end.

End Cases.

(** * Properties *)

(** ** Strings *)

Lemma Forall_list_filter {A} (P : A -> Prop) (f : A -> bool) (l : list A) :
  (forall x, f x = true -> P x) -> Forall P (List.filter f l).
Proof.
  intros Hf. induction l as [|x l IH]; simpl; [constructor|].
  destruct (f x) eqn:E; auto.
Qed.

Lemma Forall_list_filter_keep {A} (P : A -> Prop) (f : A -> bool) (l : list A) :
  Forall P l -> Forall P (List.filter f l).
Proof.
  induction 1 as [|x l Hx Hl IH]; simpl; [constructor|].
  destruct (f x); auto.
Qed.

Lemma lstrip_Forall (P : N -> Prop) p s : Forall P s -> Forall P (lstrip p s).
Proof.
  induction 1 as [|c s Hc Hs IH]; simpl; [constructor|].
  destruct (p c); auto.
Qed.

Lemma lstrip_all p s : Forall (fun c => p c = true) s -> lstrip p s = [].
Proof. induction 1 as [|c s Hc Hs IH]; simpl; [reflexivity|]. now rewrite Hc. Qed.

Lemma strip_Forall (P : N -> Prop) p s : Forall P s -> Forall P (strip p s).
Proof.
  intros H. unfold strip, rstrip.
  apply Forall_rev, lstrip_Forall, Forall_rev, lstrip_Forall, H.
Qed.

Lemma strip_all p s : Forall (fun c => p c = true) s -> strip p s = [].
Proof. intros H. unfold strip, rstrip. now rewrite (lstrip_all p s H). Qed.

(** ** The file name of a document *)

Section DocWriterFacts.
Import DocWriter.

Lemma sanitize_cases title :
  let safe := strip dot_or_space
                (List.filter (fun c => negb (in_chars c UNSAFE)) title) in
  (safe = [] /\ _sanitize_filename title = lit "untitled")
  \/ (safe <> [] /\ _sanitize_filename title = take 200 safe).
Proof.
  unfold _sanitize_filename. simpl.
  destruct (strip dot_or_space _) as [|c s]; [left|right]; split;
    (reflexivity || discriminate).
Qed.

Lemma filter_leaves_dots title :
  Forall (fun c => in_chars c UNSAFE = true \/ dot_or_space c = true) title ->
  Forall (fun c => dot_or_space c = true)
         (List.filter (fun c => negb (in_chars c UNSAFE)) title).
Proof.
  induction 1 as [|c l [Hc|Hc] Hl IH]; cbn [List.filter]; [constructor| |].
  - rewrite Hc. exact IH.
  - destruct (negb (in_chars c UNSAFE)); auto.
Qed.

(** C9. For every title, the sanitized document name holds none of the
    nine characters the sanitizer deletes, is at most 200 characters long
    and is not empty; and a title made only of deleted characters, dots
    and spaces gives the placeholder name [untitled]. *)
Theorem doc_sanitize_filename_safe (title : str) :
  let name := _sanitize_filename title in
  Forall (fun c => in_chars c UNSAFE = false) name
  /\ (length name <= 200)%nat
  /\ name <> []
  /\ (Forall (fun c => in_chars c UNSAFE = true \/ dot_or_space c = true) title ->
      name = lit "untitled").
Proof.
  cbv zeta.
  destruct (sanitize_cases title) as [[Hs ->]|[Hs ->]].
  - repeat split; try (vm_compute; lia); try discriminate.
    vm_compute. repeat constructor.
  - assert (Hsafe : Forall (fun c => in_chars c UNSAFE = false)
              (strip dot_or_space
                 (List.filter (fun c => negb (in_chars c UNSAFE)) title))).
    { apply strip_Forall, Forall_list_filter.
      intros x Hx. now apply negb_true_iff in Hx. }
    repeat split.
    + now apply Forall_take.
    + rewrite length_take. lia.
    + destruct (strip dot_or_space _) as [|c s]; [congruence | discriminate].
    + intros Hall. exfalso. now apply Hs, strip_all, filter_leaves_dots.
Qed.

(** The placeholder on a title of slashes, colons, dots and spaces. *)
Lemma doc_sanitize_filename_safe_witness :
  _sanitize_filename (lit "/: ..*?") = lit "untitled".
Proof.
  apply (doc_sanitize_filename_safe (lit "/: ..*?")).
  repeat (constructor; [vm_compute; auto|]). constructor.
Defined.

End DocWriterFacts.

(** ** The two safe local file names *)

(** C7. The web layer and the pipeline disagree on a provider name with a
    trailing space: the web layer sanitizes first and looks for
    [Team sync.mp3], the pipeline appends the extension first and downloads
    to [Team sync .mp3]. *)
Theorem safe_name_differs_from_local_filename :
  App.safe_name (lit "Team sync ") = lit "Team sync.mp3"
  /\ Pipeline.local_filename (lit "Team sync ") = lit "Team sync .mp3"
  /\ App.safe_name (lit "Team sync ") <> Pipeline.local_filename (lit "Team sync ").
Proof. vm_compute. repeat split; discriminate. Qed.

(** The same on a name with no character of the keep set at all (two CJK
    code points): the web layer falls back to [recording.mp3], the pipeline
    keeps only the extension it appended. *)
Lemma safe_name_differs_on_foreign_name :
  App.safe_name [20250; 35758] = lit "recording.mp3"
  /\ Pipeline.local_filename [20250; 35758] = lit ".mp3".
Proof. vm_compute. split; reflexivity. Qed.

(** Where the two agree: on a name that the sanitizer leaves as it is. *)
Lemma safe_name_agrees_on_clean_name (raw : str) :
  Pipeline._sanitize_filename raw = raw ->
  Pipeline._sanitize_filename (raw ++ lit ".mp3") = raw ++ lit ".mp3" ->
  App.safe_name raw = Pipeline.local_filename raw.
Proof.
  intros Hraw Hext. unfold App.safe_name, Pipeline.local_filename.
  rewrite Hraw. destruct (has_audio_extension raw); simpl; congruence.
Qed.

(** ** Reading the status file and the history file *)

Section LoadFacts.
Variable json_loads : str -> option json.

(** What the two loaders recover from: a missing file, a file that cannot
    be opened, and text that is not JSON. *)
Lemma load_pipeline_status_recovers (f : disk_file) :
  match f with
  | NoFile | Unreadable _ => True
  | Content bytes =>
    exists text, utf8_decode (List.map Byte.to_N bytes) = Some text
                 /\ json_loads text = None
  end ->
  Pipeline.load_pipeline_status_from (JDict []) (open_and_load json_loads f) = Ok (JDict [])
  /\ History._load_history_from (JList []) (open_and_load json_loads f) = Ok (JList []).
Proof.
  destruct f as [|m|bytes]; simpl; auto.
  intros (text & -> & ->). auto.
Qed.

(** C8. A status file or history file whose bytes are not UTF-8 (here the
    single byte 0xFF) is not recovered from: both loaders raise the
    [UnicodeDecodeError] of the read, which neither [except] clause names. *)
Theorem load_raises_on_undecodable_file :
  Pipeline.load_pipeline_status_from (JDict []) (open_and_load json_loads (Content [xff]))
  = Raise (Exn UnicodeDecodeError (lit "invalid utf-8"))
  /\ History._load_history_from (JList []) (open_and_load json_loads (Content [xff]))
     = Raise (Exn UnicodeDecodeError (lit "invalid utf-8")).
Proof. split; reflexivity. Qed.

End LoadFacts.

(** ** The bound on the history *)

Section HistoryFacts.
Import History.
Variable w : world.

Lemma take_app_take {A} (k j : nat) (l m : list A) :
  (k <= j)%nat -> take k (l ++ take j m) = take k (l ++ m).
Proof.
  revert k. induction l as [|x l IH]; intros k Hk; simpl.
  - rewrite take_take. f_equal. lia.
  - destruct k as [|k]; simpl; [reflexivity|]. f_equal. apply IH. lia.
Qed.

Lemma add_history_entry_step filename status message st h :
  _load_history st = (Ok h, st) ->
  add_history_entry w filename status message st
  = (Ok tt,
     set_history_file
       (Holding (take MAX_HISTORY
                      (HistoryEntry filename status message (isoformat_now w (ticks st)) :: h)))
       (tick st)).
Proof.
  intros Hload. unfold add_history_entry, bind. rewrite Hload. reflexivity.
Qed.

Lemma add_history_entries_nonempty c calls st h :
  _load_history st = (Ok h, st) ->
  exists st',
    add_history_entries w (c :: calls) st = (Ok tt, st')
    /\ history_file st'
       = Holding (take MAX_HISTORY (rev (entries_of w (ticks st) (c :: calls)) ++ h)).
Proof.
  revert c st h. induction calls as [|c' calls IH]; intros [[f s] m] st h Hload.
  - eexists. split.
    + simpl. unfold bind at 1. rewrite (add_history_entry_step _ _ _ _ _ Hload).
      reflexivity.
    + reflexivity.
  - remember (c' :: calls) as rest. simpl. unfold bind at 1.
    rewrite (add_history_entry_step _ _ _ _ _ Hload). subst rest.
    set (h1 := take MAX_HISTORY (HistoryEntry f s m (isoformat_now w (ticks st)) :: h)).
    destruct (IH c' (set_history_file (Holding h1) (tick st)) h1 eq_refl)
      as (st' & Hrun & Hfile).
    exists st'. split; [exact Hrun|].
    rewrite Hfile. subst h1. cbn [ticks tick set_history_file].
    rewrite take_app_take by reflexivity.
    destruct c' as [[f' s'] m'].
    cbn [entries_of rev]. rewrite <- !app_assoc. reflexivity.
Qed.

(** C10. Starting from any persisted history, after any non-empty sequence
    of calls of [add_history_entry] the file holds the entries of the calls,
    newest first, followed by the older entries, cut at 50: at most 50
    entries, the latest call at index 0, and exactly 50 once at least 50
    calls were made (the oldest entries are the ones dropped). *)
Theorem history_bounded_newest_first (calls : list history_call) (st : state)
        (h : list history_entry) :
  _load_history st = (Ok h, st) ->
  calls <> [] ->
  let st' := snd (add_history_entries w calls st) in
  exists h',
    history_file st' = Holding h'
    /\ h' = take MAX_HISTORY (rev (entries_of w (ticks st) calls) ++ h)
    /\ (length h' <= MAX_HISTORY)%nat
    /\ h' !! 0%nat = last (entries_of w (ticks st) calls)
    /\ ((MAX_HISTORY <= length calls)%nat ->
        h' = take MAX_HISTORY (rev (entries_of w (ticks st) calls))
        /\ length h' = MAX_HISTORY).
Proof.
  intros Hload Hne. destruct calls as [|c calls]; [congruence|].
  destruct (add_history_entries_nonempty c calls st h Hload) as (st' & Hrun & Hfile).
  cbv zeta. rewrite Hrun. cbn [snd].
  eexists. split; [exact Hfile|].
  assert (Hlen : forall n cs, length (entries_of w n cs) = length cs).
  { intros n cs. revert n. induction cs as [|[[? ?] ?] cs IH]; intros n; simpl; auto. }
  repeat split.
  - rewrite length_take. lia.
  - set (es := entries_of w (ticks st) (c :: calls)).
    assert (Hes : es <> []) by (destruct c as [[? ?] ?]; discriminate).
    destruct (rev es) as [|x r] eqn:Hr.
    + apply (f_equal (@length _)) in Hr. rewrite length_rev in Hr.
      destruct es; [congruence | discriminate].
    + apply (f_equal (@rev _)) in Hr. rewrite rev_involutive in Hr.
      rewrite Hr. cbn [rev]. rewrite last_snoc. reflexivity.
  - rewrite take_app_le; [reflexivity|]. rewrite length_rev, Hlen. exact H.
  - rewrite length_take, length_app, length_rev, Hlen. unfold MAX_HISTORY in *. lia.
Qed.

End HistoryFacts.

(** Fifty-one calls on an absent history file leave exactly 50 entries. *)
Lemma history_bounded_newest_first_witness :
  exists h',
    history_file (snd (History.add_history_entries (Sample.world_with (Ok tt) Sample.declines)
                                           Sample.many_calls Sample.fresh)) = Holding h'
    /\ length h' = History.MAX_HISTORY.
Proof.
  destruct (history_bounded_newest_first (Sample.world_with (Ok tt) Sample.declines) Sample.many_calls Sample.fresh [])
    as (h' & Hfile & _ & _ & _ & Hfull).
  - reflexivity.
  - discriminate.
  - exists h'. split; [exact Hfile|]. apply Hfull. vm_compute. lia.
Defined.


(** ** Startup recovery *)

Section RecoveryFacts.
Import Pipeline.

Lemma is_active_in e s :
  e_status e = Some s -> s ∈ _ACTIVE_STATUSES -> is_active e = true.
Proof.
  intros He Hs. unfold is_active. rewrite He. now apply bool_decide_eq_true_2.
Qed.

Lemma terminal_not_active e :
  e_status e = Some (lit "processed") \/ e_status e = Some (lit "error") ->
  is_active e = false.
Proof.
  intros [He|He]; unfold is_active; rewrite He; apply bool_decide_eq_false_2;
    intros Hin;
    repeat (apply elem_of_cons in Hin as [Hin|Hin]; [discriminate Hin|]);
    inversion Hin.
Qed.

(** C3. On every status store, startup recovery rewrites each entry whose
    status is one of the five active statuses to [error] (with the time of
    the rewrite, the file name kept), leaves each entry that is [processed]
    or [error] (and any other entry that is not active) as it was, and adds
    no entry. *)
Theorem reset_stale_statuses_rewrites_active
        (w : world) (st : state) (all_status : gmap str entry) :
  status_file st = Holding all_status ->
  let out := reset_stale_statuses w st in
  fst out = Ok tt
  /\ exists after,
      status_file (snd out) = Holding after
      /\ (forall file_id e, all_status !! file_id = Some e ->
          (forall s, e_status e = Some s -> s ∈ _ACTIVE_STATUSES ->
             after !! file_id
             = Some (Entry (Some (lit "error")) (Some (isoformat_at_reset w file_id))
                           (e_filename e)))
          /\ (e_status e = Some (lit "processed") \/ e_status e = Some (lit "error") ->
              after !! file_id = Some e)
          /\ (is_active e = false -> after !! file_id = Some e))
      /\ (forall file_id, all_status !! file_id = None -> after !! file_id = None).
Proof.
  intros Hfile. unfold reset_stale_statuses, bind, load_pipeline_status.
  rewrite Hfile. cbn [load_pipeline_status_from].
  destruct (bool_decide _) eqn:Hchanged; cbn [modify ret fst snd].
  - split; [reflexivity|].
    eexists. split; [reflexivity|]. split.
    + intros file_id e He.
      assert (Hlook : forall e', reset_entry w file_id e = e' ->
                map_imap (fun k x => Some (reset_entry w k x)) all_status !! file_id
                = Some e').
      { intros e' <-. rewrite map_lookup_imap, He. reflexivity. }
      repeat split.
      * intros s Hs Hin. apply Hlook. unfold reset_entry.
        now rewrite (is_active_in e s Hs Hin).
      * intros Hterm. apply Hlook. unfold reset_entry.
        now rewrite (terminal_not_active e Hterm).
      * intros Hno. apply Hlook. unfold reset_entry. now rewrite Hno.
    + intros file_id Hnone. rewrite map_lookup_imap, Hnone. reflexivity.
  - apply bool_decide_eq_false_1 in Hchanged.
    split; [reflexivity|].
    exists all_status. split; [exact Hfile|]. split.
    + intros file_id e He. repeat split; auto.
      intros s Hs Hin. exfalso. apply Hchanged.
      exists file_id, e. split; [exact He|]. exact (is_active_in e s Hs Hin).
    + auto.
Qed.

End RecoveryFacts.

(** Recovery on a store with one recording left in [transcribing] and one
    [processed]. *)
Lemma reset_stale_statuses_rewrites_active_witness :
  exists after,
    status_file (snd (Pipeline.reset_stale_statuses
                        (Sample.world_with (Ok tt) Sample.declines)
                        Sample.interrupted)) = Holding after
    /\ after !! lit "rec1"
       = Some (Entry (Some (lit "error")) (Some (lit "restart")) (Some (lit "a.mp3")))
    /\ after !! lit "rec2" = Some Sample.finished_entry.
Proof.
  destruct (reset_stale_statuses_rewrites_active
              (Sample.world_with (Ok tt) Sample.declines)
              Sample.interrupted Sample.interrupted_store eq_refl)
    as (_ & after & Hfile & Hentries & _).
  exists after. split; [exact Hfile|]. split.
  - assert (Hlook : Sample.interrupted_store !! lit "rec1" = Some Sample.interrupted_entry)
      by (vm_compute; reflexivity).
    destruct (Hentries _ _ Hlook) as (Hactive & _ & _).
    apply (Hactive (lit "transcribing") eq_refl).
    unfold Pipeline._ACTIVE_STATUSES.
    do 3 apply list_elem_of_further. apply list_elem_of_here.
  - assert (Hlook : Sample.interrupted_store !! lit "rec2" = Some Sample.finished_entry)
      by (vm_compute; reflexivity).
    destruct (Hentries _ _ Hlook) as (_ & Hterminal & _).
    apply Hterminal. left. reflexivity.
Defined.

(** ** Single-flight admission *)

Section AdmissionFacts.
Import App.

(** When the status file can be loaded, a trigger for a recording whose
    current status is none of [new], [error] and [processed], or while the
    processing lock is held, is answered with HTTP status 409, starts no
    thread, and leaves the state (the status file with it) as it was. *)
Theorem busy_trigger_is_rejected
        (w : world) (st : state) (file_id : str) (pipeline_status : gmap str entry) :
  Pipeline.load_pipeline_status st = (Ok pipeline_status, st) ->
  current_status pipeline_status file_id ∉ [lit "new"; lit "error"; lit "processed"]
  \/ lock_held st = true ->
  exists message,
    process_recording w file_id st = (Ok (Answer 409 message None), st).
Proof.
  intros Hload Hbusy. unfold process_recording, bind at 1. rewrite Hload.
  destruct (bool_decide (current_status pipeline_status file_id ∈ _)) eqn:Hcur.
  - destruct Hbusy as [Hactive|Hlock].
    + apply bool_decide_eq_true_1 in Hcur. contradiction.
    + cbn [negb]. unfold bind, get. rewrite Hlock. eexists. reflexivity.
  - cbn [negb]. eexists. reflexivity.
Qed.

(** C6. The route loads the status file before it tests the status and
    the lock.  When loading raises an exception that [load_pipeline_status]
    does not catch (a file that is no valid UTF-8 raises a
    [UnicodeDecodeError]), a trigger made while the processing lock is held
    is not answered 409: [process_recording] raises that exception, whatever
    the status of the recording; the state is left as it was. *)
Theorem busy_trigger_raises_on_undecodable_status_file
        (w : world) (st : state) (file_id : str) (e : exn) :
  lock_held st = true ->
  status_file st = Damaged e ->
  caught_by e [JSONDecodeError; OSError] = false ->
  process_recording w file_id st = (Raise e, st)
  /\ forall message, process_recording w file_id st <> (Ok (Answer 409 message None), st).
Proof.
  intros _ Hfile Hcaught.
  assert (Hraise : process_recording w file_id st = (Raise e, st)).
  { unfold process_recording, bind at 1, Pipeline.load_pipeline_status,
      Pipeline.load_pipeline_status_from.
    now rewrite Hfile, Hcaught. }
  split; [exact Hraise|]. intros message. rewrite Hraise. discriminate.
Qed.

End AdmissionFacts.

(** The lock is held and the status file holds a byte that is no UTF-8:
    the trigger raises a [UnicodeDecodeError]. *)
Lemma busy_trigger_raises_on_undecodable_status_file_witness :
  lock_held Sample.locked_and_undecodable = true
  /\ App.process_recording (Sample.world_with (Ok tt) Sample.declines) (lit "rec1")
                           Sample.locked_and_undecodable
     = (Raise Sample.undecodable, Sample.locked_and_undecodable).
Proof.
  split; [reflexivity|].
  apply (proj1 (busy_trigger_raises_on_undecodable_status_file
                  (Sample.world_with (Ok tt) Sample.declines)
                  Sample.locked_and_undecodable (lit "rec1") Sample.undecodable
                  eq_refl eq_refl eq_refl)).
Defined.

(** A trigger for the recording that is in [transcribing]. *)
Lemma busy_trigger_is_rejected_witness :
  exists message,
    App.process_recording (Sample.world_with (Ok tt) Sample.declines) (lit "rec1")
                          Sample.interrupted
    = (Ok (App.Answer 409 message None), Sample.interrupted).
Proof.
  apply (busy_trigger_is_rejected _ Sample.interrupted (lit "rec1")
                                  Sample.interrupted_store eq_refl).
  left. vm_compute. intros Hin.
  repeat (apply elem_of_cons in Hin as [Hin|Hin]; [discriminate Hin|]).
  inversion Hin.
Defined.

(** ** How a computation moves the state *)

Lemma bind_ok {A B} (m : M A) (k : A -> M B) st a st' :
  m st = (Ok a, st') -> bind m k st = k a st'.
Proof. intros H. unfold bind. now rewrite H. Qed.

Lemma bind_raise {A B} (m : M A) (k : A -> M B) st e st' :
  m st = (Raise e, st') -> bind m k st = (Raise e, st').
Proof. intros H. unfold bind. now rewrite H. Qed.

Lemma try_ok {A} (m : M A) (h : exn -> M A) st a st' :
  m st = (Ok a, st') -> try_except m h st = (Ok a, st').
Proof. intros H. unfold try_except. now rewrite H. Qed.

Lemma try_raise {A} (m : M A) (h : exn -> M A) st e st' :
  m st = (Raise e, st') -> try_except m h st = h e st'.
Proof. intros H. unfold try_except. now rewrite H. Qed.

Lemma key_app (L1 L2 : list event) : key (L1 ++ L2) = key L1 ++ key L2.
Proof. apply List.filter_app. Qed.

Lemma status_trace_app (L1 L2 : list event) :
  status_trace (L1 ++ L2) = status_trace L1 ++ status_trace L2.
Proof. apply flat_map_app. Qed.

Lemma status_trace_key (L : list event) : status_trace (key L) = status_trace L.
Proof.
  induction L as [|e L IH]; [reflexivity|].
  destruct e; cbn [key List.filter is_key]; cbn [status_trace flat_map];
    fold (key L); fold (status_trace L); fold (status_trace (key L));
    rewrite ?IH; reflexivity.
Qed.

(** [grows st st' K]: the log of [st'] is the log of [st] and more events,
    whose key events are [K]. *)
Definition grows (st st' : state) (K : list event) : Prop :=
  exists L, events st' = events st ++ L /\ key L = K.

Lemma grows_refl st : grows st st [].
Proof. exists []. split; [now rewrite app_nil_r | reflexivity]. Qed.

Lemma grows_trans st1 st2 st3 K1 K2 :
  grows st1 st2 K1 -> grows st2 st3 K2 -> grows st1 st3 (K1 ++ K2).
Proof.
  intros (L1 & E1 & <-) (L2 & E2 & <-). exists (L1 ++ L2).
  split; [now rewrite E2, E1, app_assoc | apply key_app].
Qed.

Lemma grows_one st st' e :
  events st' = events st ++ [e] -> grows st st' (key [e]).
Proof. intros H. exists [e]. auto. Qed.

Lemma grows_same st st' :
  events st' = events st -> grows st st' [].
Proof. intros H. exists []. split; [now rewrite app_nil_r | reflexivity]. Qed.

Lemma grows_eq st st' K K' : grows st st' K -> K = K' -> grows st st' K'.
Proof. now intros H <-. Qed.

Lemma grows_new_events st st' K : grows st st' K -> key (new_events st st') = K.
Proof.
  intros (L & E & <-). unfold new_events. now rewrite E, drop_app_length.
Qed.

(** [extends st st' K]: moreover the status file and the text files are
    untouched. *)
Definition extends (st st' : state) (K : list event) : Prop :=
  status_file st' = status_file st /\ files st' = files st /\ grows st st' K.

Lemma extends_refl st : extends st st [].
Proof. repeat split. apply grows_refl. Qed.

Lemma extends_trans st1 st2 st3 K1 K2 :
  extends st1 st2 K1 -> extends st2 st3 K2 -> extends st1 st3 (K1 ++ K2).
Proof.
  intros (S1 & F1 & G1) (S2 & F2 & G2). repeat split; try congruence.
  eapply grows_trans; eassumption.
Qed.

(** [observes m r K]: from every state, [m] returns or raises [r] and
    extends the state by the key events [K]. *)
Definition observes {A} (m : M A) (r : result A) (K : list event) : Prop :=
  forall st, exists st', m st = (r, st') /\ extends st st' K.

(** [silent m]: the same for some result and no key event. *)
Definition silent {A} (m : M A) : Prop := exists r, observes m r [].

Lemma observes_ret {A} (a : A) : observes (ret a) (Ok a) [].
Proof. intros st. exists st. split; [reflexivity | apply extends_refl]. Qed.

Lemma observes_raise {A} (e : exn) : observes (@raise A e) (Raise e) [].
Proof. intros st. exists st. split; [reflexivity | apply extends_refl]. Qed.

Lemma observes_call {A} (r : result A) : observes (call r) r [].
Proof. intros st. exists st. split; [reflexivity | apply extends_refl]. Qed.

Lemma observes_emit (e : event) : observes (emit e) (Ok tt) (key [e]).
Proof.
  intros st. eexists. split; [reflexivity|].
  repeat split. now apply grows_one.
Qed.

Lemma observes_bind_ok {A B} (m : M A) (k : A -> M B) a K1 r K2 :
  observes m (Ok a) K1 -> observes (k a) r K2 -> observes (bind m k) r (K1 ++ K2).
Proof.
  intros Hm Hk st. destruct (Hm st) as (st1 & E1 & X1).
  destruct (Hk st1) as (st2 & E2 & X2). exists st2.
  split; [now rewrite (bind_ok _ _ _ _ _ E1) | eapply extends_trans; eassumption].
Qed.

Lemma observes_bind_raise {A B} (m : M A) (k : A -> M B) e K :
  observes m (Raise e) K -> observes (bind m k) (Raise e) K.
Proof.
  intros Hm st. destruct (Hm st) as (st1 & E1 & X1). exists st1.
  split; [now rewrite (bind_raise _ _ _ _ _ E1) | exact X1].
Qed.

Lemma silent_ret {A} (a : A) : silent (ret a).
Proof. eexists. apply observes_ret. Qed.

Lemma silent_raise {A} (e : exn) : silent (@raise A e).
Proof. eexists. apply observes_raise. Qed.

Lemma silent_call {A} (r : result A) : silent (call r).
Proof. eexists. apply observes_call. Qed.

Lemma silent_emit (e : event) : is_key e = false -> silent (emit e).
Proof.
  intros H. exists (Ok tt).
  replace (@nil event) with (key [e]); [apply observes_emit|].
  unfold key. simpl. now rewrite H.
Qed.

Lemma silent_bind {A B} (m : M A) (k : A -> M B) :
  silent m -> (forall a, silent (k a)) -> silent (bind m k).
Proof.
  intros [[a|e] Hm] Hk.
  - destruct (Hk a) as [r Hr]. exists r.
    exact (observes_bind_ok m k a [] r [] Hm Hr).
  - exists (Raise e). now apply observes_bind_raise.
Qed.

Lemma silent_try {A} (m : M A) (h : exn -> M A) :
  silent m -> (forall e, silent (h e)) -> silent (try_except m h).
Proof.
  intros [[a|e] Hm] Hh.
  - exists (Ok a). intros st. destruct (Hm st) as (st1 & E1 & X1). exists st1.
    split; [now rewrite (try_ok _ _ _ _ _ E1) | exact X1].
  - destruct (Hh e) as [r Hr]. exists r. intros st.
    destruct (Hm st) as (st1 & E1 & X1). destruct (Hr st1) as (st2 & E2 & X2).
    exists st2. split; [now rewrite (try_raise _ _ _ _ _ E1)|].
    exact (extends_trans _ _ _ [] [] X1 X2).
Qed.

(** A [try] whose handler drops every exception returns normally. *)
Lemma observes_try_drop (m : M unit) :
  silent m -> observes (try_except m (fun _ => ret tt)) (Ok tt) [].
Proof.
  intros [[[]|e] Hm] st; destruct (Hm st) as (st1 & E1 & X1); exists st1.
  - split; [now rewrite (try_ok _ _ _ _ _ E1) | exact X1].
  - split; [now rewrite (try_raise _ _ _ _ _ E1) | exact X1].
Qed.

Create HintDb silent.
#[local] Hint Resolve silent_ret silent_raise silent_call : silent.

(** ** The steps of the pipeline, one by one *)

Section StepFacts.
Import Pipeline.
Variable w : world.

Lemma upload_observes local_path folder_type :
  observes (_upload_to_gdrive w local_path folder_type) (Ok tt) [].
Proof.
  apply observes_try_drop. apply silent_bind; [apply silent_call|].
  intros client. destruct client; cbn [negb]; [|apply silent_ret].
  destruct (if bool_decide (folder_type = lit "documents")
            then gdrive_documents_folder_id (load_config w)
            else gdrive_recordings_folder_id (load_config w)) as [|c folder_id];
    [apply silent_ret|].
  apply silent_bind; [now apply silent_emit | intros _; apply silent_call].
Qed.

Lemma upload_silent local_path folder_type :
  silent (_upload_to_gdrive w local_path folder_type).
Proof. eexists. apply upload_observes. Qed.

Lemma create_document_silent title content output_dir timestamp :
  silent (DocWriter.create_document w title content output_dir timestamp).
Proof.
  unfold DocWriter.create_document.
  apply silent_bind; [now apply silent_emit|]. intros _.
  apply silent_bind; [apply silent_call|]. intros _. apply silent_ret.
Qed.

Lemma item_silent key value : silent (item key value).
Proof. destruct value; [apply silent_ret | apply silent_raise]. Qed.

Lemma handle_tool_call_silent timestamp tool_name input :
  silent (handle_tool_call w timestamp tool_name input).
Proof.
  unfold handle_tool_call.
  destruct (bool_decide (tool_name = lit "create_document")).
  - apply silent_bind; [apply item_silent|]. intros title.
    apply silent_bind; [apply item_silent|]. intros content.
    apply silent_bind; [apply create_document_silent|]. intros result.
    apply silent_bind; [apply upload_silent|]. intros _. apply silent_ret.
  - destruct (bool_decide (tool_name = lit "list_documents")); [|apply silent_ret].
    apply silent_bind; [|intros names; apply silent_ret].
    unfold DocWriter.list_documents.
    apply silent_bind; [apply silent_call | intros names; apply silent_ret].
Qed.

Lemma handle_blocks_silent timestamp blocks :
  silent (handle_blocks w timestamp blocks).
Proof.
  induction blocks as [|[text|id name input] blocks IH]; cbn [handle_blocks].
  - apply silent_ret.
  - exact IH.
  - apply silent_bind; [apply handle_tool_call_silent|]. intros result.
    apply silent_bind; [exact IH|]. intros results. apply silent_ret.
Qed.

Lemma tool_use_loop_silent timestamp script messages :
  silent (tool_use_loop w timestamp script messages).
Proof.
  revert messages. induction script as [e|response rest IH]; intros messages;
    cbn [tool_use_loop].
  - apply silent_bind; [now apply silent_emit | intros _; apply silent_raise].
  - apply silent_bind; [now apply silent_emit|]. intros _.
    destruct (bool_decide (stop_reason response = lit "end_turn")); [apply silent_ret|].
    destruct (bool_decide (stop_reason response = lit "tool_use")); [|apply silent_raise].
    apply silent_bind; [apply handle_blocks_silent|]. intros tool_results. apply IH.
Qed.

(** The analysis leaves one key event, its own call, and returns or raises
    the same whatever the state. *)
Lemma analysis_observes filename transcript timestamp :
  observes (create_document_via_claude w filename transcript timestamp)
           (Outcome.analysis w filename transcript timestamp)
           [EvAnalyze filename transcript timestamp].
Proof.
  assert (H : exists r, observes (create_document_via_claude w filename transcript timestamp)
                                 r [EvAnalyze filename transcript timestamp]).
  { unfold create_document_via_claude.
    destruct (anthropic_api_key (load_config w)) as [|c api_key].
    - exists (Raise (Exn ValueError (lit "Anthropic API key not configured"))).
      apply (observes_bind_ok _ _ tt [EvAnalyze filename transcript timestamp] _ []
                              (observes_emit (EvAnalyze filename transcript timestamp))).
      apply observes_raise.
    - destruct (tool_use_loop_silent timestamp (messages_create w)
                  [UserText (claude_prompt (load_config w) ++ [NEWLINE; NEWLINE]
                     ++ lit "You are running as model: " ++ claude_model (load_config w)
                     ++ [NEWLINE; NEWLINE]
                     ++ lit "Audio file: " ++ splitext_root filename ++ [NEWLINE; NEWLINE]
                     ++ lit "Transcript:" ++ [NEWLINE] ++ transcript)]) as [r Hr].
      exists r.
      exact (observes_bind_ok _ _ tt [EvAnalyze filename transcript timestamp] _ []
                              (observes_emit (EvAnalyze filename transcript timestamp)) Hr). }
  destruct H as [r Hr]. unfold Outcome.analysis.
  destruct (Hr blank) as (st' & E & _). rewrite E. exact Hr.
Qed.

Lemma transcribe_observes file_path :
  observes (transcribe_audio w file_path)
           (fst (Outcome.transcription w file_path))
           (snd (Outcome.transcription w file_path)).
Proof.
  unfold transcribe_audio, Outcome.transcription.
  destruct (getsize w file_path) as [file_size|e].
  - apply (observes_bind_ok _ _ file_size [] _ _ (observes_call _)).
    destruct (MAX_AUDIO_FILE_SIZE <? file_size); [apply observes_raise|].
    destruct (transcribe w file_path) as [result|e]; cbn [fst snd].
    + apply (observes_bind_ok _ _ tt [EvTranscribe file_path] _ []
                              (observes_emit (EvTranscribe file_path))).
      apply (observes_bind_ok _ _ result [] _ [] (observes_call _)).
      apply observes_ret.
    + apply (observes_bind_ok _ _ tt [EvTranscribe file_path] _ []
                              (observes_emit (EvTranscribe file_path))).
      apply observes_bind_raise, observes_call.
  - apply observes_bind_raise, observes_call.
Qed.

Lemma archive_observes file_path :
  observes (archive_audio w file_path)
           (rename w file_path (path_join ARCHIVE_DIR (basename file_path))) [].
Proof.
  unfold archive_audio.
  apply (observes_bind_ok _ _ tt [] _ []
           (observes_emit (EvArchive file_path (path_join ARCHIVE_DIR (basename file_path))))).
  apply observes_call.
Qed.

(** Recording the history never fails and touches neither the status file
    nor the text files. *)
Lemma record_history_observes filename status message :
  observes (_record_history w filename status message) (Ok tt) [].
Proof.
  intros st. unfold _record_history, try_except.
  destruct (settings_app_importable w).
  - unfold History.add_history_entry, bind, History._load_history.
    destruct (History._load_history_from [] (history_file st)) as [h|e];
      (eexists; split; [reflexivity|]);
      repeat split; apply grows_same; reflexivity.
  - eexists. split; [reflexivity | apply extends_refl].
Qed.

(** A state whose status file can be read: a write of a status succeeds. *)
Definition writable (st : state) : Prop :=
  exists all_status, load_pipeline_status_from ∅ (status_file st) = Ok all_status.

Lemma stored_status_writable st file_id s :
  stored_status st file_id = Some s -> writable st.
Proof.
  unfold stored_status, writable. destruct (status_file st) as [|e|m]; try discriminate.
  intros _. now exists m.
Qed.

Lemma writable_extends st st' K : writable st -> extends st st' K -> writable st'.
Proof. intros Hw (S & _). unfold writable. now rewrite S. Qed.

Lemma stored_status_extends st st' K file_id :
  extends st st' K -> stored_status st' file_id = stored_status st file_id.
Proof. intros (S & _). unfold stored_status. now rewrite S. Qed.

Lemma set_pipeline_status_runs file_id status filename st :
  writable st ->
  exists st',
    set_pipeline_status w file_id status filename st = (Ok tt, st')
    /\ stored_status st' file_id = Some status
    /\ files st' = files st
    /\ events st' = events st ++ [EvStatus file_id status].
Proof.
  intros [m Hm]. unfold set_pipeline_status, bind, load_pipeline_status.
  rewrite Hm. eexists. split; [reflexivity|].
  repeat split. unfold stored_status. cbn.
  now rewrite lookup_insert_eq.
Qed.

(** A status file that cannot be read: a write of a status raises and
    changes nothing. *)
Lemma set_pipeline_status_raises file_id status filename st e :
  load_pipeline_status_from (∅ : gmap str entry) (status_file st) = Raise e ->
  set_pipeline_status w file_id status filename st = (Raise e, st).
Proof.
  intros He. unfold set_pipeline_status, bind, load_pipeline_status. now rewrite He.
Qed.

(** [runs m st O st']: from [st], [m] returns or raises [fst O], ends in
    [st'] whose status file can still be read, and leaves the key events
    [snd O]. *)
Definition runs {A} (m : M A) (st : state) (O : result A * list event) (st' : state) : Prop :=
  m st = (fst O, st') /\ writable st' /\ grows st st' (snd O).

Lemma find_existing_transcript_runs base_name st :
  _find_existing_transcript base_name TRANSCRIPT_DIR st
  = (Ok (Outcome.cached (files st) base_name), st).
Proof. reflexivity. Qed.

Lemma write_text_runs path text st :
  write_text path text st = (Ok tt, set_files (<[path := Readable text]> (files st)) st).
Proof. reflexivity. Qed.

Lemma transcript_step_runs file_id filename file_path timestamp st :
  writable st ->
  exists st',
    runs (transcript_step w file_id filename file_path timestamp) st
         (Outcome.of_transcript_step w (files st) file_id filename file_path) st'.
Proof.
  intros Hw. unfold transcript_step, Outcome.of_transcript_step, runs.
  rewrite (bind_ok _ _ _ _ _ (find_existing_transcript_runs _ st)).
  destruct (Outcome.cached (files st) (splitext_root filename)) as [existing|].
  - unfold read_text, bind, get.
    destruct (files st !! existing) as [[characters|e]|];
      (exists st; split; [reflexivity|]; split; [exact Hw | apply grows_refl]).
  - destruct (set_pipeline_status_runs file_id (lit "transcribing") filename st Hw)
      as (st1 & E1 & S1 & F1 & V1).
    rewrite (bind_ok _ _ _ _ _ E1).
    destruct (transcribe_observes file_path st1) as (st2 & E2 & X2).
    assert (W1 : writable st1) by (eapply stored_status_writable; eassumption).
    assert (G : grows st st2 (EvStatus file_id (lit "transcribing")
                                :: snd (Outcome.transcription w file_path))).
    { apply (grows_trans st st1 st2 [EvStatus file_id (lit "transcribing")]).
      - exact (grows_one _ _ _ V1).
      - apply X2. }
    destruct (fst (Outcome.transcription w file_path)) as [transcript|e] eqn:Hr.
    + rewrite (bind_ok _ _ _ _ _ E2).
      set (st3 := set_files (<[path_join TRANSCRIPT_DIR
                                  (splitext_root filename ++ lit "_" ++ timestamp ++ lit ".txt")
                                := Readable transcript]> (files st2)) st2).
      rewrite (bind_ok _ _ _ _ _ (write_text_runs _ _ st2)). fold st3.
      destruct (upload_observes
                  (path_join TRANSCRIPT_DIR
                     (splitext_root filename ++ lit "_" ++ timestamp ++ lit ".txt"))
                  (lit "documents") st3) as (st4 & E4 & X4).
      rewrite (bind_ok _ _ _ _ _ E4).
      exists st4. split; [reflexivity|]. split.
      * destruct X4 as (S4 & _). destruct X2 as (S2 & _).
        unfold writable. rewrite S4. subst st3. cbn [status_file set_files].
        rewrite S2. exact W1.
      * cbn [snd]. eapply grows_eq.
        -- eapply grows_trans; [exact G|].
           eapply (grows_trans st2 st3 st4 []); [apply grows_same; reflexivity | apply X4].
        -- now rewrite !app_nil_r.
    + rewrite (bind_raise _ _ _ _ _ E2). exists st2. split; [reflexivity|]. split.
      * eapply writable_extends; eassumption.
      * exact G.
Qed.

Lemma last_status_trace_snoc K file_id s :
  last (status_trace (K ++ [EvStatus file_id s])) = Some s.
Proof. rewrite status_trace_app. cbn [status_trace flat_map app]. apply last_snoc. Qed.

Lemma analyze_and_finish_runs file_id filename file_path timestamp transcript st :
  writable st ->
  let O := Outcome.of_analyze_and_finish w file_id filename file_path timestamp transcript in
  exists st',
    runs (analyze_and_finish w file_id filename file_path timestamp transcript) st O st'
    /\ (fst O = Ok tt ->
        stored_status st' file_id = Some (lit "processed")
        /\ last (status_trace (snd O)) = Some (lit "processed")).
Proof.
  intros Hw. cbv zeta. unfold analyze_and_finish, Outcome.of_analyze_and_finish, runs.
  destruct (set_pipeline_status_runs file_id (lit "analyzing") filename st Hw)
    as (st1 & E1 & S1 & F1 & V1).
  rewrite (bind_ok _ _ _ _ _ E1).
  assert (W1 : writable st1) by (eapply stored_status_writable; eassumption).
  destruct (analysis_observes filename transcript timestamp st1) as (st2 & E2 & X2).
  assert (W2 : writable st2) by (eapply writable_extends; eassumption).
  assert (G2 : grows st st2 [EvStatus file_id (lit "analyzing");
                            EvAnalyze filename transcript timestamp]).
  { apply (grows_trans st st1 st2 [EvStatus file_id (lit "analyzing")]
                       [EvAnalyze filename transcript timestamp]).
    - exact (grows_one _ _ _ V1).
    - apply X2. }
  destruct (Outcome.analysis w filename transcript timestamp) as [[]|e].
  - rewrite (bind_ok _ _ _ _ _ E2).
    destruct (archive_observes file_path st2) as (st3 & E3 & X3).
    assert (W3 : writable st3) by (eapply writable_extends; eassumption).
    destruct (rename w file_path (path_join ARCHIVE_DIR (basename file_path))) as [[]|e].
    + rewrite (bind_ok _ _ _ _ _ E3).
      destruct (set_pipeline_status_runs file_id (lit "processed") filename st3 W3)
        as (st4 & E4 & S4 & F4 & V4).
      rewrite (bind_ok _ _ _ _ _ E4).
      destruct (record_history_observes filename (lit "success") [] st4)
        as (st5 & E5 & X5).
      exists st5. cbn [fst snd]. split; [split; [exact E5|split]|].
      * eapply writable_extends; [|exact X5]. eapply stored_status_writable; eassumption.
      * eapply grows_eq.
        -- eapply grows_trans; [exact G2|].
           eapply (grows_trans st2 st3 _ []); [apply X3|].
           eapply (grows_trans st3 st4 st5 _ []); [exact (grows_one _ _ _ V4) | apply X5].
        -- reflexivity.
      * intros _. split.
        -- now rewrite (stored_status_extends _ _ _ file_id X5).
        -- reflexivity.
    + rewrite (bind_raise _ _ _ _ _ E3). exists st3. cbn [fst snd].
      split; [split; [reflexivity|split]|discriminate].
      * exact W3.
      * eapply grows_eq; [eapply grows_trans; [exact G2 | apply X3]|].
        now rewrite app_nil_r.
  - rewrite (bind_raise _ _ _ _ _ E2). exists st2. cbn [fst snd].
    split; [split; [reflexivity|split]|discriminate]; assumption.
Qed.

Lemma emit_runs e st : emit e st = (Ok tt, add_event e st).
Proof. reflexivity. Qed.

Lemma call_runs {A} (r : result A) st : call r st = (r, st).
Proof. reflexivity. Qed.

Lemma stages_runs file_id filename file_path timestamp st :
  writable st ->
  let O := Outcome.of_stages w (files st) file_id filename file_path timestamp in
  exists st',
    runs (stages w file_id filename file_path timestamp) st O st'
    /\ (fst O = Ok tt ->
        exists s, stored_status st' file_id = Some s
                  /\ last (status_trace (snd O)) = Some s).
Proof.
  intros Hw. cbv zeta. unfold stages, Outcome.of_stages, runs.
  destruct (set_pipeline_status_runs file_id (lit "downloading") filename st Hw)
    as (st1 & E1 & S1 & F1 & V1).
  rewrite (bind_ok _ _ _ _ _ E1).
  rewrite (bind_ok _ _ _ _ _ (emit_runs _ st1)).
  set (st2 := add_event (EvDownload file_id file_path) st1).
  assert (W2 : writable st2) by (eapply stored_status_writable; exact S1).
  assert (G2 : grows st st2 [EvStatus file_id (lit "downloading")]).
  { apply (grows_trans st st1 st2 [EvStatus file_id (lit "downloading")] []).
    - exact (grows_one _ _ _ V1).
    - exact (grows_one st1 st2 (EvDownload file_id file_path) eq_refl). }
  destruct (download_recording w file_id file_path) as [[|]|e].
  - (* downloaded *)
    rewrite (bind_ok _ _ _ _ _ (call_runs _ st2)). cbn [negb].
    destruct (set_pipeline_status_runs file_id (lit "uploading_recording") filename st2 W2)
      as (st3 & E3 & S3 & F3 & V3).
    rewrite (bind_ok _ _ _ _ _ E3).
    destruct (upload_observes file_path (lit "recordings") st3) as (st4 & E4 & X4).
    rewrite (bind_ok _ _ _ _ _ E4).
    assert (W4 : writable st4).
    { eapply writable_extends; [|exact X4]. eapply stored_status_writable; exact S3. }
    assert (F4 : files st4 = files st).
    { destruct X4 as (_ & F & _). rewrite F, F3. exact F1. }
    assert (G4 : grows st st4 [EvStatus file_id (lit "downloading");
                              EvStatus file_id (lit "uploading_recording")]).
    { apply (grows_trans st st2 st4 [EvStatus file_id (lit "downloading")]
                         [EvStatus file_id (lit "uploading_recording")]); [exact G2|].
      apply (grows_trans st2 st3 st4 [EvStatus file_id (lit "uploading_recording")] []).
      - exact (grows_one _ _ _ V3).
      - apply X4. }
    destruct (transcript_step_runs file_id filename file_path timestamp st4 W4)
      as (st5 & E5 & W5 & G5).
    rewrite F4 in E5, G5.
    destruct (Outcome.of_transcript_step w (files st) file_id filename file_path)
      as [[transcript|e] K]; cbn [fst snd] in E5, G5.
    + rewrite (bind_ok _ _ _ _ _ E5).
      destruct (analyze_and_finish_runs file_id filename file_path timestamp transcript
                                        st5 W5) as (st6 & (E6 & W6 & G6) & Hdone).
      exists st6. cbn [fst snd]. split; [split; [exact E6|split]|].
      * exact W6.
      * eapply grows_trans; [exact G4|]. eapply grows_trans; eassumption.
      * intros Hok. destruct (Hdone Hok) as (Hst & Hlast).
        exists (lit "processed"). split; [exact Hst|].
        rewrite !status_trace_app. rewrite !last_app, Hlast. reflexivity.
    + rewrite (bind_raise _ _ _ _ _ E5). exists st5. cbn [fst snd].
      split; [split; [reflexivity|split]|discriminate].
      * exact W5.
      * eapply grows_trans; eassumption.
  - (* the download returned False *)
    rewrite (bind_ok _ _ _ _ _ (call_runs _ st2)). cbn [negb].
    destruct (set_pipeline_status_runs file_id (lit "error") filename st2 W2)
      as (st3 & E3 & S3 & F3 & V3).
    rewrite (bind_ok _ _ _ _ _ E3).
    destruct (record_history_observes filename (lit "error") (lit "Download failed") st3)
      as (st4 & E4 & X4).
    exists st4. cbn [fst snd]. split; [split; [exact E4|split]|].
    + eapply writable_extends; [|exact X4]. eapply stored_status_writable; exact S3.
    + apply (grows_trans st st2 st4 [EvStatus file_id (lit "downloading")]
                         [EvStatus file_id (lit "error")]); [exact G2|].
      apply (grows_trans st2 st3 st4 [EvStatus file_id (lit "error")] []).
      * exact (grows_one _ _ _ V3).
      * apply X4.
    + intros _. exists (lit "error"). split; [|reflexivity].
      now rewrite (stored_status_extends _ _ _ file_id X4).
  - (* the download raised *)
    rewrite (bind_raise _ _ _ _ _ (call_runs _ st2)). exists st2. cbn [fst snd].
    split; [split; [reflexivity|split]|discriminate]; assumption.
Qed.

(** The whole of [process_plaud_recording], from a state whose status file
    can be read: it returns normally, its key events are those of
    [Outcome.of_process], and the status file ends on the last status
    written. *)
Lemma process_runs file_id raw_filename st :
  writable st ->
  exists st',
    process_plaud_recording w file_id raw_filename st = (Ok tt, st')
    /\ grows st st' (Outcome.of_process w (files st) file_id raw_filename)
    /\ exists s,
        stored_status st' file_id = Some s
        /\ last (status_trace (Outcome.of_process w (files st) file_id raw_filename))
           = Some s.
Proof.
  intros Hw. unfold process_plaud_recording, Outcome.of_process.
  destruct (stages_runs file_id (local_filename raw_filename)
                        (path_join DOWNLOAD_DIR (local_filename raw_filename))
                        (strftime_now w) st Hw) as (st1 & (E1 & W1 & G1) & Hdone).
  destruct (Outcome.of_stages w (files st) file_id (local_filename raw_filename)
              (path_join DOWNLOAD_DIR (local_filename raw_filename)) (strftime_now w))
    as [[[]|e] K]; cbn [fst snd] in *.
  - rewrite (try_ok _ _ _ _ _ E1). exists st1. auto.
  - rewrite (try_raise _ _ _ _ _ E1).
    destruct (set_pipeline_status_runs file_id (lit "error")
                (local_filename raw_filename) st1 W1) as (st2 & E2 & S2 & F2 & V2).
    rewrite (bind_ok _ _ _ _ _ E2).
    destruct (record_history_observes (local_filename raw_filename) (lit "error")
                                      (exn_message e) st2) as (st3 & E3 & X3).
    exists st3. split; [exact E3|]. split.
    + eapply grows_trans; [exact G1|].
      apply (grows_trans st1 st2 st3 [EvStatus file_id (lit "error")] []).
      * exact (grows_one _ _ _ V2).
      * apply X3.
    + exists (lit "error"). split.
      * now rewrite (stored_status_extends _ _ _ file_id X3).
      * apply last_status_trace_snoc.
Qed.

(** From a state whose status file cannot be read, nothing is written. *)
Lemma process_unwritable file_id raw_filename st e :
  load_pipeline_status_from (∅ : gmap str entry) (status_file st) = Raise e ->
  process_plaud_recording w file_id raw_filename st = (Raise e, st).
Proof.
  intros He. unfold process_plaud_recording, stages.
  rewrite (try_raise _ _ st e st).
  - now rewrite (bind_raise _ _ _ _ _ (set_pipeline_status_raises _ _ _ _ _ He)).
  - now rewrite (bind_raise _ _ _ _ _ (set_pipeline_status_raises _ _ _ _ _ He)).
Qed.

End StepFacts.

(** ** The order of the statuses *)

Section OrderFacts.
Import Pipeline.

(** Every status of the list may be written after the ones before it. *)
Fixpoint advancingb (l : list str) : bool :=
  match l with
  | [] => true
  | s :: rest => forallb (advancesb s) rest && advancingb rest
  end.

Lemma advancingb_sound l : advancingb l = true -> StronglySorted advances l.
Proof.
  induction l as [|s l IH]; cbn [advancingb]; intros H; [constructor|].
  apply andb_true_iff in H as [Hs Hl]. constructor; [auto|].
  apply Forall_forall. intros t Ht. apply Is_true_true.
  rewrite forallb_forall in Hs. apply Hs. now apply list_elem_of_In.
Qed.

Lemma transcription_writes_no_status w file_path :
  status_trace (snd (Outcome.transcription w file_path)) = [].
Proof.
  unfold Outcome.transcription. destruct (getsize w file_path) as [n|e]; [|reflexivity].
  destruct (MAX_AUDIO_FILE_SIZE <? n); [reflexivity|].
  destruct (transcribe w file_path); reflexivity.
Qed.

(** The statuses of a run are one of seven sequences. *)
Lemma of_process_statuses w all_files file_id raw_filename :
  status_trace (Outcome.of_process w all_files file_id raw_filename)
  ∈ [ [lit "downloading"; lit "error"];
      [lit "downloading"; lit "uploading_recording"; lit "error"];
      [lit "downloading"; lit "uploading_recording"; lit "analyzing"; lit "error"];
      [lit "downloading"; lit "uploading_recording"; lit "analyzing"; lit "processed"];
      [lit "downloading"; lit "uploading_recording"; lit "transcribing"; lit "error"];
      [lit "downloading"; lit "uploading_recording"; lit "transcribing";
       lit "analyzing"; lit "error"];
      [lit "downloading"; lit "uploading_recording"; lit "transcribing";
       lit "analyzing"; lit "processed"] ].
Proof.
  unfold Outcome.of_process, Outcome.of_stages, Outcome.of_transcript_step,
    Outcome.of_analyze_and_finish.
  set (filename := local_filename raw_filename).
  set (file_path := path_join DOWNLOAD_DIR filename).
  pose proof (transcription_writes_no_status w file_path) as Hquiet.
  destruct (download_recording w file_id file_path) as [[|]|e]; cbn [fst snd].
  - destruct (Outcome.cached all_files (splitext_root filename)) as [existing|].
    + destruct (all_files !! existing) as [[characters|e]|]; cbn [fst snd].
      * destruct (Outcome.analysis w filename (universal_newlines characters)
                                   (strftime_now w)) as [[]|e];
          [destruct (rename w file_path _) as [[]|e]|]; cbn [fst snd app status_trace flat_map].
        -- do 3 apply list_elem_of_further. apply list_elem_of_here.
        -- do 2 apply list_elem_of_further. apply list_elem_of_here.
        -- do 2 apply list_elem_of_further. apply list_elem_of_here.
      * cbn [app status_trace flat_map].
        do 1 apply list_elem_of_further. apply list_elem_of_here.
      * cbn [app status_trace flat_map].
        do 1 apply list_elem_of_further. apply list_elem_of_here.
    + destruct (Outcome.transcription w file_path) as [[transcript|e] K]; cbn [fst snd] in *.
      * destruct (Outcome.analysis w filename transcript (strftime_now w)) as [[]|e];
          [destruct (rename w file_path _) as [[]|e]|]; cbn [fst snd];
          rewrite ?status_trace_app; cbn [app status_trace flat_map];
          fold (status_trace K); rewrite Hquiet; cbn [app].
        -- do 6 apply list_elem_of_further. apply list_elem_of_here.
        -- do 5 apply list_elem_of_further. apply list_elem_of_here.
        -- do 5 apply list_elem_of_further. apply list_elem_of_here.
      * rewrite ?status_trace_app; cbn [app status_trace flat_map];
          fold (status_trace K); rewrite Hquiet; cbn [app].
        do 4 apply list_elem_of_further. apply list_elem_of_here.
  - apply list_elem_of_here.
  - apply list_elem_of_here.
Qed.

Lemma of_process_advancing w all_files file_id raw_filename :
  StronglySorted advances
    (lit "queued" :: status_trace (Outcome.of_process w all_files file_id raw_filename)).
Proof.
  pose proof (of_process_statuses w all_files file_id raw_filename) as H.
  repeat (apply elem_of_cons in H as [->|H];
          [apply advancingb_sound; vm_compute; reflexivity|]).
  inversion H.
Qed.
End OrderFacts.

Section TriggerFacts.
Import Pipeline App.
Variable w : world.

Lemma new_events_same st st' : events st' = events st -> new_events st st' = [].
Proof. intros H. unfold new_events. rewrite H. apply drop_all. Qed.

Lemma status_trace_new_events st st' K :
  grows st st' K -> status_trace (new_events st st') = status_trace K.
Proof. intros H. now rewrite <- (grows_new_events _ _ _ H), status_trace_key. Qed.

(** What a trigger does: it is turned down and changes nothing, or it
    writes [queued] and starts the thread. *)
Lemma process_recording_cases file_id st :
  (exists r, process_recording w file_id st = (r, st)
             /\ match r with Ok a => thread_started a = None | Raise _ => True end)
  \/ (exists raw_filename st1,
        process_recording w file_id st
        = (Ok (Answer 200 (lit "queued") (Some raw_filename)), st1)
        /\ stored_status st1 file_id = Some (lit "queued")
        /\ files st1 = files st
        /\ lock_held st1 = lock_held st
        /\ events st1 = events st ++ [EvStatus file_id (lit "queued")]).
Proof.
  unfold process_recording.
  destruct (load_pipeline_status_from ∅ (status_file st)) as [m|e] eqn:Hload.
  2:{ left. exists (Raise e). split; [|exact I].
      apply bind_raise. unfold load_pipeline_status. now rewrite Hload. }
  assert (El : load_pipeline_status st = (Ok m, st))
    by (unfold load_pipeline_status; now rewrite Hload).
  rewrite (bind_ok _ _ _ _ _ El).
  destruct (negb (bool_decide (current_status m file_id ∈ _)));
    [left; eexists; split; [reflexivity | reflexivity]|].
  assert (Eg : get lock_held st = (Ok (lock_held st), st)) by reflexivity.
  rewrite (bind_ok _ _ _ _ _ Eg).
  destruct (lock_held st) eqn:Hlock; [left; eexists; split; reflexivity|].
  destruct (plaud_token (load_config w)) as [|c token];
    [left; eexists; split; reflexivity|].
  destruct (list_recordings w) as [recordings|e].
  2:{ left. exists (Raise e). split; [|exact I]. now apply bind_raise. }
  rewrite (bind_ok _ _ _ _ _ (call_runs (Ok recordings) st)).
  destruct (set_pipeline_status_runs w file_id (lit "queued")
              (resolve_filename recordings file_id (file_id ++ lit ".mp3")) st
              (ex_intro _ m Hload)) as (st1 & E1 & S1 & F1 & V1).
  right. exists (resolve_filename recordings file_id (file_id ++ lit ".mp3")), st1.
  rewrite (bind_ok _ _ _ _ _ E1). split; [reflexivity|]. repeat split; auto.
  (* the write leaves the lock as it was *)
  revert E1. unfold set_pipeline_status, bind, load_pipeline_status.
  rewrite Hload. intros [= <-]. exact Hlock.
Qed.

Lemma run_thread file_id raw_filename st :
  writable st ->
  exists st',
    _run w file_id raw_filename st = (Ok tt, st')
    /\ grows st st' (Outcome.of_process w (files st) file_id raw_filename)
    /\ lock_held st' = false
    /\ exists s,
        stored_status st' file_id = Some s
        /\ last (status_trace (Outcome.of_process w (files st) file_id raw_filename))
           = Some s.
Proof.
  intros Hw. unfold _run.
  destruct (process_runs w file_id raw_filename (set_lock true st) Hw)
    as (st2 & E2 & G2 & s & S2 & L2).
  rewrite E2. exists (set_lock false st2). split; [reflexivity|].
  split; [exact G2|]. split; [reflexivity|]. exists s. split; [exact S2 | exact L2].
Qed.

(** C2. The statuses written by one run of [process_plaud_recording], and
    by a trigger together with the run it starts, only move forward: each
    status is written only after statuses that are active (neither
    [processed] nor [error]), and it is either [error] or a later stage of
    the chain from [queued] to [processed] than each of them. *)
Theorem statuses_only_move_forward (file_id raw_filename : str) (st : state) :
  StronglySorted advances
    (status_trace
       (new_events st (snd (process_plaud_recording w file_id raw_filename st))))
  /\ StronglySorted advances
       (status_trace (new_events st (snd (trigger_and_run w file_id st)))).
Proof.
  split.
  - destruct (load_pipeline_status_from (∅ : gmap str entry) (status_file st))
      as [m|e] eqn:Hload.
    + destruct (process_runs w file_id raw_filename st (ex_intro _ m Hload))
        as (st' & E & G & _).
      rewrite E. cbn [snd]. rewrite (status_trace_new_events _ _ _ G).
      pose proof (of_process_advancing w (files st) file_id raw_filename) as H.
      now apply StronglySorted_inv in H as [H _].
    + rewrite (process_unwritable w file_id raw_filename st e Hload). cbn [snd].
      rewrite new_events_same by reflexivity. constructor.
  - unfold trigger_and_run.
    destruct (process_recording_cases file_id st)
      as [(r & E & Hr)|(raw & st1 & E & S1 & F1 & K1 & V1)].
    + destruct r as [a|e].
      * rewrite (bind_ok _ _ _ _ _ E), Hr. cbn [ret snd].
        rewrite new_events_same by reflexivity. constructor.
      * rewrite (bind_raise _ _ _ _ _ E). cbn [snd].
        rewrite new_events_same by reflexivity. constructor.
    + rewrite (bind_ok _ _ _ _ _ E). cbn [thread_started].
      destruct (run_thread file_id raw st1 (stored_status_writable _ _ _ S1))
        as (st2 & E2 & G2 & _).
      rewrite (bind_ok _ _ _ _ _ (try_ok _ _ _ _ _ E2)). cbn [ret snd].
      rewrite (status_trace_new_events st st2
                 ([EvStatus file_id (lit "queued")]
                    ++ Outcome.of_process w (files st1) file_id raw)).
      * apply of_process_advancing.
      * eapply grows_trans; [exact (grows_one _ _ _ V1) | exact G2].
Qed.

End TriggerFacts.

(** ** The transcript cache *)

Section CacheFacts.
Import Pipeline.
Variable w : world.

Lemma cached_chooses_a_transcript
      (all_files : gmap str text_file) base_name path (content : text_file) :
  all_files !! path = Some content ->
  is_transcript_of base_name TRANSCRIPT_DIR path = true ->
  exists chosen found,
    Outcome.cached all_files base_name = Some chosen
    /\ is_transcript_of base_name TRANSCRIPT_DIR chosen = true
    /\ all_files !! chosen = Some found.
Proof.
  intros Hl Hm. unfold Outcome.cached.
  set (l := List.filter _ _).
  assert (Hin : path ∈ l).
  { apply list_elem_of_In, filter_In. split; [|exact Hm].
    apply in_map_iff. exists (path, content). split; [reflexivity|].
    apply list_elem_of_In, elem_of_map_to_list. exact Hl. }
  assert (Hperm : sorted l ≡ₚ l) by apply merge_sort_Permutation.
  destruct (last (sorted l)) as [chosen|] eqn:Hlast.
  - apply last_Some_elem_of in Hlast. rewrite Hperm in Hlast.
    apply list_elem_of_In, filter_In in Hlast as [Hi Hc].
    apply in_map_iff in Hi as ([p t] & <- & Hpt).
    exists p, t. repeat split; [exact Hc|].
    apply elem_of_map_to_list, list_elem_of_In. exact Hpt.
  - apply last_None in Hlast. rewrite Hlast in Hperm.
    symmetry in Hperm. apply Permutation_nil_r in Hperm.
    rewrite Hperm in Hin. inversion Hin.
Qed.

Lemma elem_of_key (e : event) (L : list event) :
  is_key e = true -> e ∈ L -> e ∈ key L.
Proof.
  intros Hk Hin. apply list_elem_of_In, filter_In. split; [|exact Hk].
  now apply list_elem_of_In.
Qed.

Lemma elem_of_status_trace s (L : list event) :
  s ∈ status_trace L -> exists file_id, EvStatus file_id s ∈ L.
Proof.
  induction L as [|e L IH]; cbn [status_trace flat_map]; [inversion 1|].
  intros H. apply elem_of_app in H as [H|H].
  - destruct e; try (inversion H; fail).
    apply list_elem_of_singleton in H as ->. eexists. apply list_elem_of_here.
  - destruct (IH H) as [id Hid]. exists id. now apply list_elem_of_further.
Qed.

Lemma elem_of_key_inv (e : event) (L : list event) : e ∈ key L -> e ∈ L.
Proof. intros H. apply list_elem_of_In, filter_In in H as [H _]. now apply list_elem_of_In. Qed.

(** Text without a carriage return is read as it is. *)
Lemma universal_newlines_fixed (s : str) :
  13 ∉ s -> universal_newlines s = s.
Proof.
  induction s as [|c s IH]; intros Hs; [reflexivity|].
  apply not_elem_of_cons in Hs as [Hc Hs].
  assert (Hstep : universal_newlines (c :: s) = c :: universal_newlines s).
  { cbn [universal_newlines].
    destruct c as [|p]; [reflexivity|].
    do 4 (destruct p as [p|p|]; try reflexivity). now destruct Hc. }
  rewrite Hstep. now rewrite (IH Hs).
Qed.

(** What the analysis is given when the chosen file is read: its text with
    the line endings translated, or nothing when reading it raises. *)
Definition text_read (found : text_file) : option str :=
  match found with
  | Readable characters => Some (universal_newlines characters)
  | Broken _ => None
  end.

(** What the cache promises of one event: it is no call of the engine, no
    write of [transcribing], and an analysis only of the text read. *)
Definition reuses (text : option str) (e : event) : Prop :=
  match e with
  | EvTranscribe _ => False
  | EvStatus _ s => s <> lit "transcribing"
  | EvAnalyze _ t _ => text = Some t
  | _ => True
  end.

Lemma of_process_reuses
      (all_files : gmap str text_file) file_id raw_filename chosen found :
  Outcome.cached all_files (splitext_root (local_filename raw_filename)) = Some chosen ->
  all_files !! chosen = Some found ->
  Forall (reuses (text_read found)) (Outcome.of_process w all_files file_id raw_filename)
  /\ (download_recording w file_id (path_join DOWNLOAD_DIR (local_filename raw_filename))
      = Ok true ->
      match found with
      | Readable characters =>
        EvAnalyze (local_filename raw_filename) (universal_newlines characters)
                  (strftime_now w)
        ∈ Outcome.of_process w all_files file_id raw_filename
      | Broken _ =>
        last (status_trace (Outcome.of_process w all_files file_id raw_filename))
        = Some (lit "error")
      end).
Proof.
  intros Hc Ht.
  unfold Outcome.of_process, Outcome.of_stages, Outcome.of_transcript_step,
    Outcome.of_analyze_and_finish.
  rewrite Hc, Ht.
  destruct found as [characters|broken]; cbn [text_read].
  - destruct (download_recording w file_id _) as [[|]|e]; cbn [fst snd];
      [destruct (Outcome.analysis w _ (universal_newlines characters) _) as [[]|e];
       [destruct (rename w _ _) as [[]|e]|]|..];
      cbn [fst snd app]; (split; [|try discriminate]).
    all: try (repeat constructor; cbn [reuses]; try reflexivity;
              let H := fresh in intros H; vm_compute in H; discriminate H).
    all: intros _; do 3 apply list_elem_of_further; apply list_elem_of_here.
  - destruct (download_recording w file_id _) as [[|]|e]; cbn [fst snd app];
      (split; [|try discriminate]).
    all: try (repeat constructor; cbn [reuses]; try reflexivity;
              let H := fresh in intros H; vm_compute in H; discriminate H).
Qed.

(** C4 (as amended). When a transcript file of the recording's base name is
    on disk, a run of [process_plaud_recording] never calls the engine and
    never writes [transcribing], and the file [_find_existing_transcript]
    picks is such a transcript.  When that file can be read, every analysis
    of the run is given its text as text mode reads it, the line endings
    [\r\n] and [\r] turned into [\n], which is the content of the file
    when it holds no carriage return; a run that can write its status and
    whose download succeeds does reach the analysis with that text.  When
    reading the file raises, the run makes no analysis, and a run that can
    write its status and whose download succeeds ends on [error]. *)
Theorem cached_transcript_is_reused
        (file_id raw_filename : str) (st : state) (path : str) (content : text_file) :
  let filename := local_filename raw_filename in
  let base_name := splitext_root filename in
  files st !! path = Some content ->
  is_transcript_of base_name TRANSCRIPT_DIR path = true ->
  let out := process_plaud_recording w file_id raw_filename st in
  let new := new_events st (snd out) in
  (forall p, EvTranscribe p ∉ new)
  /\ (lit "transcribing" ∉ status_trace new)
  /\ exists chosen found,
      fst (_find_existing_transcript base_name TRANSCRIPT_DIR st) = Ok (Some chosen)
      /\ is_transcript_of base_name TRANSCRIPT_DIR chosen = true
      /\ files st !! chosen = Some found
      /\ match found with
         | Readable characters =>
           (forall f t ts, EvAnalyze f t ts ∈ new -> t = universal_newlines characters)
           /\ (13 ∉ characters -> universal_newlines characters = characters)
           /\ (writable st ->
               download_recording w file_id (path_join DOWNLOAD_DIR filename) = Ok true ->
               EvAnalyze filename (universal_newlines characters) (strftime_now w) ∈ new)
         | Broken e =>
           (forall f t ts, EvAnalyze f t ts ∉ new)
           /\ (writable st ->
               download_recording w file_id (path_join DOWNLOAD_DIR filename) = Ok true ->
               fst out = Ok tt
               /\ stored_status (snd out) file_id = Some (lit "error"))
         end.
Proof.
  intros filename base_name Hfile Hmatch out new.
  destruct (cached_chooses_a_transcript (files st) base_name path content Hfile Hmatch)
    as (chosen & found & Hc & Hm & Ht).
  destruct (of_process_reuses (files st) file_id raw_filename chosen found Hc Ht)
    as (Hall & Hlive).
  rewrite Forall_forall in Hall.
  assert (Hnew : (new = [] /\ not (writable st))
                 \/ (key new = Outcome.of_process w (files st) file_id raw_filename)).
  { destruct (load_pipeline_status_from (∅ : gmap str entry) (status_file st))
      as [m|e] eqn:Hload.
    - right. destruct (process_runs w file_id raw_filename st (ex_intro _ m Hload))
        as (st' & E & G & _).
      subst new out. rewrite E. cbn [snd]. exact (grows_new_events _ _ _ G).
    - left. subst new out. rewrite (process_unwritable w file_id raw_filename st e Hload).
      split; [apply new_events_same; reflexivity|].
      intros [m Hm']. congruence. }
  assert (Hkey : forall e, is_key e = true -> e ∈ new -> reuses (text_read found) e).
  { intros e Hk Hin. destruct Hnew as [[Hnil _]|Hkeys].
    - rewrite Hnil in Hin. inversion Hin.
    - apply Hall. rewrite <- Hkeys. now apply elem_of_key. }
  split; [|split].
  - intros p Hin. exact (Hkey (EvTranscribe p) eq_refl Hin).
  - intros Hin. apply elem_of_status_trace in Hin as [id Hin].
    exact (Hkey (EvStatus id (lit "transcribing")) eq_refl Hin eq_refl).
  - exists chosen, found.
    split; [rewrite find_existing_transcript_runs; cbn [fst]; now rewrite Hc|].
    split; [exact Hm|].
    split; [exact Ht|].
    destruct found as [characters|broken]; cbn [text_read] in Hkey.
    + split; [|split].
      * intros f t ts Hin.
        pose proof (Hkey (EvAnalyze f t ts) eq_refl Hin) as H. cbn [reuses] in H.
        now injection H as <-.
      * apply universal_newlines_fixed.
      * intros Hw Hd. destruct Hnew as [[_ Hno]|Hkeys]; [contradiction|].
        apply elem_of_key_inv. rewrite Hkeys. exact (Hlive Hd).
    + split.
      * intros f t ts Hin.
        pose proof (Hkey (EvAnalyze f t ts) eq_refl Hin) as H. cbn [reuses] in H.
        discriminate H.
      * intros Hw Hd.
        destruct (process_runs w file_id raw_filename st Hw)
          as (st' & E & _ & s & Hs & Hlast).
        subst out. rewrite E. cbn [fst snd]. split; [reflexivity|].
        rewrite (Hlive Hd) in Hlast. congruence.
Qed.

End CacheFacts.

(** A second run of [Team sync], whose transcript of an earlier run is on
    disk. *)
Lemma cached_transcript_is_reused_witness :
  let w := Sample.world_with (Ok tt) Sample.creates_document in
  let new := new_events Sample.with_cached_transcript
               (snd (Pipeline.process_plaud_recording w (lit "rec1") (lit "Team sync")
                                                      Sample.with_cached_transcript)) in
  (forall p, EvTranscribe p ∉ new)
  /\ EvAnalyze (lit "Team sync.mp3") (lit "[00:00] earlier text") (lit "20240501_1030") ∈ new.
Proof.
  cbv zeta.
  destruct (cached_transcript_is_reused
              (Sample.world_with (Ok tt) Sample.creates_document)
              (lit "rec1") (lit "Team sync") Sample.with_cached_transcript
              Sample.cached_path (Readable (lit "[00:00] earlier text")))
    as (Hengine & _ & chosen & found & Hfind & _ & Hfound & Hrest).
  - vm_compute. reflexivity.
  - vm_compute. reflexivity.
  - split; [exact Hengine|].
    assert (Hc : chosen = Sample.cached_path)
      by (vm_compute in Hfind; now injection Hfind as <-).
    subst chosen.
    assert (Ht : found = Readable (lit "[00:00] earlier text"))
      by (vm_compute in Hfound; now injection Hfound as <-).
    subst found. destruct Hrest as (_ & _ & Hlive).
    apply Hlive.
    + exists ∅. reflexivity.
    + reflexivity.
Defined.

(** C4, as stated, fails: the cached file holds a carriage return and a line
    feed between its two lines; the analysis is given the text with one
    line feed there, which is not the content of the file. *)
Lemma cached_transcript_is_translated :
  let w := Sample.world_with (Ok tt) Sample.creates_document in
  let new := new_events Sample.with_dos_transcript
               (snd (Pipeline.process_plaud_recording w (lit "rec1") (lit "Team sync")
                                                      Sample.with_dos_transcript)) in
  files Sample.with_dos_transcript !! Sample.cached_path = Some (Readable Sample.dos_text)
  /\ EvAnalyze (lit "Team sync.mp3")
               (lit "[00:00] earlier" ++ [10] ++ lit "[00:05] text") (lit "20240501_1030")
     ∈ new
  /\ lit "[00:00] earlier" ++ [10] ++ lit "[00:05] text" <> Sample.dos_text.
Proof.
  cbv zeta. split; [vm_compute; reflexivity|]. split.
  - vm_compute.
    repeat first [apply list_elem_of_here | apply list_elem_of_further].
  - vm_compute. discriminate.
Qed.

(** ** The cloud mirror and the analysis *)

Section OutcomeFacts.
Import Pipeline.
Variable w : world.

(** What the hypotheses of the next two theorems give: the run reaches the
    analysis with the transcript. *)
Lemma of_stages_reaches_analysis file_id filename file_path timestamp transcript st :
  writable st ->
  download_recording w file_id file_path = Ok true ->
  (forall st1, writable st1 -> files st1 = files st ->
     fst (transcript_step w file_id filename file_path timestamp st1) = Ok transcript) ->
  exists K,
    Outcome.of_stages w (files st) file_id filename file_path timestamp
    = (fst (Outcome.of_analyze_and_finish w file_id filename file_path timestamp transcript),
       K ++ snd (Outcome.of_analyze_and_finish w file_id filename file_path timestamp
                                               transcript)).
Proof.
  intros Hw Hd Ht. unfold Outcome.of_stages. rewrite Hd.
  destruct (transcript_step_runs w file_id filename file_path timestamp st Hw)
    as (st' & E & _).
  specialize (Ht st Hw eq_refl). rewrite E in Ht. cbn [fst] in Ht.
  destruct (Outcome.of_transcript_step w (files st) file_id filename file_path)
    as [r K]. cbn [fst] in Ht. subst r.
  eexists. rewrite app_assoc. reflexivity.
Qed.

(** C5. In a run whose download, transcript, analysis and archive succeed,
    the upload of the recording to the cloud drive returns normally
    whatever happens inside it, and the run ends on [processed]: nothing is
    assumed of the drive, so the same holds when the upload fails and when
    it succeeds. *)
Theorem upload_failure_does_not_fail_the_run
        (file_id raw_filename transcript : str) (st : state) :
  let filename := local_filename raw_filename in
  let file_path := path_join DOWNLOAD_DIR filename in
  let timestamp := strftime_now w in
  writable st ->
  download_recording w file_id file_path = Ok true ->
  (forall st1, writable st1 -> files st1 = files st ->
     fst (transcript_step w file_id filename file_path timestamp st1) = Ok transcript) ->
  (forall st1, fst (create_document_via_claude w filename transcript timestamp st1) = Ok tt) ->
  (forall st1, fst (archive_audio w file_path st1) = Ok tt) ->
  let out := process_plaud_recording w file_id raw_filename st in
  (forall st1, fst (_upload_to_gdrive w file_path (lit "recordings") st1) = Ok tt)
  /\ fst out = Ok tt
  /\ stored_status (snd out) file_id = Some (lit "processed")
  /\ last (status_trace (new_events st (snd out))) = Some (lit "processed").
Proof.
  intros filename file_path timestamp Hw Hd Ht Ha Hr out.
  split.
  { intros st1. destruct (upload_observes w file_path (lit "recordings") st1)
      as (st2 & E & _). now rewrite E. }
  destruct (process_runs w file_id raw_filename st Hw) as (st' & E & G & s & Hs & Hlast).
  subst out. rewrite E. cbn [fst snd]. split; [reflexivity|].
  rewrite (status_trace_new_events _ _ _ G).
  assert (Hp : last (status_trace (Outcome.of_process w (files st) file_id raw_filename))
               = Some (lit "processed")).
  { unfold Outcome.of_process. fold filename. fold file_path. fold timestamp.
    destruct (of_stages_reaches_analysis file_id filename file_path timestamp transcript
                                         st Hw Hd Ht) as [K ->].
    unfold Outcome.of_analyze_and_finish.
    assert (Hok : Outcome.analysis w filename transcript timestamp = Ok tt)
      by apply Ha.
    rewrite Hok.
    destruct (archive_observes w file_path blank) as (st2 & E2 & _).
    specialize (Hr blank). rewrite E2 in Hr. cbn [fst] in Hr. rewrite Hr.
    cbn [fst snd]. rewrite !app_assoc. apply last_status_trace_snoc. }
  split; [|exact Hp]. congruence.
Qed.

Lemma abnormal_stop_raises timestamp script :
  stops_abnormally script ->
  forall messages st, exists e, fst (tool_use_loop w timestamp script messages st) = Raise e.
Proof.
  induction 1 as [r rest Hend Htool|r rest Htool Hrest IH]; intros messages st;
    cbn [tool_use_loop]; rewrite (bind_ok _ _ _ _ _ (emit_runs _ st)).
  - rewrite (bool_decide_eq_false_2 _ Hend), (bool_decide_eq_false_2 _ Htool).
    eexists. reflexivity.
  - rewrite Htool. rewrite bool_decide_eq_false_2 by (vm_compute; discriminate).
    rewrite bool_decide_eq_true_2 by reflexivity.
    destruct (handle_blocks w timestamp (content r) (add_event (EvRequest messages) st))
      as [[results|e] st1] eqn:Hb.
    + rewrite (bind_ok _ _ _ _ _ Hb). apply IH.
    + rewrite (bind_raise _ _ _ _ _ Hb). eexists. reflexivity.
Qed.

Lemma abnormal_stop_fails_analysis filename transcript timestamp :
  stops_abnormally (messages_create w) ->
  forall st, exists e,
    fst (create_document_via_claude w filename transcript timestamp st) = Raise e.
Proof.
  intros Hstop st. unfold create_document_via_claude.
  rewrite (bind_ok _ _ _ _ _ (emit_runs _ st)).
  destruct (anthropic_api_key (load_config w)); [eexists; reflexivity|].
  now apply abnormal_stop_raises.
Qed.

Lemma failed_run_is_not_processed (l : list str) :
  l ∈ [ [lit "downloading"; lit "error"];
        [lit "downloading"; lit "uploading_recording"; lit "error"];
        [lit "downloading"; lit "uploading_recording"; lit "analyzing"; lit "error"];
        [lit "downloading"; lit "uploading_recording"; lit "analyzing"; lit "processed"];
        [lit "downloading"; lit "uploading_recording"; lit "transcribing"; lit "error"];
        [lit "downloading"; lit "uploading_recording"; lit "transcribing";
         lit "analyzing"; lit "error"];
        [lit "downloading"; lit "uploading_recording"; lit "transcribing";
         lit "analyzing"; lit "processed"] ] ->
  last l = Some (lit "error") ->
  lit "processed" ∉ l.
Proof.
  intros Hl Hlast Hin.
  repeat (apply elem_of_cons in Hl as [->|Hl];
          [first [ vm_compute in Hlast; discriminate Hlast
                 | repeat (apply elem_of_cons in Hin as [Hin|Hin];
                           [vm_compute in Hin; discriminate Hin|]);
                   inversion Hin ]|]).
  inversion Hl.
Qed.

(** The failure the loop does detect.  A run that reaches the analysis and
    whose conversation ends on a stop signal other than the completion
    signal and the tool-use signal: [create_document_via_claude] raises, and
    the run ends on [error], without ever writing [processed]. *)
Theorem abnormal_stop_ends_in_error
        (file_id raw_filename transcript : str) (st : state) :
  let filename := local_filename raw_filename in
  let file_path := path_join DOWNLOAD_DIR filename in
  let timestamp := strftime_now w in
  writable st ->
  download_recording w file_id file_path = Ok true ->
  (forall st1, writable st1 -> files st1 = files st ->
     fst (transcript_step w file_id filename file_path timestamp st1) = Ok transcript) ->
  stops_abnormally (messages_create w) ->
  let out := process_plaud_recording w file_id raw_filename st in
  (forall st1, exists e,
      fst (create_document_via_claude w filename transcript timestamp st1) = Raise e)
  /\ stored_status (snd out) file_id = Some (lit "error")
  /\ last (status_trace (new_events st (snd out))) = Some (lit "error")
  /\ (lit "processed" ∉ status_trace (new_events st (snd out))).
Proof.
  intros filename file_path timestamp Hw Hd Ht Hstop out.
  pose proof (abnormal_stop_fails_analysis filename transcript timestamp Hstop) as Hfail.
  split; [exact Hfail|].
  destruct (process_runs w file_id raw_filename st Hw) as (st' & E & G & s & Hs & Hlast).
  subst out. rewrite E. cbn [fst snd].
  rewrite (status_trace_new_events _ _ _ G).
  assert (Hp : last (status_trace (Outcome.of_process w (files st) file_id raw_filename))
               = Some (lit "error")).
  { unfold Outcome.of_process. fold filename. fold file_path. fold timestamp.
    destruct (of_stages_reaches_analysis file_id filename file_path timestamp transcript
                                         st Hw Hd Ht) as [K ->].
    unfold Outcome.of_analyze_and_finish.
    destruct (Hfail blank) as [e He]. fold (Outcome.analysis w filename transcript timestamp) in He.
    rewrite He. cbn [fst snd]. apply last_status_trace_snoc. }
  split; [congruence|]. split; [exact Hp|].
  apply failed_run_is_not_processed; [apply of_process_statuses | exact Hp].
Qed.

End OutcomeFacts.

(** The upload of the recording fails with a connection error; the run
    still ends on [processed]. *)
Lemma upload_failure_does_not_fail_the_run_witness :
  let w := Sample.world_with Sample.upload_fails Sample.creates_document in
  upload_file w (lit "/watch/input/Team sync.mp3") (lit "recordings-folder")
  = Raise (Exn OSError (lit "connection reset"))
  /\ stored_status
       (snd (Pipeline.process_plaud_recording w (lit "rec1") (lit "Team sync") Sample.fresh))
       (lit "rec1")
     = Some (lit "processed").
Proof.
  cbv zeta. split; [reflexivity|].
  refine (proj1 (proj2 (proj2
    (upload_failure_does_not_fail_the_run
       (Sample.world_with Sample.upload_fails Sample.creates_document)
       (lit "rec1") (lit "Team sync") (lit "[01:15] hello there") Sample.fresh
       _ _ _ _ _)))).
  - exists ∅. reflexivity.
  - reflexivity.
  - intros st1 Hw Hfiles.
    destruct (transcript_step_runs
                (Sample.world_with Sample.upload_fails Sample.creates_document)
                (lit "rec1") (Pipeline.local_filename (lit "Team sync"))
                (path_join Pipeline.DOWNLOAD_DIR (Pipeline.local_filename (lit "Team sync")))
                (lit "20240501_1030") st1 Hw) as (st2 & E & _).
    cbv zeta. change (strftime_now _) with (lit "20240501_1030").
    rewrite E, Hfiles. vm_compute. reflexivity.
  - intros st1.
    destruct (analysis_observes
                (Sample.world_with Sample.upload_fails Sample.creates_document)
                (Pipeline.local_filename (lit "Team sync")) (lit "[01:15] hello there")
                (lit "20240501_1030") st1) as (st2 & E & _).
    cbv zeta. change (strftime_now _) with (lit "20240501_1030").
    rewrite E. vm_compute. reflexivity.
  - intros st1.
    destruct (archive_observes
                (Sample.world_with Sample.upload_fails Sample.creates_document)
                (path_join Pipeline.DOWNLOAD_DIR (Pipeline.local_filename (lit "Team sync")))
                st1) as (st2 & E & _).
    cbv zeta. rewrite E. reflexivity.
Defined.

(** The LLM runs out of tokens; the run ends on [error]. *)
Lemma abnormal_stop_ends_in_error_witness :
  stored_status
    (snd (Pipeline.process_plaud_recording
            (Sample.world_with (Ok tt) Sample.runs_out)
            (lit "rec1") (lit "Team sync") Sample.fresh))
    (lit "rec1")
  = Some (lit "error").
Proof.
  refine (proj1 (proj2
    (abnormal_stop_ends_in_error
       (Sample.world_with (Ok tt) Sample.runs_out)
       (lit "rec1") (lit "Team sync") (lit "[01:15] hello there") Sample.fresh
       _ _ _ _))).
  - exists ∅. reflexivity.
  - reflexivity.
  - intros st1 Hw Hfiles.
    destruct (transcript_step_runs
                (Sample.world_with (Ok tt) Sample.runs_out)
                (lit "rec1") (Pipeline.local_filename (lit "Team sync"))
                (path_join Pipeline.DOWNLOAD_DIR (Pipeline.local_filename (lit "Team sync")))
                (lit "20240501_1030") st1 Hw) as (st2 & E & _).
    cbv zeta. change (strftime_now _) with (lit "20240501_1030").
    rewrite E, Hfiles. vm_compute. reflexivity.
  - apply stops_now; vm_compute; discriminate.
Defined.

(** The LLM signals completion at once: no document is created,
    [create_document_via_claude] returns normally and the run ends on
    [processed]. *)
Lemma declined_conversation_is_processed :
  let w := Sample.world_with (Ok tt) Sample.declines in
  let out := Pipeline.process_plaud_recording w (lit "rec1") (lit "Team sync")
                                              Sample.fresh in
  fst (Pipeline.create_document_via_claude
         w (lit "Team sync.mp3") (lit "[01:15] hello there") (lit "20240501_1030")
         Sample.fresh) = Ok tt
  /\ EvAnalyze (lit "Team sync.mp3") (lit "[01:15] hello there") (lit "20240501_1030")
     ∈ events (snd out)
  /\ Forall (fun e => match e with EvDocument _ => False | _ => True end)
            (events (snd out))
  /\ fst out = Ok tt
  /\ stored_status (snd out) (lit "rec1") = Some (lit "processed").
Proof.
  cbv zeta. split; [vm_compute; reflexivity|]. split; [|split; [|split]].
  - vm_compute.
    repeat first [apply list_elem_of_here | apply list_elem_of_further].
  - vm_compute. repeat constructor.
  - vm_compute. reflexivity.
  - vm_compute. reflexivity.
Qed.

(** * Further properties of the modelled code *)

(** ** Where a run ends *)

Section EndOfRunFacts.
Import Pipeline.
Variable w : world.

Lemma last_of_run_is_terminal (l : list str) :
  l ∈ [ [lit "downloading"; lit "error"];
        [lit "downloading"; lit "uploading_recording"; lit "error"];
        [lit "downloading"; lit "uploading_recording"; lit "analyzing"; lit "error"];
        [lit "downloading"; lit "uploading_recording"; lit "analyzing"; lit "processed"];
        [lit "downloading"; lit "uploading_recording"; lit "transcribing"; lit "error"];
        [lit "downloading"; lit "uploading_recording"; lit "transcribing";
         lit "analyzing"; lit "error"];
        [lit "downloading"; lit "uploading_recording"; lit "transcribing";
         lit "analyzing"; lit "processed"] ] ->
  forall s, last l = Some s -> s = lit "processed" \/ s = lit "error".
Proof.
  intros Hl s Hs.
  repeat (apply elem_of_cons in Hl as [->|Hl];
          [cbn in Hs; injection Hs as <-; auto|]).
  inversion Hl.
Qed.

(** The loop of [create_document_via_claude] has no bound of its own: for
    every number there is a conversation in which it asks the LLM more
    often than that before it returns. *)
Lemma tool_use_loop_has_no_bound (timestamp : str) (n : nat) :
  forall messages st,
  exists st' L,
    tool_use_loop w timestamp (Cases.keeps_asking n) messages st = (Ok tt, st')
    /\ events st' = events st ++ L
    /\ length (List.filter (fun e => match e with EvRequest _ => true | _ => false end) L)
       = S n.
Proof.
  induction n as [|n IH]; intros messages st; cbn [tool_use_loop Cases.keeps_asking];
    rewrite (bind_ok _ _ _ _ _ (emit_runs _ st)); cbn [stop_reason content].
  - rewrite bool_decide_eq_true_2 by reflexivity.
    exists (add_event (EvRequest messages) st), [EvRequest messages]. repeat split.
  - rewrite bool_decide_eq_false_2 by (vm_compute; discriminate).
    rewrite bool_decide_eq_true_2 by reflexivity.
    cbn [handle_blocks]. unfold bind at 1. cbn [ret].
    destruct (IH (messages ++ [AssistantContent []; UserToolResults []])
                 (add_event (EvRequest messages) st)) as (st' & L & Hloop & V & N).
    exists st', (EvRequest messages :: L). split; [exact Hloop|]. split.
    + rewrite V. cbn [events add_event]. now rewrite <- app_assoc.
    + cbn [List.filter length]. now rewrite N.
Qed.

(** X1. A run of [process_plaud_recording] that ends, from a state whose
    status file can be read, ends without an exception, whatever its
    collaborators returned or raised, and leaves the recording in a terminal
    status, [processed] or [error], which is the last status it wrote.  The
    runs that end are the runs of the model: the answers of the LLM are a
    script, so the conversation comes to an end; of a run in which the LLM
    answers [tool_use] for ever, which never returns, nothing is stated. *)
Theorem run_ends_in_terminal_status (file_id raw_filename : str) (st : state) :
  writable st ->
  let out := process_plaud_recording w file_id raw_filename st in
  fst out = Ok tt
  /\ exists s,
      stored_status (snd out) file_id = Some s
      /\ last (status_trace (new_events st (snd out))) = Some s
      /\ (s = lit "processed" \/ s = lit "error").
Proof.
  intros Hw. cbv zeta.
  destruct (process_runs w file_id raw_filename st Hw) as (st' & E & G & s & Hs & Hlast).
  rewrite E. cbn [fst snd]. split; [reflexivity|]. exists s.
  rewrite (status_trace_new_events _ _ _ G). repeat split; auto.
  exact (last_of_run_is_terminal _ (of_process_statuses w _ _ _) s Hlast).
Qed.

(** X2. When reading the status file raises an exception that
    [load_pipeline_status] does not catch, [process_plaud_recording] raises
    that exception out of its own handler and changes nothing: no status is
    written, no collaborator is called. *)
Theorem run_with_unreadable_status_file_raises
        (file_id raw_filename : str) (st : state) (e : exn) :
  status_file st = Damaged e ->
  caught_by e [JSONDecodeError; OSError] = false ->
  process_plaud_recording w file_id raw_filename st = (Raise e, st).
Proof.
  intros Hfile Hcaught. apply process_unwritable.
  rewrite Hfile. cbn [load_pipeline_status_from]. now rewrite Hcaught.
Qed.

(** X3. A write of a status stores the status under the recording's
    identifier, leaves the entry of every other recording as it was, and
    keeps the stored file name when it is called with an empty one. *)
Theorem set_pipeline_status_updates_one_entry
        (file_id status filename : str) (st : state) (all_status : gmap str entry) :
  load_pipeline_status_from ∅ (status_file st) = Ok all_status ->
  let out := set_pipeline_status w file_id status filename st in
  fst out = Ok tt
  /\ exists after,
      status_file (snd out) = Holding after
      /\ after !! file_id ≫= e_status = Some status
      /\ after !! file_id ≫= e_filename
         = match filename with
           | [] => all_status !! file_id ≫= e_filename
           | _ => Some filename
           end
      /\ (forall other, other <> file_id -> after !! other = all_status !! other)
      /\ files (snd out) = files st
      /\ history_file (snd out) = history_file st.
Proof.
  intros Hload. cbv zeta. unfold set_pipeline_status, bind, load_pipeline_status.
  rewrite Hload. cbn [fst snd modify get emit]. split; [reflexivity|].
  eexists. split; [reflexivity|]. rewrite lookup_insert_eq. cbn.
  repeat split.
  - destruct filename; [|reflexivity]. now destruct (all_status !! file_id).
  - intros other Hne. now rewrite lookup_insert_ne.
Qed.

End EndOfRunFacts.

Lemma run_ends_in_terminal_status_witness :
  exists s,
    stored_status
      (snd (Pipeline.process_plaud_recording
              (Sample.world_with Sample.upload_fails Sample.creates_document)
              (lit "rec1") (lit "Team sync") Sample.fresh)) (lit "rec1") = Some s
    /\ (s = lit "processed" \/ s = lit "error").
Proof.
  destruct (run_ends_in_terminal_status
              (Sample.world_with Sample.upload_fails Sample.creates_document)
              (lit "rec1") (lit "Team sync") Sample.fresh)
    as (_ & s & Hs & _ & Hterm).
  - exists ∅. reflexivity.
  - exists s. split; assumption.
Defined.

Lemma run_with_unreadable_status_file_raises_witness :
  Pipeline.process_plaud_recording
    (Sample.world_with (Ok tt) Sample.creates_document) (lit "rec1") (lit "Team sync")
    (State (Damaged (Exn UnicodeDecodeError (lit "invalid utf-8"))) Absent ∅ [] 0 false)
  = (Raise (Exn UnicodeDecodeError (lit "invalid utf-8")),
     State (Damaged (Exn UnicodeDecodeError (lit "invalid utf-8"))) Absent ∅ [] 0 false).
Proof.
  apply (run_with_unreadable_status_file_raises
           (Sample.world_with (Ok tt) Sample.creates_document) (lit "rec1")
           (lit "Team sync")
           (State (Damaged (Exn UnicodeDecodeError (lit "invalid utf-8"))) Absent ∅ [] 0 false)
           (Exn UnicodeDecodeError (lit "invalid utf-8")));
    reflexivity.
Defined.

Lemma set_pipeline_status_updates_one_entry_witness :
  exists after,
    status_file (snd (Pipeline.set_pipeline_status
                        (Sample.world_with (Ok tt) Sample.declines)
                        (lit "rec1") (lit "error") [] Sample.interrupted))
    = Holding after
    /\ after !! lit "rec1" ≫= e_status = Some (lit "error")
    /\ after !! lit "rec2" = Some Sample.finished_entry.
Proof.
  destruct (set_pipeline_status_updates_one_entry
              (Sample.world_with (Ok tt) Sample.declines)
              (lit "rec1") (lit "error") [] Sample.interrupted
              Sample.interrupted_store eq_refl)
    as (_ & after & Hfile & Hstatus & _ & Hothers & _).
  exists after. split; [exact Hfile|]. split; [exact Hstatus|].
  rewrite Hothers by (vm_compute; discriminate). vm_compute. reflexivity.
Defined.

(** ** Startup recovery, again *)

Section RecoveryAgain.
Import Pipeline.
Variable w : world.

Lemma reset_entry_not_active file_id e : is_active (reset_entry w file_id e) = false.
Proof.
  unfold reset_entry. destruct (is_active e) eqn:He; [|exact He].
  apply terminal_not_active. now right.
Qed.

(** X4. After startup recovery no entry of the status file is active, and
    a second recovery changes nothing. *)
Theorem reset_stale_statuses_leaves_none_active
        (st : state) (all_status : gmap str entry) :
  status_file st = Holding all_status ->
  let st' := snd (reset_stale_statuses w st) in
  (exists after,
      status_file st' = Holding after
      /\ forall file_id e, after !! file_id = Some e -> is_active e = false)
  /\ reset_stale_statuses w st' = (Ok tt, st').
Proof.
  intros Hfile. cbv zeta.
  assert (Hnone : exists after,
             status_file (snd (reset_stale_statuses w st)) = Holding after
             /\ forall file_id e, after !! file_id = Some e -> is_active e = false).
  { unfold reset_stale_statuses, bind, load_pipeline_status.
    rewrite Hfile. cbn [load_pipeline_status_from].
    destruct (bool_decide _) eqn:Hchanged; cbn [modify ret snd].
    - eexists. split; [reflexivity|]. intros file_id e.
      rewrite map_lookup_imap. destruct (all_status !! file_id) as [e0|]; [|discriminate].
      cbn. intros [= <-]. apply reset_entry_not_active.
    - apply bool_decide_eq_false_1 in Hchanged.
      exists all_status. split; [exact Hfile|]. intros file_id e He.
      destruct (is_active e) eqn:Ha; [|reflexivity].
      exfalso. apply Hchanged. now exists file_id, e. }
  split; [exact Hnone|].
  destruct Hnone as (after & Hafter & Hquiet).
  unfold reset_stale_statuses at 1. unfold bind, load_pipeline_status.
  rewrite Hafter. cbn [load_pipeline_status_from].
  rewrite bool_decide_eq_false_2; [reflexivity|].
  intros (file_id & e & He & Ha). rewrite (Hquiet file_id e He) in Ha. discriminate.
Qed.

End RecoveryAgain.

Lemma reset_stale_statuses_leaves_none_active_witness :
  Pipeline.reset_stale_statuses
    (Sample.world_with (Ok tt) Sample.declines)
    (snd (Pipeline.reset_stale_statuses (Sample.world_with (Ok tt) Sample.declines)
                                        Sample.interrupted))
  = (Ok tt,
     snd (Pipeline.reset_stale_statuses (Sample.world_with (Ok tt) Sample.declines)
                                        Sample.interrupted)).
Proof.
  exact (proj2 (reset_stale_statuses_leaves_none_active
                  (Sample.world_with (Ok tt) Sample.declines)
                  Sample.interrupted Sample.interrupted_store eq_refl)).
Defined.

(** ** The safe local file names *)

Section FileNameFacts.
Import Pipeline.

Lemma startswith_app (p s : str) : startswith (p ++ s) p = true.
Proof.
  induction p as [|c p IH]; [now destruct s|]. cbn. now rewrite N.eqb_refl.
Qed.

Lemma startswith_inv (s p : str) : startswith s p = true -> exists t, s = p ++ t.
Proof.
  revert s. induction p as [|c p IH]; intros s H.
  - now exists s.
  - destruct s as [|x s]; [discriminate|]. cbn in H.
    apply andb_true_iff in H as [Hx Hs]. apply N.eqb_eq in Hx as ->.
    destruct (IH s Hs) as [t ->]. now exists t.
Qed.

Lemma endswith_app (s e : str) : endswith (s ++ e) e = true.
Proof. unfold endswith. rewrite rev_app_distr. apply startswith_app. Qed.

Lemma endswith_inv (s e : str) : endswith s e = true -> exists pre, s = pre ++ e.
Proof.
  unfold endswith. intros H. apply startswith_inv in H as [t Ht].
  exists (rev t). apply (f_equal (@rev N)) in Ht.
  now rewrite rev_involutive, rev_app_distr, rev_involutive in Ht.
Qed.

Lemma lower_app (a b : str) : lower (a ++ b) = lower a ++ lower b.
Proof. apply List.map_app. Qed.

Lemma has_audio_extension_app (s e : str) :
  e ∈ AUDIO_EXTENSIONS -> lower e = e -> has_audio_extension (s ++ e) = true.
Proof.
  intros He Hl. unfold has_audio_extension. apply existsb_exists.
  exists e. split; [now apply list_elem_of_In|].
  rewrite lower_app, Hl. apply endswith_app.
Qed.

Lemma mp3_is_an_extension : lit ".mp3" ∈ AUDIO_EXTENSIONS.
Proof. apply list_elem_of_here. Qed.

Lemma sanitize_keep (name : str) :
  Forall (fun c => in_chars c KEEP = true) (_sanitize_filename name)
  /\ _sanitize_filename name <> [].
Proof.
  unfold _sanitize_filename.
  pose proof (strip_Forall (fun c => in_chars c KEEP = true) isspace
                (List.filter (fun c => in_chars c KEEP) name)
                (Forall_list_filter _ _ _ (fun x H => H))) as H.
  destruct (strip isspace _) as [|c kept].
  - split; [|discriminate]. vm_compute. repeat constructor.
  - split; [exact H | discriminate].
Qed.

(** A character that is kept and is no white space. *)
Definition solid (c : N) : bool := in_chars c KEEP && negb (isspace c).

Lemma upper_is_solid (c : N) : 65 <= c -> c <= 90 -> solid c = true.
Proof.
  intros Hlo Hhi.
  assert (Hall : forallb (fun k => solid (N.of_nat k)) (seq 65 26) = true)
    by (vm_compute; reflexivity).
  rewrite forallb_forall in Hall.
  rewrite <- (N2Nat.id c). apply Hall. apply in_seq. lia.
Qed.

Definition EXTENSION_CHARS : str := lit ".mp3ogg4awvflac".

Lemma lower_extension_char_solid (c : N) :
  in_chars (lower_char c) EXTENSION_CHARS = true -> solid c = true.
Proof.
  unfold lower_char.
  destruct ((65 <=? c) && (c <=? 90)) eqn:Hup.
  - intros _. apply andb_true_iff in Hup as [Hlo Hhi].
    apply N.leb_le in Hlo, Hhi. now apply upper_is_solid.
  - intros H. apply existsb_exists in H as (x & Hin & Hx).
    apply N.eqb_eq in Hx. subst x.
    vm_compute in Hin.
    repeat (destruct Hin as [<-|Hin]; [vm_compute; reflexivity|]).
    destruct Hin.
Qed.

Lemma extension_chars (e : str) :
  e ∈ AUDIO_EXTENSIONS -> Forall (fun x => in_chars x EXTENSION_CHARS = true) e.
Proof.
  intros He. unfold AUDIO_EXTENSIONS in He.
  repeat (apply elem_of_cons in He as [->|He]; [vm_compute; repeat constructor|]).
  inversion He.
Qed.

Lemma extension_not_empty (e : str) : e ∈ AUDIO_EXTENSIONS -> e <> [].
Proof.
  intros He. unfold AUDIO_EXTENSIONS in He.
  repeat (apply elem_of_cons in He as [->|He]; [discriminate|]).
  inversion He.
Qed.

Lemma lowered_extension_solid (b e : str) :
  e ∈ AUDIO_EXTENSIONS -> lower b = e -> Forall (fun c => solid c = true) b /\ b <> [].
Proof.
  intros He Hb. split.
  - pose proof (extension_chars e He) as Hall. rewrite <- Hb in Hall.
    unfold lower in Hall. rewrite List.Forall_map in Hall.
    eapply Forall_impl; [exact Hall|]. intros c Hc. now apply lower_extension_char_solid.
  - intros ->. now apply (extension_not_empty e He).
Qed.

Lemma filter_keeps_solid (b : str) :
  Forall (fun c => solid c = true) b -> List.filter (fun c => in_chars c KEEP) b = b.
Proof.
  induction 1 as [|c b Hc Hb IH]; [reflexivity|]. cbn [List.filter].
  apply andb_true_iff in Hc as [-> _]. now rewrite IH.
Qed.

Lemma lstrip_app_solid (F b : str) c :
  solid c = true -> lstrip isspace (F ++ c :: b) = lstrip isspace F ++ c :: b.
Proof.
  intros Hc. apply andb_true_iff in Hc as [_ Hc]. apply negb_true_iff in Hc.
  induction F as [|x F IH]; cbn [app lstrip].
  - now rewrite Hc.
  - destruct (isspace x); [exact IH | reflexivity].
Qed.

Lemma rstrip_solid_end (X : str) c :
  solid c = true -> rstrip isspace (X ++ [c]) = X ++ [c].
Proof.
  intros Hc. apply andb_true_iff in Hc as [_ Hc]. apply negb_true_iff in Hc.
  unfold rstrip. rewrite rev_app_distr. cbn [rev app lstrip]. rewrite Hc.
  cbn [rev]. now rewrite rev_involutive.
Qed.

Lemma strip_app_solid (F b : str) :
  Forall (fun c => solid c = true) b -> b <> [] ->
  strip isspace (F ++ b) = lstrip isspace F ++ b.
Proof.
  intros Hall Hne. unfold strip.
  destruct b as [|c b]; [congruence|].
  rewrite (lstrip_app_solid F b c) by now inversion Hall.
  destruct (exists_last (l := c :: b)) as (b' & z & Hb); [discriminate|].
  rewrite Hb, app_assoc. apply rstrip_solid_end.
  rewrite Hb in Hall. apply Forall_app in Hall as [_ Hz]. now inversion Hz.
Qed.

(** The sanitizer keeps a known extension that is at the end of the name. *)
Lemma sanitize_keeps_extension (s : str) :
  has_audio_extension s = true -> has_audio_extension (_sanitize_filename s) = true.
Proof.
  unfold has_audio_extension at 1. intros H.
  apply existsb_exists in H as (e & He & Hend). apply list_elem_of_In in He.
  apply endswith_inv in Hend as [pre Hpre].
  unfold lower in Hpre. apply List.map_eq_app in Hpre as (a & b & -> & Ha & Hb).
  destruct (lowered_extension_solid b e He Hb) as [Hsolid Hne].
  unfold _sanitize_filename.
  rewrite List.filter_app, (filter_keeps_solid b Hsolid), (strip_app_solid _ b Hsolid Hne).
  destruct (lstrip isspace _ ++ b) as [|c kept] eqn:Hk.
  - apply app_eq_nil in Hk as [_ Hk]. congruence.
  - rewrite <- Hk. unfold has_audio_extension. apply existsb_exists.
    exists e. split; [now apply list_elem_of_In|].
    rewrite lower_app. change (List.map lower_char b) with (lower b) in Hb.
    rewrite Hb. apply endswith_app.
Qed.

(** X5. The local file name of the pipeline and the one of the web layer
    are never empty, hold only letters, digits, hyphen, underscore, dot and
    space (so no path separator), and always end in one of the five known
    audio extensions, whatever name the provider gives. *)
Theorem local_names_are_plain_audio_names (raw : str) :
  let plain (name : str) :=
      name <> []
      /\ Forall (fun c => in_chars c KEEP = true) name
      /\ ~ In SLASH name
      /\ has_audio_extension name = true in
  plain (local_filename raw) /\ plain (App.safe_name raw).
Proof.
  assert (Hslash : forall name, Forall (fun c => in_chars c KEEP = true) name ->
                                ~ In SLASH name).
  { intros name Hall Hin. rewrite List.Forall_forall in Hall.
    specialize (Hall _ Hin). vm_compute in Hall. discriminate. }
  cbv zeta. split.
  - unfold local_filename.
    set (named := if negb (has_audio_extension raw) then raw ++ lit ".mp3" else raw).
    destruct (sanitize_keep named) as [Hkeep Hne].
    repeat split; auto.
    apply sanitize_keeps_extension. subst named.
    destruct (has_audio_extension raw) eqn:Hraw; cbn [negb]; [exact Hraw|].
    apply has_audio_extension_app; [apply mp3_is_an_extension | reflexivity].
  - unfold App.safe_name.
    destruct (sanitize_keep raw) as [Hkeep Hne].
    destruct (has_audio_extension (_sanitize_filename raw)) eqn:Hext; cbn [negb].
    + repeat split; auto.
    + assert (Hall : Forall (fun c => in_chars c KEEP = true)
                       (_sanitize_filename raw ++ lit ".mp3")).
      { apply Forall_app. split; [exact Hkeep|]. vm_compute. repeat constructor. }
      repeat split; auto.
      * intros Hnil. apply app_eq_nil in Hnil as [Hnil _]. contradiction.
      * apply has_audio_extension_app; [apply mp3_is_an_extension | reflexivity].
Qed.

(** X6. [_validate_filename] accepts the output of [_sanitize_filename]
    unless it starts with a dot: the sanitizer removes every character the
    validator rejects and never returns the empty name, but it keeps a
    leading dot. *)
Theorem sanitized_name_is_valid_unless_dotted (name : str) :
  Legacy._validate_filename (_sanitize_filename name)
  = negb (startswith (_sanitize_filename name) (lit ".")).
Proof.
  destruct (sanitize_keep name) as [Hkeep Hne].
  unfold Legacy._validate_filename.
  destruct (_sanitize_filename name) as [|c kept] eqn:Hs; [congruence|].
  assert (Hclean : existsb (fun x => in_chars x (c :: kept)) Legacy.REJECTED = false).
  { apply not_true_is_false. intros H.
    apply existsb_exists in H as (x & Hx & Hin).
    apply existsb_exists in Hin as (y & Hy & Hxy). apply N.eqb_eq in Hxy. subst y.
    rewrite List.Forall_forall in Hkeep. specialize (Hkeep x Hy).
    vm_compute in Hx.
    repeat (destruct Hx as [<-|Hx]; [vm_compute in Hkeep; discriminate|]).
    destruct Hx. }
  rewrite Hclean. now destruct (startswith (c :: kept) (lit ".")).
Qed.

End FileNameFacts.

(** A name the sanitizer returns and the validator rejects. *)
Lemma sanitized_name_can_be_rejected :
  Pipeline._sanitize_filename (lit "/.mp3") = lit ".mp3"
  /\ Legacy._validate_filename (lit ".mp3") = false.
Proof. vm_compute. split; reflexivity. Qed.

(** ** The transcription step *)

Section TranscriptionFacts.
Import Pipeline.
Variable w : world.

(** X7. A file larger than the size cap is refused with a [ValueError]
    whose message gives the size of the file and the cap: the engine is
    not called and the state is as it was. *)
Theorem transcribe_audio_refuses_large_file (file_path : str) (st : state) (file_size : N) :
  getsize w file_path = Ok file_size ->
  MAX_AUDIO_FILE_SIZE < file_size ->
  transcribe_audio w file_path st
  = (Raise (Exn ValueError
              (lit "File too large: " ++ decimal file_size
                   ++ lit " bytes (max 524288000)")), st).
Proof.
  intros Hsize Hbig. unfold transcribe_audio.
  rewrite Hsize, (bind_ok _ _ _ _ _ (call_runs _ st)).
  apply N.ltb_lt in Hbig. now rewrite Hbig.
Qed.

(** The text before the length cap is applied. *)
Definition full_text (result : whisper_result) : str :=
  let lines := List.map format_segment (wr_segments result) in
  match lines with
  | [] => wr_text result
  | _ => join [NEWLINE] lines
  end.

Lemma format_transcript_capped (result : whisper_result) :
  N.of_nat (length (format_transcript result)) <= MAX_TRANSCRIPT_LENGTH
  /\ format_transcript result `prefix_of` full_text result
  /\ (N.of_nat (length (full_text result)) <= MAX_TRANSCRIPT_LENGTH ->
      format_transcript result = full_text result).
Proof.
  assert (Hdef : format_transcript result
                 = if MAX_TRANSCRIPT_LENGTH <? N.of_nat (length (full_text result))
                   then take (N.to_nat MAX_TRANSCRIPT_LENGTH) (full_text result)
                   else full_text result) by reflexivity.
  rewrite Hdef. clear Hdef.
  destruct (MAX_TRANSCRIPT_LENGTH <? N.of_nat (length (full_text result))) eqn:Hlong.
  - apply N.ltb_lt in Hlong. split; [|split].
    + rewrite length_take. lia.
    + exists (drop (N.to_nat MAX_TRANSCRIPT_LENGTH) (full_text result)).
      now rewrite take_drop.
    + lia.
  - apply N.ltb_ge in Hlong. split; [exact Hlong|]. split; reflexivity.
Qed.

(** X8. For a file within the size cap that the engine transcribes,
    [transcribe_audio] calls the engine once and returns the first 500000
    characters of the text made of the engine's result: the whole text when
    it has at most 500000 characters, and exactly 500000 characters when it
    is longer.  A text over the cap is cut and returned, never refused. *)
Theorem transcribe_audio_caps_the_transcript
        (file_path : str) (st : state) (file_size : N) (result : whisper_result) :
  getsize w file_path = Ok file_size ->
  file_size <= MAX_AUDIO_FILE_SIZE ->
  transcribe w file_path = Ok result ->
  let transcript := take (N.to_nat MAX_TRANSCRIPT_LENGTH) (full_text result) in
  transcribe_audio w file_path st
  = (Ok transcript, add_event (EvTranscribe file_path) st)
  /\ N.of_nat (length transcript) <= 500000
  /\ (N.of_nat (length (full_text result)) <= 500000 -> transcript = full_text result)
  /\ (500000 < N.of_nat (length (full_text result)) ->
      N.of_nat (length transcript) = 500000).
Proof.
  intros Hsize Hsmall Hengine transcript.
  assert (Hcap : MAX_TRANSCRIPT_LENGTH = 500000) by reflexivity.
  assert (Hdef : format_transcript result
                 = if MAX_TRANSCRIPT_LENGTH <? N.of_nat (length (full_text result))
                   then take (N.to_nat MAX_TRANSCRIPT_LENGTH) (full_text result)
                   else full_text result) by reflexivity.
  assert (Hcut : format_transcript result = transcript).
  { rewrite Hdef. subst transcript.
    destruct (MAX_TRANSCRIPT_LENGTH <? N.of_nat (length (full_text result))) eqn:Hlong;
      [reflexivity|].
    apply N.ltb_ge in Hlong. symmetry. apply take_ge. lia. }
  split; [|split; [|split]].
  - unfold transcribe_audio. rewrite Hsize, (bind_ok _ _ _ _ _ (call_runs _ st)).
    apply N.ltb_ge in Hsmall. rewrite Hsmall.
    rewrite (bind_ok _ _ _ _ _ (emit_runs _ st)).
    rewrite Hengine, (bind_ok _ _ _ _ _ (call_runs _ _)).
    unfold ret. now rewrite Hcut.
  - subst transcript. rewrite length_take. lia.
  - intros Hshort. subst transcript. apply take_ge. lia.
  - intros Hlong. subst transcript. rewrite length_take. lia.
Qed.

Lemma format_02d_two_digits (n : N) :
  n < 100 -> format_02d n = [48 + n / 10; 48 + n mod 10].
Proof.
  intros Hn.
  assert (Hall : forallb (fun k => bool_decide
                            (format_02d (N.of_nat k)
                             = [48 + N.of_nat k / 10; 48 + N.of_nat k mod 10]))
                         (seq 0 100) = true)
    by (vm_compute; reflexivity).
  rewrite forallb_forall in Hall.
  assert (Hin : In (N.to_nat n) (seq 0 100)) by (apply in_seq; lia).
  specialize (Hall (N.to_nat n) Hin). rewrite N2Nat.id in Hall.
  now apply bool_decide_eq_true_1 in Hall.
Qed.

(** X9. For a segment that starts before the hundredth minute, the line
    of the transcript is the start as two digits of minutes, a colon and
    two digits of seconds between brackets, a space, and the text of the
    segment without the white space around it. *)
Theorem format_segment_shape (start : N) (text : str) :
  start < 6000 ->
  let mm := start / 60 in
  let ss := start mod 60 in
  format_segment (start, text)
  = [91; 48 + mm / 10; 48 + mm mod 10; 58; 48 + ss / 10; 48 + ss mod 10; 93; 32]
      ++ strip isspace text
  /\ ss < 60.
Proof.
  intros Hstart mm ss.
  assert (Hmm : mm < 100) by (subst mm; apply N.Div0.div_lt_upper_bound; lia).
  assert (Hss : ss < 60) by (subst ss; apply N.mod_lt; lia).
  split; [|exact Hss].
  unfold format_segment. cbn [fst snd]. fold mm. fold ss.
  rewrite (format_02d_two_digits mm Hmm), (format_02d_two_digits ss) by lia.
  reflexivity.
Qed.

End TranscriptionFacts.

Lemma transcribe_audio_refuses_large_file_witness :
  Pipeline.transcribe_audio
    (World Sample.settings (fun _ _ => Ok true) (Ok []) (fun _ => Ok true)
           (fun _ _ => Ok tt) (fun _ => Ok 600000000)
           (fun _ => Ok (WhisperResult [] [])) Sample.declines (fun _ => Ok tt) (Ok [])
           (fun _ _ => Ok tt) (fun _ => []) (fun _ => []) [] true)
    (lit "/watch/input/long.mp3") Sample.fresh
  = (Raise (Exn ValueError (lit "File too large: 600000000 bytes (max 524288000)")),
     Sample.fresh).
Proof.
  apply (transcribe_audio_refuses_large_file _ _ _ 600000000); reflexivity.
Defined.

(** The engine returns 500001 characters: the transcript is their first
    500000. *)
Lemma transcribe_audio_caps_the_transcript_witness :
  let transcript :=
      take (N.to_nat Pipeline.MAX_TRANSCRIPT_LENGTH)
           (full_text (WhisperResult [] Cases.long_text)) in
  Pipeline.transcribe_audio Cases.world_with_long_text (lit "/watch/input/long.mp3")
                            Sample.fresh
  = (Ok transcript, add_event (EvTranscribe (lit "/watch/input/long.mp3")) Sample.fresh)
  /\ N.of_nat (length Cases.long_text) = 500001
  /\ N.of_nat (length transcript) = 500000.
Proof.
  cbv zeta.
  assert (Hlong : N.of_nat (length (full_text (WhisperResult [] Cases.long_text))) = 500001).
  { change (full_text (WhisperResult [] Cases.long_text)) with Cases.long_text.
    unfold Cases.long_text. rewrite repeat_length. reflexivity. }
  destruct (transcribe_audio_caps_the_transcript
              Cases.world_with_long_text (lit "/watch/input/long.mp3") Sample.fresh 1024
              (WhisperResult [] Cases.long_text) eq_refl)
    as (Hrun & _ & _ & Hcut).
  - vm_compute. discriminate.
  - reflexivity.
  - split; [exact Hrun|]. split; [exact Hlong|]. apply Hcut. rewrite Hlong. reflexivity.
Defined.

Lemma format_segment_shape_witness :
  Pipeline.format_segment (75, lit " hello there ") = lit "[01:15] hello there".
Proof.
  refine (eq_trans (proj1 (format_segment_shape 75 (lit " hello there ") _)) _).
  - reflexivity.
  - vm_compute. reflexivity.
Defined.

(** ** The upload to the cloud drive *)

Section UploadFacts.
Import Pipeline.
Variable w : world.

Lemma new_events_one st e : new_events st (add_event e st) = [e].
Proof. unfold new_events. cbn [events add_event]. apply drop_app_length. Qed.

(** X10. [_upload_to_gdrive] always returns normally.  It calls
    [upload_file] exactly when a client is returned and the folder
    identifier of the settings is not empty (the documents folder for the
    folder type [documents], the recordings folder for any other type), and
    then once; without a client, without a folder identifier, or when
    getting the client raises, it does nothing at all. *)
Theorem upload_to_gdrive_calls_at_most_once (local_path folder_type : str) (st : state) :
  let folder_id :=
      if bool_decide (folder_type = lit "documents")
      then gdrive_documents_folder_id (load_config w)
      else gdrive_recordings_folder_id (load_config w) in
  let out := _upload_to_gdrive w local_path folder_type st in
  fst out = Ok tt
  /\ match get_gdrive_client_from_config w local_path, folder_id with
     | Ok true, _ :: _ => snd out = add_event (EvUpload local_path folder_id) st
     | _, _ => snd out = st
     end.
Proof.
  cbv zeta. unfold _upload_to_gdrive, try_except, bind, call.
  destruct (get_gdrive_client_from_config w local_path) as [[|]|e]; cbn [negb ret fst snd];
    try (split; reflexivity).
  destruct (if bool_decide (folder_type = lit "documents")
              then gdrive_documents_folder_id (load_config w)
              else gdrive_recordings_folder_id (load_config w)) as [|c folder_id];
      cbn [ret fst snd emit modify]; [split; reflexivity|].
  destruct (upload_file w local_path (c :: folder_id)) as [[]|e]; split; reflexivity.
Qed.

End UploadFacts.

(** ** The file watcher's entry point *)

Section LegacyFacts.
Import Pipeline Legacy.
Variable w : world.

(** X11. [process_audio_file] does nothing at all, and returns normally,
    for a file whose name [_validate_filename] rejects and for a file
    larger than the size cap. *)
Theorem process_audio_file_skips_bad_input (file_path : str) (st : state) :
  _validate_filename (basename file_path) = false
  \/ (exists file_size, getsize w file_path = Ok file_size
                        /\ MAX_AUDIO_FILE_SIZE < file_size) ->
  process_audio_file w file_path st = (Ok tt, st).
Proof.
  intros [Hname|(n & Hsize & Hbig)]; unfold process_audio_file.
  - now rewrite Hname.
  - destruct (_validate_filename (basename file_path)); [|reflexivity]. cbn [negb].
    rewrite Hsize, (bind_ok _ _ _ _ _ (call_runs _ st)).
    apply N.ltb_lt in Hbig. now rewrite Hbig.
Qed.

Lemma observes_try_ok {A} (m : M A) (h : exn -> M A) a K :
  observes m (Ok a) K -> observes (try_except m h) (Ok a) K.
Proof.
  intros Hm st. destruct (Hm st) as (st1 & E1 & X1). exists st1.
  split; [now rewrite (try_ok _ _ _ _ _ E1) | exact X1].
Qed.

Lemma observes_try_handled {A} (m : M A) (h : exn -> M A) e K1 r K2 :
  observes m (Raise e) K1 -> observes (h e) r K2 ->
  observes (try_except m h) r (K1 ++ K2).
Proof.
  intros Hm Hh st. destruct (Hm st) as (st1 & E1 & X1).
  destruct (Hh st1) as (st2 & E2 & X2). exists st2.
  split; [now rewrite (try_raise _ _ _ _ _ E1) | eapply extends_trans; eassumption].
Qed.

(** The [try] statement of [process_audio_file] returns normally and
    writes no status. *)
Lemma legacy_try_observes (file_path : str) :
  exists K,
    status_trace K = []
    /\ observes
         (try_except
            (_upload_to_gdrive w file_path (lit "recordings") ;;;
             transcript <- transcribe_audio w file_path ;;
             create_document_via_claude w (basename file_path) transcript [] ;;;
             archive_audio w file_path ;;;
             _record_history w (basename file_path) (lit "success") [])
            (fun exc => _record_history w (basename file_path) (lit "error")
                                        (exn_message exc)))
         (Ok tt) K.
Proof.
  pose proof (transcribe_observes w file_path) as Ht.
  pose proof (transcription_writes_no_status w file_path) as Hquiet.
  destruct (Outcome.transcription w file_path) as [[transcript|e] Kt]; cbn [fst snd] in *.
  - pose proof (analysis_observes w (basename file_path) transcript []) as Ha.
    destruct (Outcome.analysis w (basename file_path) transcript []) as [[]|e].
    + pose proof (archive_observes w file_path) as Hr.
      destruct (rename w file_path _) as [[]|e].
      * eexists. split; [|apply observes_try_ok].
        2:{ eapply observes_bind_ok; [apply upload_observes|].
            eapply observes_bind_ok; [exact Ht|].
            eapply observes_bind_ok; [exact Ha|].
            eapply observes_bind_ok; [exact Hr|].
            apply record_history_observes. }
        rewrite !status_trace_app, Hquiet. reflexivity.
      * eexists. split; [|eapply observes_try_handled].
        2:{ eapply observes_bind_ok; [apply upload_observes|].
            eapply observes_bind_ok; [exact Ht|].
            eapply observes_bind_ok; [exact Ha|].
            apply observes_bind_raise. exact Hr. }
        2:{ apply record_history_observes. }
        rewrite !status_trace_app, Hquiet. reflexivity.
    + eexists. split; [|eapply observes_try_handled].
      2:{ eapply observes_bind_ok; [apply upload_observes|].
          eapply observes_bind_ok; [exact Ht|].
          apply observes_bind_raise. exact Ha. }
      2:{ apply record_history_observes. }
      rewrite !status_trace_app, Hquiet. reflexivity.
  - eexists. split; [|eapply observes_try_handled].
    2:{ eapply observes_bind_ok; [apply upload_observes|].
        apply observes_bind_raise. exact Ht. }
    2:{ apply record_history_observes. }
    rewrite !status_trace_app, Hquiet. reflexivity.
Qed.

(** X12. [process_audio_file] never touches the status file and never
    writes a status, whatever its collaborators do; it raises only when
    reading the size of the file raises, every exception of the processing
    itself being caught. *)
Theorem process_audio_file_contains_failures (file_path : str) (st : state) :
  let out := process_audio_file w file_path st in
  status_file (snd out) = status_file st
  /\ status_trace (new_events st (snd out)) = []
  /\ (forall e, fst out = Raise e -> getsize w file_path = Raise e).
Proof.
  cbv zeta. unfold process_audio_file.
  assert (Hsame : forall r : result unit,
             status_file (snd (r, st)) = status_file st
             /\ status_trace (new_events st (snd (r, st))) = []).
  { intros r. cbn [snd]. split; [reflexivity|]. now rewrite new_events_same. }
  destruct (negb (_validate_filename (basename file_path))).
  { destruct (Hsame (Ok tt)). repeat split; auto. discriminate. }
  destruct (getsize w file_path) as [n|e].
  - rewrite (bind_ok _ _ _ _ _ (call_runs _ st)).
    destruct (MAX_AUDIO_FILE_SIZE <? n).
    { destruct (Hsame (Ok tt)). repeat split; auto. discriminate. }
    destruct (legacy_try_observes file_path) as (K & HK & Hobs).
    destruct (Hobs st) as (st' & E & Hstatus & _ & G). rewrite E. cbn [fst snd].
    repeat split; [exact Hstatus| |discriminate].
    now rewrite (status_trace_new_events _ _ _ G).
  - rewrite (bind_raise _ _ _ _ _ (call_runs _ st)).
    destruct (Hsame (Raise e)). repeat split; auto. now intros e' [= <-].
Qed.

End LegacyFacts.

Lemma process_audio_file_skips_bad_input_witness :
  Legacy.process_audio_file (Sample.world_with (Ok tt) Sample.declines)
                            (lit "/watch/input/.hidden.mp3") Sample.fresh
  = (Ok tt, Sample.fresh).
Proof.
  apply process_audio_file_skips_bad_input. left. vm_compute. reflexivity.
Defined.

(** ** The choice of the cached transcript *)

Section ChoiceFacts.
Import Pipeline.

Lemma str_leb_refl (a : str) : str_leb a a = true.
Proof. induction a as [|x a IH]; [reflexivity|]. cbn. now rewrite N.ltb_irrefl. Qed.

Lemma str_leb_total (a b : str) : str_leb a b = true \/ str_leb b a = true.
Proof.
  revert b. induction a as [|x a IH]; intros [|y b]; cbn; auto.
  destruct (N.ltb_spec x y), (N.ltb_spec y x); auto; lia.
Qed.

Lemma str_leb_trans (a b c : str) :
  str_leb a b = true -> str_leb b c = true -> str_leb a c = true.
Proof.
  revert b c. induction a as [|x a IH]; intros [|y b] [|z c]; cbn; auto; try discriminate.
  destruct (N.ltb_spec x y), (N.ltb_spec y x), (N.ltb_spec y z), (N.ltb_spec z y),
    (N.ltb_spec x z), (N.ltb_spec z x); auto; try discriminate; try lia.
  apply IH.
Qed.

#[local] Instance str_le_total : Total str_le.
Proof.
  intros a b. unfold str_le. destruct (str_leb_total a b) as [H|H]; rewrite H; auto.
Qed.

#[local] Instance str_le_transitive : Transitive str_le.
Proof.
  intros a b c Hab Hbc. unfold str_le in *.
  apply Is_true_true in Hab, Hbc. apply Is_true_true. eapply str_leb_trans; eassumption.
Qed.

Lemma last_of_sorted_is_greatest (l : list str) (z : str) :
  StronglySorted str_le l -> last l = Some z -> Forall (fun x => str_le x z) l.
Proof.
  induction 1 as [|x l Hl IH Hx]; intros Hlast; [constructor|].
  destruct l as [|y l].
  - injection Hlast as <-. repeat constructor. apply Is_true_true, str_leb_refl.
  - change (last (x :: y :: l)) with (last (y :: l)) in Hlast.
    constructor; [|now apply IH].
    apply last_Some_elem_of in Hlast. rewrite Forall_forall in Hx. now apply Hx.
Qed.

(** The base names of the pipeline are read literally: they are cut out of
    sanitized file names. *)
Lemma pipeline_base_name_is_literal (raw_filename : str) :
  literal_name (splitext_root (local_filename raw_filename)) = true.
Proof.
  assert (Hkeep : Forall (fun c => in_chars c KEEP = true) (local_filename raw_filename)).
  { unfold local_filename, _sanitize_filename.
    destruct (strip isspace (List.filter (fun c => in_chars c KEEP) _)) as [|c kept] eqn:E.
    - apply Forall_forall. intros c Hc. apply list_elem_of_In in Hc.
      vm_compute in Hc. repeat (destruct Hc as [<-|Hc]; [reflexivity|]). destruct Hc.
    - rewrite <- E. apply strip_Forall, Forall_list_filter. auto. }
  assert (Hroot : Forall (fun c => in_chars c KEEP = true)
                         (splitext_root (local_filename raw_filename))).
  { unfold splitext_root. destruct (rfind DOT _) as [d|]; [|exact Hkeep].
    destruct (_ && _); [|exact Hkeep]. now apply Forall_take. }
  assert (Hsafe : forall c, in_chars c KEEP = true -> in_chars c (lit "*?[/") = false).
  { intros c Hc. unfold in_chars in Hc. apply existsb_exists in Hc as (k & Hk & Hck).
    apply N.eqb_eq in Hck as ->.
    assert (Hall : forallb (fun k => negb (in_chars k (lit "*?[/"))) KEEP = true)
      by (vm_compute; reflexivity).
    rewrite forallb_forall in Hall. apply negb_true_iff. now apply Hall. }
  unfold literal_name. apply forallb_forall. intros c Hc.
  apply negb_true_iff, Hsafe. rewrite Forall_forall in Hroot.
  apply Hroot. now apply list_elem_of_In.
Qed.

(** X13. For a base name that [glob] reads literally, as the base names of
    the pipeline are, [_find_existing_transcript] changes nothing and never
    raises.  It returns [None] exactly when no file on disk matches the
    pattern of the base name; otherwise it returns a matching file that is
    on disk and that comes last in the order of Python strings among all
    the matching files (with the timestamp suffix of the names, the latest
    one). *)
Theorem find_existing_transcript_picks_the_last
        (base_name : str) (st : state) :
  literal_name base_name = true ->
  exists chosen,
    _find_existing_transcript base_name TRANSCRIPT_DIR st = (Ok chosen, st)
    /\ match chosen with
       | None =>
         forall path, is_Some (files st !! path) ->
                      is_transcript_of base_name TRANSCRIPT_DIR path = false
       | Some existing =>
         is_Some (files st !! existing)
         /\ is_transcript_of base_name TRANSCRIPT_DIR existing = true
         /\ forall path, is_Some (files st !! path) ->
                         is_transcript_of base_name TRANSCRIPT_DIR path = true ->
                         str_le path existing
       end.
Proof.
  intros _. eexists. split; [apply find_existing_transcript_runs|].
  unfold Outcome.cached.
  set (l := List.filter _ _).
  assert (Hin : forall path, path ∈ l <->
                             is_Some (files st !! path)
                             /\ is_transcript_of base_name TRANSCRIPT_DIR path = true).
  { intros path. subst l. rewrite list_elem_of_In, filter_In, in_map_iff. split.
    - intros [((p & t) & <- & Hpt) Hm]. split; [|exact Hm].
      exists t. now apply elem_of_map_to_list, list_elem_of_In.
    - intros [[t Ht] Hm]. split; [|exact Hm].
      exists (path, t). split; [reflexivity|].
      now apply list_elem_of_In, elem_of_map_to_list. }
  assert (Hperm : sorted l ≡ₚ l) by apply merge_sort_Permutation.
  assert (Hsorted : StronglySorted str_le (sorted l))
    by apply (StronglySorted_merge_sort str_le).
  destruct (last (sorted l)) as [existing|] eqn:Hlast.
  - pose proof (last_of_sorted_is_greatest _ _ Hsorted Hlast) as Hmax.
    apply last_Some_elem_of in Hlast. rewrite Hperm in Hlast.
    apply Hin in Hlast as [Hfile Hmatch]. repeat split; auto.
    intros path Hp Hm. rewrite Forall_forall in Hmax. apply Hmax.
    rewrite Hperm. apply Hin. auto.
  - apply last_None in Hlast. rewrite Hlast in Hperm.
    symmetry in Hperm. apply Permutation_nil_r in Hperm.
    intros path Hp. destruct (is_transcript_of _ _ path) eqn:Hm; [|reflexivity].
    exfalso. assert (Hpath : path ∈ l) by (apply Hin; auto).
    rewrite Hperm in Hpath. inversion Hpath.
Qed.

End ChoiceFacts.

(** The transcript of an earlier run of [Team sync] is found. *)
Lemma find_existing_transcript_picks_the_last_witness :
  Pipeline.literal_name (lit "Team sync") = true
  /\ exists chosen,
      Pipeline._find_existing_transcript (lit "Team sync") Pipeline.TRANSCRIPT_DIR
                                         Sample.with_cached_transcript
      = (Ok (Some chosen), Sample.with_cached_transcript)
      /\ is_Some (files Sample.with_cached_transcript !! chosen).
Proof.
  split; [reflexivity|].
  destruct (find_existing_transcript_picks_the_last (lit "Team sync")
              Sample.with_cached_transcript eq_refl) as ([chosen|] & Hfind & Hchosen).
  - exists chosen. split; [exact Hfind|]. apply Hchosen.
  - exfalso.
    assert (Hno : Pipeline.is_transcript_of (lit "Team sync") Pipeline.TRANSCRIPT_DIR
                                            Sample.cached_path = false).
    { apply Hchosen. exists (Readable (lit "[00:00] earlier text")).
      vm_compute. reflexivity. }
    vm_compute in Hno. discriminate Hno.
Defined.

(** ** The answers of the trigger *)

Section AnswerFacts.
Import Pipeline App.
Variable w : world.

(** X14. [process_recording] answers 200 only after it has written
    [queued] for the recording and with a thread to start; every other
    answer (409 or 400), and every exception, leaves the state as it was
    and starts no thread. A free, idle recording with no Plaud token in the
    settings is answered 400. *)
Theorem process_recording_answers (file_id : str) (st : state) :
  let out := process_recording w file_id st in
  match fst out with
  | Ok answer =>
    (http_status answer = 200
     /\ thread_started answer <> None
     /\ stored_status (snd out) file_id = Some (lit "queued")
     /\ status_trace (new_events st (snd out)) = [lit "queued"])
    \/ ((http_status answer = 409 \/ http_status answer = 400)
        /\ thread_started answer = None
        /\ snd out = st)
  | Raise _ => snd out = st
  end
  /\ (forall pipeline_status,
        load_pipeline_status st = (Ok pipeline_status, st) ->
        current_status pipeline_status file_id ∈ [lit "new"; lit "error"; lit "processed"] ->
        lock_held st = false ->
        plaud_token (load_config w) = [] ->
        fst out = Ok (Answer 400 (lit "No Plaud token configured") None)).
Proof.
  cbv zeta. split.
  - unfold process_recording.
    destruct (load_pipeline_status_from ∅ (status_file st)) as [m|e] eqn:Hload.
    2:{ rewrite (bind_raise _ _ st e st); [reflexivity|].
        unfold load_pipeline_status. now rewrite Hload. }
    assert (El : load_pipeline_status st = (Ok m, st))
      by (unfold load_pipeline_status; now rewrite Hload).
    rewrite (bind_ok _ _ _ _ _ El).
    destruct (negb (bool_decide (current_status m file_id ∈ _)));
      [right; cbn; auto|].
    assert (Eg : get lock_held st = (Ok (lock_held st), st)) by reflexivity.
    rewrite (bind_ok _ _ _ _ _ Eg).
    destruct (lock_held st); [right; cbn; auto|].
    destruct (plaud_token (load_config w)) as [|c token]; [right; cbn; auto|].
    destruct (list_recordings w) as [recordings|e].
    2:{ now rewrite (bind_raise _ _ _ _ _ (call_runs (Raise e) st)). }
    rewrite (bind_ok _ _ _ _ _ (call_runs (Ok recordings) st)).
    destruct (set_pipeline_status_runs w file_id (lit "queued")
                (resolve_filename recordings file_id (file_id ++ lit ".mp3")) st
                (ex_intro _ m Hload)) as (st1 & E1 & S1 & F1 & V1).
    rewrite (bind_ok _ _ _ _ _ E1). left. cbn [ret fst snd http_status thread_started].
    repeat split; [discriminate | exact S1 |].
    unfold new_events. now rewrite V1, drop_app_length.
  - intros m El Hcur Hlock Htoken. unfold process_recording.
    rewrite (bind_ok _ _ _ _ _ El).
    rewrite (bool_decide_eq_true_2 _ Hcur). cbn [negb].
    assert (Eg : get lock_held st = (Ok false, st)) by (unfold get; now rewrite Hlock).
    rewrite (bind_ok _ _ _ _ _ Eg). now rewrite Htoken.
Qed.

End AnswerFacts.

(** ** Where the archive puts a file *)

Section ArchiveFacts.
Import Pipeline.

Lemma rfind_from_bounds c (s : str) i j :
  rfind_from c s i = Some j -> (i <= j < i + length s)%nat.
Proof.
  revert i j. induction s as [|x s IH]; intros i j; cbn [rfind_from]; [discriminate|].
  destruct (rfind_from c s (S i)) as [k|] eqn:Hk.
  - intros [= <-]. apply IH in Hk. cbn [length]. lia.
  - destruct (x =? c); [|discriminate]. intros [= <-]. cbn [length]. lia.
Qed.

Lemma rfind_from_None c (s : str) i : rfind_from c s i = None -> ~ In c s.
Proof.
  revert i. induction s as [|x s IH]; intros i; cbn [rfind_from]; [auto|].
  destruct (rfind_from c s (S i)) as [k|] eqn:Hk; [discriminate|].
  destruct (N.eqb_spec x c); [discriminate|]. intros _ [Hx|Hin]; [congruence|].
  exact (IH _ Hk Hin).
Qed.

Lemma rfind_from_last c (s : str) i j :
  rfind_from c s i = Some j -> ~ In c (drop (S (j - i)) s).
Proof.
  revert i j. induction s as [|x s IH]; intros i j; cbn [rfind_from]; [discriminate|].
  destruct (rfind_from c s (S i)) as [k|] eqn:Hk.
  - intros [= <-]. pose proof (rfind_from_bounds _ _ _ _ Hk) as Hb.
    replace (S (k - i)) with (S (S (k - S i))) by lia. cbn [drop].
    exact (IH _ _ Hk).
  - destruct (x =? c); [|discriminate]. intros [= <-].
    rewrite Nat.sub_diag. cbn [drop]. exact (rfind_from_None _ _ _ Hk).
Qed.

Lemma basename_has_no_slash (p : str) : ~ In SLASH (basename p).
Proof.
  unfold basename, rfind. destruct (rfind_from SLASH p 0) as [i|] eqn:Hi.
  - apply rfind_from_last in Hi. now rewrite Nat.sub_0_r in Hi.
  - exact (rfind_from_None _ _ _ Hi).
Qed.

(** X15. [archive_audio] renames the file to a path directly inside the
    archive directory: the directory, a slash and the last component of the
    source path, which holds no slash.  It makes exactly that one call and
    returns or raises what the rename does. *)
Theorem archive_audio_stays_in_archive_dir (w : world) (file_path : str) (st : state) :
  let dest := ARCHIVE_DIR ++ [SLASH] ++ basename file_path in
  ~ In SLASH (basename file_path)
  /\ archive_audio w file_path st
     = (rename w file_path dest, add_event (EvArchive file_path dest) st).
Proof.
  cbv zeta. split; [apply basename_has_no_slash|].
  assert (Hjoin : path_join ARCHIVE_DIR (basename file_path)
                  = ARCHIVE_DIR ++ [SLASH] ++ basename file_path).
  { unfold path_join. pose proof (basename_has_no_slash file_path) as Hno.
    destruct (basename file_path) as [|c b]; [reflexivity|].
    cbn [startswith]. destruct (N.eqb_spec c SLASH) as [->|Hc].
    - exfalso. apply Hno. now left.
    - reflexivity. }
  unfold archive_audio. rewrite Hjoin. reflexivity.
Qed.

End ArchiveFacts.

(** ** The analysis and its tools *)

Section AnalysisFacts.
Import Pipeline.
Variable w : world.

(** A run that reaches the analysis ends on [error] when the analysis
    raises. *)
Lemma failed_analysis_ends_in_error
      (file_id raw_filename transcript : str) (st : state) (e : exn) :
  writable st ->
  download_recording w file_id (path_join DOWNLOAD_DIR (local_filename raw_filename))
  = Ok true ->
  (forall st1, writable st1 -> files st1 = files st ->
     fst (transcript_step w file_id (local_filename raw_filename)
            (path_join DOWNLOAD_DIR (local_filename raw_filename)) (strftime_now w) st1)
     = Ok transcript) ->
  Outcome.analysis w (local_filename raw_filename) transcript (strftime_now w) = Raise e ->
  let out := process_plaud_recording w file_id raw_filename st in
  fst out = Ok tt
  /\ stored_status (snd out) file_id = Some (lit "error")
  /\ last (status_trace (new_events st (snd out))) = Some (lit "error").
Proof.
  intros Hw Hd Ht Ha. cbv zeta.
  destruct (process_runs w file_id raw_filename st Hw) as (st' & E & G & s & Hs & Hlast).
  rewrite E. cbn [fst snd]. rewrite (status_trace_new_events _ _ _ G).
  assert (Hp : last (status_trace (Outcome.of_process w (files st) file_id raw_filename))
               = Some (lit "error")).
  { unfold Outcome.of_process.
    destruct (of_stages_reaches_analysis w file_id _ _ _ transcript st Hw Hd Ht) as [K ->].
    unfold Outcome.of_analyze_and_finish. rewrite Ha. cbn [fst snd].
    apply last_status_trace_snoc. }
  repeat split; [congruence | exact Hp].
Qed.

(** X16. Without an Anthropic API key in the settings,
    [create_document_via_claude] raises a [ValueError] before any request is
    sent to the LLM, and a run of the pipeline that reaches the analysis
    ends on [error]. *)
Theorem missing_api_key_fails_the_analysis
        (file_id raw_filename transcript : str) (st : state) :
  let filename := local_filename raw_filename in
  let file_path := path_join DOWNLOAD_DIR filename in
  let timestamp := strftime_now w in
  anthropic_api_key (load_config w) = [] ->
  (forall st1,
      create_document_via_claude w filename transcript timestamp st1
      = (Raise (Exn ValueError (lit "Anthropic API key not configured")),
         add_event (EvAnalyze filename transcript timestamp) st1))
  /\ (writable st ->
      download_recording w file_id file_path = Ok true ->
      (forall st1, writable st1 -> files st1 = files st ->
         fst (transcript_step w file_id filename file_path timestamp st1) = Ok transcript) ->
      stored_status (snd (process_plaud_recording w file_id raw_filename st)) file_id
      = Some (lit "error")).
Proof.
  intros filename file_path timestamp Hkey.
  assert (Hraise : forall st1,
             create_document_via_claude w filename transcript timestamp st1
             = (Raise (Exn ValueError (lit "Anthropic API key not configured")),
                add_event (EvAnalyze filename transcript timestamp) st1)).
  { intros st1. unfold create_document_via_claude.
    rewrite (bind_ok _ _ _ _ _ (emit_runs _ st1)). now rewrite Hkey. }
  split; [exact Hraise|]. intros Hw Hd Ht.
  refine (proj1 (proj2 (failed_analysis_ends_in_error file_id raw_filename transcript st
                          _ Hw Hd Ht _))).
  unfold Outcome.analysis. fold filename. fold timestamp. now rewrite Hraise.
Qed.

(** The paths of the documents written, in order. *)
Definition documents_written (L : list event) : list str :=
  omap (fun e => match e with EvDocument path => Some path | _ => None end) L.

(** The paths of the documents the results report as created, in order. *)
Definition documents_reported (results : list (str * tool_result)) : list str :=
  omap (fun r => match snd r with Created _ path => Some path | _ => None end) results.

(** The name and the path of the document that a call of
    [create_document] with the title writes: the sanitized first 200
    characters of the title, the timestamp of the run when there is one, and
    the extension, in the output directory. *)
Definition document_name (timestamp title : str) : str :=
  let safe_title := DocWriter._sanitize_filename (take MAX_TITLE_LENGTH title) in
  match timestamp with
  | [] => safe_title ++ lit ".docx"
  | _ => safe_title ++ lit "_" ++ timestamp ++ lit ".docx"
  end.

Definition document_path (timestamp title : str) : str :=
  path_join OUTPUT_DIR (document_name timestamp title).

(** The documents the calls of [create_document] among the blocks ask for,
    one for every call, in the order of the blocks. *)
Definition documents_asked (timestamp : str) (blocks : list block) : list str :=
  omap (fun b =>
          match b with
          | ToolUseBlock _ name input =>
            if bool_decide (name = lit "create_document")
            then Some (document_path timestamp (default [] (ti_title input)))
            else None
          | TextBlock _ => None
          end) blocks.

Lemma documents_written_app (L1 L2 : list event) :
  documents_written (L1 ++ L2) = documents_written L1 ++ documents_written L2.
Proof. apply omap_app. Qed.

Lemma upload_writes_no_document local_path folder_type st :
  exists st' L,
    _upload_to_gdrive w local_path folder_type st = (Ok tt, st')
    /\ events st' = events st ++ L /\ documents_written L = [].
Proof.
  unfold _upload_to_gdrive, try_except, bind, call.
  destruct (get_gdrive_client_from_config w local_path) as [[|]|e]; cbn [negb ret].
  - destruct (if bool_decide (folder_type = lit "documents")
              then gdrive_documents_folder_id (load_config w)
              else gdrive_recordings_folder_id (load_config w)) as [|c folder_id].
    + exists st, []. now rewrite app_nil_r.
    + cbn [emit modify].
      destruct (upload_file w local_path (c :: folder_id)) as [[]|e];
        (eexists _, [_]; split; [reflexivity|]; split; reflexivity).
  - exists st, []. now rewrite app_nil_r.
  - exists st, []. now rewrite app_nil_r.
Qed.

Lemma create_document_runs title content timestamp st :
  DocWriter.create_document w (take MAX_TITLE_LENGTH title) content OUTPUT_DIR timestamp st
  = (match save_document w (document_path timestamp title) with
     | Ok _ => Ok (document_name timestamp title, document_path timestamp title)
     | Raise e => Raise e
     end,
     add_event (EvDocument (document_path timestamp title)) st).
Proof.
  unfold DocWriter.create_document, document_path, document_name.
  set (filename := match timestamp with
                   | [] => _
                   | _ => _
                   end).
  rewrite (bind_ok _ _ _ _ _ (emit_runs _ st)).
  unfold bind, call, ret.
  now destruct (save_document w (path_join OUTPUT_DIR filename)) as [[]|e].
Qed.

(** What one tool call leaves: a call of [create_document] that returns has
    written the document its title asks for and reports it; another call
    writes and reports none. *)
Lemma handle_tool_call_documents timestamp id tool_name input st result st' :
  handle_tool_call w timestamp tool_name input st = (Ok result, st') ->
  exists L, events st' = events st ++ L
            /\ documents_written L
               = documents_asked timestamp [ToolUseBlock id tool_name input]
            /\ documents_reported [(id, result)]
               = documents_asked timestamp [ToolUseBlock id tool_name input].
Proof.
  unfold handle_tool_call, documents_asked. cbn [omap list_omap].
  destruct (bool_decide (tool_name = lit "create_document")).
  - destruct (ti_title input) as [title|]; [|discriminate].
    rewrite (bind_ok _ _ st title st eq_refl).
    destruct (ti_content input) as [content|]; [|discriminate].
    rewrite (bind_ok _ _ st content st eq_refl).
    pose proof (create_document_runs title content timestamp st) as Hcd.
    cbn [default].
    set (filepath := document_path timestamp title) in *.
    destruct (save_document w filepath) as [[]|e].
    2:{ now rewrite (bind_raise _ _ _ _ _ Hcd). }
    rewrite (bind_ok _ _ _ _ _ Hcd). cbn [fst snd].
    destruct (upload_writes_no_document filepath (lit "documents")
                (add_event (EvDocument filepath) st)) as (st1 & L & E & V & D).
    rewrite (bind_ok _ _ _ _ _ E). intros [= <- <-].
    exists (EvDocument filepath :: L). split; [|split].
    + rewrite V. cbn [events add_event]. now rewrite <- app_assoc.
    + change (documents_written (EvDocument filepath :: L))
        with (filepath :: documents_written L).
      now rewrite D.
    + reflexivity.
  - destruct (bool_decide (tool_name = lit "list_documents")).
    + unfold DocWriter.list_documents, bind, call, ret.
      destruct (listdir w); [|discriminate]. intros [= <- <-].
      exists []. now rewrite app_nil_r.
    + intros [= <- <-]. exists []. now rewrite app_nil_r.
Qed.

Lemma documents_asked_cons timestamp b blocks :
  documents_asked timestamp (b :: blocks)
  = documents_asked timestamp [b] ++ documents_asked timestamp blocks.
Proof. exact (omap_app _ [b] blocks). Qed.

(** What the tool calls of one response leave when they all return. *)
Lemma handle_blocks_documents timestamp blocks st results st' :
  handle_blocks w timestamp blocks st = (Ok results, st') ->
  exists L, events st' = events st ++ L
            /\ documents_written L = documents_asked timestamp blocks
            /\ documents_reported results = documents_asked timestamp blocks
            /\ length results
               = length (List.filter
                           (fun b => match b with
                                     | ToolUseBlock _ _ _ => true
                                     | _ => false
                                     end) blocks).
Proof.
  revert st st' results.
  induction blocks as [|[text|id name input] blocks IH]; intros st st' results;
    cbn [handle_blocks List.filter].
  - intros [= <- <-]. exists []. now rewrite app_nil_r.
  - apply IH.
  - destruct (handle_tool_call w timestamp name input st) as [[result|e] st1] eqn:Hcall.
    2:{ now rewrite (bind_raise _ _ _ _ _ Hcall). }
    rewrite (bind_ok _ _ _ _ _ Hcall).
    destruct (handle_blocks w timestamp blocks st1) as [[rest|e] st2] eqn:Hrest.
    2:{ now rewrite (bind_raise _ _ _ _ _ Hrest). }
    rewrite (bind_ok _ _ _ _ _ Hrest). intros [= <- <-].
    destruct (handle_tool_call_documents _ id _ _ _ _ _ Hcall) as (L1 & V1 & D1 & R1).
    destruct (IH _ _ _ Hrest) as (L2 & V2 & D2 & R2 & N2).
    exists (L1 ++ L2). split; [now rewrite V2, V1, app_assoc|].
    rewrite (documents_asked_cons timestamp (ToolUseBlock id name input) blocks).
    split; [|split].
    + now rewrite documents_written_app, D1, D2.
    + change (documents_reported ((id, result) :: rest))
        with (documents_reported ([(id, result)] ++ rest)).
      unfold documents_reported at 1. rewrite omap_app.
      fold (documents_reported [(id, result)]). fold (documents_reported rest).
      now rewrite R1, R2.
    + cbn [length]. now rewrite N2.
Qed.

(** X17. When the tool calls of a response are all handled without an
    exception, exactly one document is written for every call of
    [create_document] among the blocks, at the path made of the title of
    the call, in the order of the calls, and none for a call of
    [list_documents] or of an unknown tool; the results report these same
    documents as created, and there is one result for every [tool_use]
    block. *)
Theorem handle_blocks_writes_one_document_per_call
        (timestamp : str) (blocks : list block) (st st' : state)
        (results : list (str * tool_result)) :
  handle_blocks w timestamp blocks st = (Ok results, st') ->
  documents_written (new_events st st') = documents_asked timestamp blocks
  /\ documents_reported results = documents_asked timestamp blocks
  /\ length (documents_asked timestamp blocks)
     = length (List.filter calls_create_document blocks)
  /\ length results
     = length (List.filter (fun b => match b with ToolUseBlock _ _ _ => true | _ => false end)
                           blocks).
Proof.
  intros Hrun.
  destruct (handle_blocks_documents _ _ _ _ _ Hrun) as (L & V & D & R & N).
  split; [|split; [exact R|split; [|exact N]]].
  - unfold new_events. now rewrite V, drop_app_length.
  - clear. induction blocks as [|[text|id name input] blocks IH]; [reflexivity|exact IH|].
    rewrite documents_asked_cons. cbn [List.filter calls_create_document].
    unfold documents_asked at 1. cbn [omap list_omap].
    destruct (bool_decide (name = lit "create_document")); cbn [app length];
      [f_equal|]; exact IH.
Qed.

(** The tool calls of a response in which [create_document] is not called
    all return when the directory of the documents can be listed. *)
Lemma handle_blocks_without_document timestamp blocks names st :
  listdir w = Ok names ->
  forallb (fun b => negb (calls_create_document b)) blocks = true ->
  exists results st',
    handle_blocks w timestamp blocks st = (Ok results, st')
    /\ documents_asked timestamp blocks = [].
Proof.
  intros Hdir. revert st.
  induction blocks as [|[text|id name input] blocks IH]; intros st Hnone;
    cbn [handle_blocks]; cbn [forallb calls_create_document] in Hnone.
  - eexists _, _. split; reflexivity.
  - apply IH. exact Hnone.
  - apply andb_true_iff in Hnone as [Hname Hnone].
    apply negb_true_iff in Hname.
    assert (Hcall : exists result,
               handle_tool_call w timestamp name input st = (Ok result, st)).
    { unfold handle_tool_call. rewrite Hname.
      destruct (bool_decide (name = lit "list_documents")).
      - unfold DocWriter.list_documents, bind, call, ret. rewrite Hdir.
        eexists. reflexivity.
      - eexists. reflexivity. }
    destruct Hcall as [result Hcall]. rewrite (bind_ok _ _ _ _ _ Hcall).
    destruct (IH st Hnone) as (results & st' & Hrest & Hasked).
    rewrite (bind_ok _ _ _ _ _ Hrest). eexists _, _. split; [reflexivity|].
    rewrite documents_asked_cons, Hasked. unfold documents_asked. cbn [omap list_omap].
    now rewrite Hname.
Qed.

Lemma completion_without_document_returns timestamp script names :
  listdir w = Ok names ->
  completes_without_document script ->
  forall messages st,
  exists st' L,
    tool_use_loop w timestamp script messages st = (Ok tt, st')
    /\ events st' = events st ++ L
    /\ documents_written L = [].
Proof.
  intros Hdir. induction 1 as [r rest Hend|r rest Htool Hnone Hrest IH];
    intros messages st; cbn [tool_use_loop];
    rewrite (bind_ok _ _ _ _ _ (emit_runs _ st)).
  - rewrite (bool_decide_eq_true_2 _ Hend).
    exists (add_event (EvRequest messages) st), [EvRequest messages].
    repeat split.
  - rewrite Htool. rewrite bool_decide_eq_false_2 by (vm_compute; discriminate).
    rewrite bool_decide_eq_true_2 by reflexivity.
    destruct (handle_blocks_without_document timestamp (content r) names
                (add_event (EvRequest messages) st) Hdir Hnone)
      as (results & st1 & Hblocks & Hasked).
    rewrite (bind_ok _ _ _ _ _ Hblocks).
    destruct (handle_blocks_documents _ _ _ _ _ Hblocks) as (L1 & V1 & D1 & _).
    destruct (IH (messages ++ [AssistantContent (content r); UserToolResults results]) st1)
      as (st2 & L2 & Hloop & V2 & D2).
    exists st2, ([EvRequest messages] ++ L1 ++ L2). split; [exact Hloop|]. split.
    + rewrite V2, V1. cbn [events add_event]. now rewrite <- !app_assoc.
    + rewrite !documents_written_app, D1, Hasked, D2. reflexivity.
Qed.

(** A run that reaches the analysis ends on [processed] when the analysis
    and the archive return. *)
Lemma successful_analysis_ends_in_processed
      (file_id raw_filename transcript : str) (st : state) :
  writable st ->
  download_recording w file_id (path_join DOWNLOAD_DIR (local_filename raw_filename))
  = Ok true ->
  (forall st1, writable st1 -> files st1 = files st ->
     fst (transcript_step w file_id (local_filename raw_filename)
            (path_join DOWNLOAD_DIR (local_filename raw_filename)) (strftime_now w) st1)
     = Ok transcript) ->
  Outcome.analysis w (local_filename raw_filename) transcript (strftime_now w) = Ok tt ->
  rename w (path_join DOWNLOAD_DIR (local_filename raw_filename))
         (path_join ARCHIVE_DIR
                    (basename (path_join DOWNLOAD_DIR (local_filename raw_filename))))
  = Ok tt ->
  let out := process_plaud_recording w file_id raw_filename st in
  fst out = Ok tt
  /\ stored_status (snd out) file_id = Some (lit "processed")
  /\ last (status_trace (new_events st (snd out))) = Some (lit "processed").
Proof.
  intros Hw Hd Ht Ha Hr. cbv zeta.
  destruct (process_runs w file_id raw_filename st Hw) as (st' & E & G & s & Hs & Hlast).
  rewrite E. cbn [fst snd]. rewrite (status_trace_new_events _ _ _ G).
  assert (Hp : last (status_trace (Outcome.of_process w (files st) file_id raw_filename))
               = Some (lit "processed")).
  { unfold Outcome.of_process.
    destruct (of_stages_reaches_analysis w file_id _ _ _ transcript st Hw Hd Ht) as [K ->].
    unfold Outcome.of_analyze_and_finish. rewrite Ha, Hr. cbn [fst snd].
    rewrite !app_assoc. apply last_status_trace_snoc. }
  repeat split; [congruence | exact Hp].
Qed.

(** C1. The code does not do what the claim says.  When the conversation
    ends on the completion signal and [create_document] was never called in
    it, [create_document_via_claude] returns normally without having
    written any document, and a run that reaches the analysis and whose
    archive succeeds ends on [processed], not on [error]: the loop leaves on
    [end_turn] without looking at whether a document was created. *)
Theorem completion_without_document_is_success
        (file_id raw_filename transcript : str) (st : state) (names : list str) :
  let filename := local_filename raw_filename in
  let file_path := path_join DOWNLOAD_DIR filename in
  let timestamp := strftime_now w in
  anthropic_api_key (load_config w) <> [] ->
  listdir w = Ok names ->
  completes_without_document (messages_create w) ->
  (forall st1,
      let done := create_document_via_claude w filename transcript timestamp st1 in
      fst done = Ok tt
      /\ documents_written (new_events st1 (snd done)) = [])
  /\ (writable st ->
      download_recording w file_id file_path = Ok true ->
      (forall st1, writable st1 -> files st1 = files st ->
         fst (transcript_step w file_id filename file_path timestamp st1) = Ok transcript) ->
      rename w file_path (path_join ARCHIVE_DIR (basename file_path)) = Ok tt ->
      let out := process_plaud_recording w file_id raw_filename st in
      fst out = Ok tt
      /\ stored_status (snd out) file_id = Some (lit "processed")
      /\ last (status_trace (new_events st (snd out))) = Some (lit "processed")).
Proof.
  intros filename file_path timestamp Hkey Hdir Hdone.
  assert (Hanalysis : forall st1,
             let done := create_document_via_claude w filename transcript timestamp st1 in
             fst done = Ok tt
             /\ documents_written (new_events st1 (snd done)) = []).
  { intros st1. cbv zeta. unfold create_document_via_claude.
    rewrite (bind_ok _ _ _ _ _ (emit_runs _ st1)).
    destruct (anthropic_api_key (load_config w)) as [|c key]; [congruence|].
    match goal with
    | |- context [tool_use_loop w timestamp (messages_create w) ?m ?s] =>
      destruct (completion_without_document_returns timestamp (messages_create w) names
                  Hdir Hdone m s) as (st2 & L & Hloop & V & D)
    end.
    rewrite Hloop. cbn [fst snd]. split; [reflexivity|].
    unfold new_events. rewrite V. cbn [events add_event].
    rewrite <- app_assoc, drop_app_length, documents_written_app, D. reflexivity. }
  split; [exact Hanalysis|]. intros Hw Hd Ht Hr.
  apply (successful_analysis_ends_in_processed file_id raw_filename transcript st Hw Hd Ht);
    [|exact Hr].
  unfold Outcome.analysis. apply Hanalysis.
Qed.

End AnalysisFacts.

Lemma missing_api_key_fails_the_analysis_witness :
  Pipeline.create_document_via_claude Cases.world_without_key
    (Pipeline.local_filename (lit "Team sync")) (lit "[01:15] hello there")
    (lit "20240501_1030") Sample.fresh
  = (Raise (Exn ValueError (lit "Anthropic API key not configured")),
     add_event (EvAnalyze (Pipeline.local_filename (lit "Team sync"))
                          (lit "[01:15] hello there") (lit "20240501_1030"))
               Sample.fresh).
Proof.
  apply (proj1 (missing_api_key_fails_the_analysis Cases.world_without_key
                  (lit "rec1") (lit "Team sync") (lit "[01:15] hello there")
                  Sample.fresh eq_refl)).
Defined.

Lemma handle_blocks_writes_one_document_per_call_witness :
  let out := Pipeline.handle_blocks (Sample.world_with (Ok tt) Sample.creates_document)
               (lit "20240501_1030") Cases.mixed_blocks Sample.fresh in
  exists results,
    fst out = Ok results
    /\ documents_written (new_events Sample.fresh (snd out))
       = [lit "/tmp/claudioscribe/Team sync notes_20240501_1030.docx"]
    /\ documents_reported results
       = [lit "/tmp/claudioscribe/Team sync notes_20240501_1030.docx"]
    /\ length results = 3%nat.
Proof.
  cbv zeta.
  destruct (Pipeline.handle_blocks (Sample.world_with (Ok tt) Sample.creates_document)
              (lit "20240501_1030") Cases.mixed_blocks Sample.fresh)
    as [[results|e] st'] eqn:Hrun.
  - destruct (handle_blocks_writes_one_document_per_call
                (Sample.world_with (Ok tt) Sample.creates_document)
                (lit "20240501_1030") Cases.mixed_blocks Sample.fresh st' results Hrun)
      as (Hdocs & Hreported & _ & Hlen).
    exists results. split; [reflexivity|]. cbn [fst snd].
    rewrite Hdocs, Hreported, Hlen. repeat split; vm_compute; reflexivity.
  - vm_compute in Hrun. discriminate.
Defined.

(** The LLM signals completion at once: no document is written and the run
    ends on [processed]. *)
Lemma completion_without_document_is_success_witness :
  let w := Sample.world_with (Ok tt) Sample.declines in
  let done := Pipeline.create_document_via_claude
                w (lit "Team sync.mp3") (lit "[01:15] hello there") (lit "20240501_1030")
                Sample.fresh in
  let out := Pipeline.process_plaud_recording w (lit "rec1") (lit "Team sync")
                                              Sample.fresh in
  (fst done = Ok tt /\ documents_written (new_events Sample.fresh (snd done)) = [])
  /\ stored_status (snd out) (lit "rec1") = Some (lit "processed").
Proof.
  cbv zeta.
  destruct (completion_without_document_is_success
              (Sample.world_with (Ok tt) Sample.declines)
              (lit "rec1") (lit "Team sync") (lit "[01:15] hello there") Sample.fresh [])
    as (Hdone & Hrun).
  - discriminate.
  - reflexivity.
  - apply completes_now. reflexivity.
  - split; [exact (Hdone Sample.fresh)|].
    refine (proj1 (proj2 (Hrun _ _ _ _))).
    + exists ∅. reflexivity.
    + reflexivity.
    + intros st1 Hw Hfiles.
      destruct (transcript_step_runs
                  (Sample.world_with (Ok tt) Sample.declines)
                  (lit "rec1") (Pipeline.local_filename (lit "Team sync"))
                  (path_join Pipeline.DOWNLOAD_DIR (Pipeline.local_filename (lit "Team sync")))
                  (lit "20240501_1030") st1 Hw) as (st2 & E & _).
      cbv zeta. change (strftime_now _) with (lit "20240501_1030").
      rewrite E, Hfiles. vm_compute. reflexivity.
    + reflexivity.
Defined.

(** ** The settings *)

Section SettingsFacts.
Import Settings.

Definition API_KEY : str := lit "anthropic_api_key".
Definition LOG_LEVEL : str := lit "log_level".

Lemma defaults_lookup (k : str) : is_Some (dict DEFAULTS !! k) <-> k ∈ DEFAULTS.*1.
Proof.
  unfold dict. split.
  - intros H. destruct (decide (k ∈ DEFAULTS.*1)) as [|Hn]; [assumption|].
    apply not_elem_of_list_to_map_1 in Hn.
    rewrite Hn in H. now destruct H.
  - intros H. apply not_eq_None_Some. intros Hn.
    now apply not_elem_of_list_to_map in Hn.
Qed.

Lemma recognized_lookup (data : settings) (keys : list str) (config : settings) (k : str) :
  foldl (fun config key =>
           match data !! key with
           | Some value => <[key := value]> config
           | None => config
           end) config keys !! k
  = if decide (k ∈ keys)
    then match data !! k with Some v => Some v | None => config !! k end
    else config !! k.
Proof.
  revert config. induction keys as [|key keys IH]; intros config; cbn [foldl].
  - destruct (decide (k ∈ [])) as [H|]; [inversion H|reflexivity].
  - rewrite IH.
    destruct (decide (k = key)) as [->|Hne].
    + destruct (decide (key ∈ key :: keys)) as [_|Hn]; [|destruct Hn; left].
      destruct (data !! key) as [v|] eqn:E.
      * destruct (decide (key ∈ keys)); [reflexivity|apply lookup_insert_eq].
      * now destruct (decide (key ∈ keys)).
    + assert (Hk : match data !! key with
                   | Some value => <[key:=value]> config
                   | None => config
                   end !! k = config !! k).
      { destruct (data !! key); [now apply lookup_insert_ne|reflexivity]. }
      rewrite Hk.
      destruct (decide (k ∈ keys)) as [Hin|Hnin].
      * destruct (decide (k ∈ key :: keys)) as [_|Hn]; [reflexivity|].
        destruct Hn. now right.
      * destruct (decide (k ∈ key :: keys)) as [Hin|_]; [|reflexivity].
        apply elem_of_cons in Hin as [?|?]; contradiction.
Qed.

Lemma recognized_names (data : settings) (k : str) :
  is_Some (recognized data (dict DEFAULTS) !! k) <-> k ∈ DEFAULTS.*1.
Proof.
  unfold recognized. rewrite recognized_lookup.
  destruct (decide (k ∈ DEFAULTS.*1)) as [Hin|Hnin].
  - split; [auto|intros _]. destruct (data !! k); [eauto|]. now apply defaults_lookup.
  - rewrite defaults_lookup. tauto.
Qed.

Lemma level_is_a_name : LOG_LEVEL ∈ DEFAULTS.*1.
Proof. do 2 apply list_elem_of_further. apply list_elem_of_here. Qed.

Lemma api_key_is_a_name : API_KEY ∈ DEFAULTS.*1.
Proof. apply list_elem_of_here. Qed.

Lemma save_config_steps open_file data f :
  save_config open_file data f
  = match recognized data (dict DEFAULTS) !! LOG_LEVEL with
    | None => (Raise (Exn KeyError (lit "'log_level'")), f)
    | Some level =>
      match not_in_valid_levels level with
      | Raise e => (Raise e, f)
      | Ok invalid =>
        match open_file with
        | Raise e => (Raise e, f)
        | Ok _ =>
          (Ok (if invalid
               then <[LOG_LEVEL := JStr (lit "INFO")]> (recognized data (dict DEFAULTS))
               else recognized data (dict DEFAULTS)),
           Holding (Object
                      (if invalid
                       then <[LOG_LEVEL := JStr (lit "INFO")]>
                              (recognized data (dict DEFAULTS))
                       else recognized data (dict DEFAULTS))))
        end
      end
    end.
Proof.
  unfold save_config. fold LOG_LEVEL.
  destruct (recognized data (dict DEFAULTS) !! LOG_LEVEL) as [level|]; [|reflexivity].
  destruct (not_in_valid_levels level) as [invalid|e]; [|reflexivity].
  now destruct open_file.
Qed.

Lemma default_level : dict DEFAULTS !! LOG_LEVEL = Some (JStr (lit "INFO")).
Proof. vm_compute. reflexivity. Qed.

(** What [save_config] returns when it returns. *)
Lemma save_config_returns open_file data f config f' :
  save_config open_file data f = (Ok config, f') ->
  f' = Holding (Object config)
  /\ (exists s, config !! LOG_LEVEL = Some (JStr s) /\ s ∈ valid_levels)
  /\ (forall k, k <> LOG_LEVEL -> config !! k = recognized data (dict DEFAULTS) !! k).
Proof.
  rewrite save_config_steps.
  set (base := recognized data (dict DEFAULTS)).
  destruct (base !! LOG_LEVEL) as [level|] eqn:El; [|discriminate].
  destruct (not_in_valid_levels level) as [invalid|e] eqn:Ev; [|discriminate].
  destruct open_file as [[]|e]; [|discriminate].
  destruct invalid; intros Hpair;
    apply pair_equal_spec in Hpair as [Hconfig Hfile];
    apply (f_equal (fun r => match r with Ok c => c | Raise _ => base end)) in Hconfig;
    cbv beta iota in Hconfig; subst config; subst f'; (split; [reflexivity|]).
  - split.
    + exists (lit "INFO"). split; [apply lookup_insert_eq|].
      apply list_elem_of_further, list_elem_of_here.
    + intros k Hk. now apply lookup_insert_ne.
  - split; [|reflexivity].
    destruct level as [| | | |s| |]; try discriminate. exists s. split; [exact El|].
    injection Ev as Ev. apply negb_false_iff in Ev. now apply bool_decide_eq_true_1 in Ev.
Qed.

(** What [dict.update] raises on a value that is no dictionary is a
    [TypeError] or a [ValueError], which the [except] clause of
    [load_config] does not catch. *)
Lemma pairs_raises (items : list json) (index : nat) (added : settings) (e : exn) :
  pairs items index added = Raise e ->
  exn_class e = TypeError \/ exn_class e = ValueError.
Proof.
  revert index added. induction items as [|item items IH]; intros index added;
    cbn [pairs]; [discriminate|].
  destruct (elements item) as [[|key [|value [|extra parts]]]|];
    try (intros [= <-]; cbn; auto; fail).
  destruct key; try apply IH; intros [= <-]; cbn; auto.
Qed.

Lemma entries_raises (saved : saved_value) (e : exn) :
  entries saved = Raise e ->
  (exists value, saved = Other value)
  /\ (exn_class e = TypeError \/ exn_class e = ValueError).
Proof.
  destruct saved as [dictionary|value]; cbn [entries]; [discriminate|].
  intros H. split; [eauto|].
  destruct value; cbn [elements] in H;
    try (injection H as <-; cbn; auto; fail);
    try discriminate H; exact (pairs_raises _ _ _ _ H).
Qed.

Lemma update_is_not_caught (e : exn) :
  exn_class e = TypeError \/ exn_class e = ValueError ->
  caught_by e [JSONDecodeError; OSError] = false.
Proof. destruct e as [c m]. cbn [exn_class]. now intros [->| ->]. Qed.

(** The settings read from the file, before the environment is looked
    at. *)
Definition read_settings (f : stored saved_value) : result settings :=
  match f with
  | Absent => Ok (dict DEFAULTS)
  | Damaged e => if caught_by e [JSONDecodeError; OSError] then Ok (dict DEFAULTS) else Raise e
  | Holding saved =>
    match entries saved with
    | Raise e => Raise e
    | Ok added => Ok (added ∪ dict DEFAULTS)
    end
  end.

Lemma load_config_reads (env_key : option str) (f : stored saved_value) :
  load_config env_key f
  = match read_settings f with
    | Raise e => Raise e
    | Ok config =>
      match env_key with
      | Some (c :: key) => Ok (<[API_KEY := JStr (c :: key)]> config)
      | _ => Ok config
      end
    end.
Proof.
  unfold load_config, read_settings, update. destruct f as [|e|saved]; try reflexivity.
  destruct (entries saved) as [added|e] eqn:He; [reflexivity|].
  destruct (entries_raises _ _ He) as [_ Hclass].
  now rewrite (update_is_not_caught e Hclass).
Qed.

Lemma read_settings_names (f : stored saved_value) (config : settings) :
  read_settings f = Ok config ->
  forall k, k ∈ DEFAULTS.*1 -> is_Some (config !! k).
Proof.
  assert (Hd : forall k, k ∈ DEFAULTS.*1 -> is_Some (dict DEFAULTS !! k))
    by (intros k; apply defaults_lookup).
  unfold read_settings. destruct f as [|e|saved].
  - now intros [= <-].
  - destruct (caught_by e [JSONDecodeError; OSError]); [|discriminate]. now intros [= <-].
  - destruct (entries saved) as [added|e]; [|discriminate]. intros [= <-] k Hk.
    apply lookup_union_is_Some. right. now apply Hd.
Qed.

Lemma load_config_returns_names env_key f config :
  load_config env_key f = Ok config ->
  forall k, k ∈ DEFAULTS.*1 -> is_Some (config !! k).
Proof.
  rewrite load_config_reads.
  destruct (read_settings f) as [config0|e] eqn:Hread; [|discriminate].
  pose proof (read_settings_names f config0 Hread) as H0.
  destruct env_key as [[|c key]|]; intros [= <-]; try exact H0.
  intros k Hk. apply lookup_insert_is_Some'. right. now apply H0.
Qed.

(** X18. [load_config] raises in two cases only: reading the settings file
    raises something other than a [json.JSONDecodeError] or an [OSError], or
    the file holds a JSON value that is no object and that [dict.update]
    refuses with a [TypeError] or a [ValueError], which the [except] clause
    does not catch.  A file that holds a JSON object is always read; a file
    that holds a number, a boolean or [null] always makes [load_config]
    raise a [TypeError].  Whenever [load_config] returns, every name of
    [DEFAULTS] has a value in the result. *)
Theorem load_config_fills_in_every_name
        (env_key : option str) (f : stored saved_value) :
  match load_config env_key f with
  | Raise e =>
    (f = Damaged e /\ caught_by e [JSONDecodeError; OSError] = false)
    \/ (exists value,
           f = Holding (Other value)
           /\ (forall items, value <> JDict items)
           /\ entries (Other value) = Raise e
           /\ (exn_class e = TypeError \/ exn_class e = ValueError))
  | Ok config => forall k, k ∈ DEFAULTS.*1 -> is_Some (config !! k)
  end
  /\ (forall saved, exists config, load_config env_key (Holding (Object saved)) = Ok config)
  /\ (forall value,
        match value with JNull | JBool _ | JInt _ | JFloat _ => True | _ => False end ->
        exists e, load_config env_key (Holding (Other value)) = Raise e
                  /\ exn_class e = TypeError).
Proof.
  split; [|split].
  - destruct (load_config env_key f) as [config|e] eqn:Hload.
    + exact (load_config_returns_names env_key f config Hload).
    + rewrite load_config_reads in Hload.
      destruct (read_settings f) as [config0|e0] eqn:Hread.
      { destruct env_key as [[|c key]|]; discriminate Hload. }
      injection Hload as ->. unfold read_settings in Hread.
      destruct f as [|e1|saved]; [discriminate| |].
      * destruct (caught_by e1 [JSONDecodeError; OSError]) eqn:Hc; [discriminate|].
        injection Hread as ->. now left.
      * destruct (entries saved) as [added|e1] eqn:He; [discriminate|].
        injection Hread as ->.
        destruct (entries_raises _ _ He) as [[value ->] Hclass].
        right. exists value. repeat split; auto.
        intros items ->. discriminate He.
  - intros saved. rewrite load_config_reads. cbn [read_settings entries].
    destruct env_key as [[|c key]|]; eauto.
  - intros value Hscalar. rewrite load_config_reads. cbn [read_settings].
    destruct value; try contradiction; cbn [entries elements];
      (eexists; split; [reflexivity|reflexivity]).
Qed.

(** X19. The key of the LLM that [load_config] returns is the environment
    variable when it is set and not empty, whatever the file holds;
    otherwise the value of the file when the file has one (the value of the
    object, or the value a sequence of pairs gives the name); otherwise the
    empty default.  No other name is affected by the environment. *)
Theorem load_config_key_precedence
        (env_key : option str) (f : stored saved_value) (config : settings) :
  load_config env_key f = Ok config ->
  config !! API_KEY
  = Some (match env_key with
          | Some (c :: key) => JStr (c :: key)
          | _ =>
            match f with
            | Holding (Object saved) => default (JStr []) (saved !! API_KEY)
            | Holding (Other value) =>
              match entries (Other value) with
              | Ok added => default (JStr []) (added !! API_KEY)
              | Raise _ => JStr []
              end
            | _ => JStr []
            end
          end)
  /\ exists config0,
      load_config None f = Ok config0
      /\ forall k, k <> API_KEY -> config !! k = config0 !! k.
Proof.
  rewrite !load_config_reads.
  destruct (read_settings f) as [config0|e] eqn:Hread; [|discriminate].
  assert (Hdefault : dict DEFAULTS !! API_KEY = Some (JStr []))
    by (vm_compute; reflexivity).
  assert (Hadded : forall added : settings,
             (added ∪ dict DEFAULTS) !! API_KEY
             = Some (default (JStr []) (added !! API_KEY))).
  { intros added. rewrite lookup_union, Hdefault.
    now destruct (added !! API_KEY) as [v|]. }
  assert (Hkey : config0 !! API_KEY
                 = Some match f with
                        | Holding (Object saved) => default (JStr []) (saved !! API_KEY)
                        | Holding (Other value) =>
                          match entries (Other value) with
                          | Ok added => default (JStr []) (added !! API_KEY)
                          | Raise _ => JStr []
                          end
                        | _ => JStr []
                        end).
  { unfold read_settings in Hread. destruct f as [|e|[saved|value]].
    - apply (f_equal (fun r => match r with Ok c => c !! API_KEY | Raise _ => None end))
        in Hread. cbv beta iota in Hread. now rewrite <- Hread.
    - destruct (caught_by e [JSONDecodeError; OSError]); [|discriminate].
      apply (f_equal (fun r => match r with Ok c => c !! API_KEY | Raise _ => None end))
        in Hread. cbv beta iota in Hread. now rewrite <- Hread.
    - cbn [entries] in Hread.
      apply (f_equal (fun r => match r with Ok c => c !! API_KEY | Raise _ => None end))
        in Hread. cbv beta iota in Hread. rewrite <- Hread. apply Hadded.
    - destruct (entries (Other value)) as [added|e]; [|discriminate].
      apply (f_equal (fun r => match r with Ok c => c !! API_KEY | Raise _ => None end))
        in Hread. cbv beta iota in Hread. rewrite <- Hread. apply Hadded. }
  intros Hc. split.
  - destruct env_key as [[|c key]|]; injection Hc as <-; try exact Hkey.
    apply lookup_insert_eq.
  - exists config0. split; [reflexivity|]. intros k Hk.
    destruct env_key as [[|c key]|]; injection Hc as <-; try reflexivity.
    now apply lookup_insert_ne.
Qed.

(** X20. What [save_config] returns and writes holds the names of
    [DEFAULTS] and no other: a name it does not recognise is dropped, a
    recognised name keeps the value given or gets its default, and the
    level of the log is always one of the four valid levels. *)
Theorem save_config_keeps_recognized_names
        (open_file : result unit) (data : settings) (f f' : stored saved_value)
        (config : settings) :
  save_config open_file data f = (Ok config, f') ->
  f' = Holding (Object config)
  /\ (forall k, is_Some (config !! k) <-> k ∈ DEFAULTS.*1)
  /\ (exists s, config !! LOG_LEVEL = Some (JStr s) /\ s ∈ valid_levels)
  /\ (forall k, k ∈ DEFAULTS.*1 -> k <> LOG_LEVEL ->
        config !! k = match data !! k with
                      | Some v => Some v
                      | None => dict DEFAULTS !! k
                      end).
Proof.
  intros Hs. destruct (save_config_returns _ _ _ _ _ Hs) as (Hf & Hl & Hk).
  split; [exact Hf|]. split; [|split; [exact Hl|]].
  - intros k. destruct (decide (k = LOG_LEVEL)) as [->|Hne].
    + destruct Hl as (s & -> & _). split; [intros _; apply level_is_a_name|eauto].
    + rewrite (Hk k Hne). apply recognized_names.
  - intros k Hin Hne. rewrite (Hk k Hne). unfold recognized.
    rewrite recognized_lookup. now destruct (decide (k ∈ DEFAULTS.*1)).
Qed.

(** X21. What [save_config] has written is what [load_config] reads back
    when the environment sets no key, and saving what was returned again
    returns and writes the same settings. *)
Theorem save_config_round_trip
        (open_file : result unit) (data : settings) (f f' : stored saved_value)
        (config : settings) :
  save_config open_file data f = (Ok config, f') ->
  load_config None f' = Ok config
  /\ save_config open_file config f' = (Ok config, f').
Proof.
  intros Hs. destruct (save_config_returns _ _ _ _ _ Hs) as (-> & (s & Hl & Hv) & Hk).
  assert (Hnames : forall k, is_Some (config !! k) <-> k ∈ DEFAULTS.*1).
  { intros k. destruct (decide (k = LOG_LEVEL)) as [->|Hne].
    - rewrite Hl. split; [intros _; apply level_is_a_name|eauto].
    - rewrite (Hk k Hne). apply recognized_names. }
  split.
  - rewrite load_config_reads. cbn [read_settings entries]. f_equal.
    apply map_eq. intros k.
    rewrite lookup_union. destruct (config !! k) as [v|] eqn:E.
    + now destruct (dict DEFAULTS !! k).
    + destruct (dict DEFAULTS !! k) as [v|] eqn:Ed; [|reflexivity].
      assert (Hin : k ∈ DEFAULTS.*1) by (apply defaults_lookup; eauto).
      apply Hnames in Hin. rewrite E in Hin. now destruct Hin.
  - assert (Hsame : recognized config (dict DEFAULTS) = config).
    { apply map_eq. intros k. unfold recognized. rewrite recognized_lookup.
      destruct (decide (k ∈ DEFAULTS.*1)) as [Hin|Hnin].
      - apply Hnames in Hin as [v Hv']. now rewrite Hv'.
      - destruct (config !! k) as [v|] eqn:E.
        + destruct Hnin. apply Hnames. eauto.
        + destruct (dict DEFAULTS !! k) as [v|] eqn:Ed; [|reflexivity].
          destruct Hnin. apply defaults_lookup. eauto. }
    assert (Hopen : open_file = Ok tt).
    { rewrite save_config_steps in Hs.
      destruct (recognized data (dict DEFAULTS) !! LOG_LEVEL) as [level|]; [|discriminate Hs].
      destruct (not_in_valid_levels level); [|discriminate Hs].
      destruct open_file as [[]|e]; [reflexivity|discriminate Hs]. }
    assert (Hvalid : not_in_valid_levels (JStr s) = Ok false).
    { unfold not_in_valid_levels. now rewrite (bool_decide_eq_true_2 _ Hv). }
    rewrite save_config_steps, Hsame, Hl, Hvalid, Hopen. reflexivity.
Qed.

(** X22. [save_config] raises in two cases only: the level of the log given
    is a list or a dictionary, which the test of membership cannot hash (a
    [TypeError]), or the file cannot be opened for writing.  In both cases
    the settings file is left as it was. *)
Theorem save_config_failure_leaves_the_file
        (open_file : result unit) (data : settings) (f f' : stored saved_value) (e : exn) :
  save_config open_file data f = (Raise e, f') ->
  f' = f
  /\ ((exn_class e = TypeError
       /\ exists v, data !! LOG_LEVEL = Some v
                    /\ match v with JList _ | JDict _ => True | _ => False end)
      \/ open_file = Raise e).
Proof.
  rewrite save_config_steps.
  destruct (recognized data (dict DEFAULTS) !! LOG_LEVEL) as [level|] eqn:El.
  2:{ assert (H : is_Some (recognized data (dict DEFAULTS) !! LOG_LEVEL))
        by (apply recognized_names, level_is_a_name).
      rewrite El in H. now destruct H. }
  unfold recognized in El. rewrite recognized_lookup in El.
  destruct (decide (LOG_LEVEL ∈ DEFAULTS.*1)) as [_|Hn];
    [|destruct Hn; apply level_is_a_name].
  destruct (not_in_valid_levels level) as [invalid|e'] eqn:Ev.
  - destruct open_file as [[]|e']; [discriminate|]. intros [= <- <-]. auto.
  - intros [= <- <-]. split; [reflexivity|]. left.
    destruct (data !! LOG_LEVEL) as [v|] eqn:Ed.
    + injection El as ->.
      destruct level; try discriminate; injection Ev as <-;
        (split; [reflexivity|eexists; split; [reflexivity|exact I]]).
    + rewrite default_level in El. injection El as <-. discriminate.
Qed.

Lemma clearing_keeps (items : list (str * json)) (config : settings) (k : str) :
  k ∉ items.*1 ->
  foldl (fun config item => <[fst item := snd item]> config) config items !! k
  = config !! k.
Proof.
  revert config. induction items as [|[k' v'] items IH]; intros config Hk; [reflexivity|].
  cbn [foldl fst snd]. rewrite fmap_cons in Hk. apply not_elem_of_cons in Hk as [Hne Hk].
  rewrite (IH _ Hk). apply lookup_insert_ne. cbn [fst] in Hne. congruence.
Qed.

Lemma clearing_sets (items : list (str * json)) (config : settings) (k : str) (v : json) :
  NoDup (items.*1) -> (k, v) ∈ items ->
  foldl (fun config item => <[fst item := snd item]> config) config items !! k
  = Some v.
Proof.
  revert config. induction items as [|[k' v'] items IH]; intros config Hnd Hin.
  - inversion Hin.
  - rewrite fmap_cons in Hnd. apply NoDup_cons in Hnd as [Hfresh Hnd].
    cbn [foldl fst snd]. apply elem_of_cons in Hin as [[= -> ->]|Hin].
    + rewrite (clearing_keeps _ _ _ Hfresh). apply lookup_insert_eq.
    + now apply IH.
Qed.

Lemma cleared_distinct : NoDup (cleared.*1).
Proof. refine (@bool_decide_unpack (NoDup _) _ _). vm_compute. exact I. Qed.

Lemma cleared_are_names :
  Forall (fun item => fst item ∈ DEFAULTS.*1 /\ fst item <> LOG_LEVEL) cleared.
Proof.
  refine (@bool_decide_unpack (Forall (fun item => fst item ∈ DEFAULTS.*1
                                                   /\ fst item <> LOG_LEVEL) cleared) _ _).
  vm_compute. exact I.
Qed.

(** X23. When [google_disconnect] succeeds, the settings file holds the
    cleared values for the seven settings of the drive; every other
    recognised name but the level of the log holds what [load_config]
    returned, so a key taken from the environment is now written in the
    file; and no name outside [DEFAULTS] is left in the file. *)
Theorem google_disconnect_clears_the_drive
        (env_key : option str) (open_file : result unit) (f f' : stored saved_value) :
  google_disconnect env_key open_file f = (Ok tt, f') ->
  exists loaded config,
    load_config env_key f = Ok loaded
    /\ f' = Holding (Object config)
    /\ (forall k v, (k, v) ∈ cleared -> config !! k = Some v)
    /\ (forall k, k ∈ DEFAULTS.*1 -> k ∉ cleared.*1 -> k <> LOG_LEVEL ->
          config !! k = loaded !! k)
    /\ (forall c key, env_key = Some (c :: key) ->
          config !! API_KEY = Some (JStr (c :: key)))
    /\ (forall k, is_Some (config !! k) -> k ∈ DEFAULTS.*1).
Proof.
  unfold google_disconnect.
  destruct (load_config env_key f) as [loaded|e] eqn:Hload; [|discriminate].
  set (data := foldl (fun config item => <[fst item := snd item]> config) loaded cleared).
  destruct (save_config open_file data f) as [[config|e] f1] eqn:Hsave; [|discriminate].
  intros [= <-]. exists loaded, config.
  destruct (save_config_returns _ _ _ _ _ Hsave) as (Hf & (s & Hl & Hv) & Hk).
  assert (Hother : forall k, k ∈ DEFAULTS.*1 -> k ∉ cleared.*1 -> k <> LOG_LEVEL ->
                             config !! k = loaded !! k).
  { intros k Hin Hnc Hne. rewrite (Hk k Hne). unfold recognized.
    rewrite recognized_lookup. destruct (decide (k ∈ DEFAULTS.*1)); [|contradiction].
    unfold data. rewrite (clearing_keeps _ _ _ Hnc).
    pose proof (load_config_returns_names env_key f loaded Hload k Hin) as [v Hv'].
    now rewrite Hv'. }
  split; [reflexivity|]. split; [exact Hf|]. split; [|split; [exact Hother|split]].
  - intros k v Hin.
    pose proof (proj1 (Forall_forall _ _) cleared_are_names (k, v) Hin) as [Hname Hne].
    cbn [fst] in Hname, Hne. rewrite (Hk k Hne). unfold recognized.
    rewrite recognized_lookup. destruct (decide (k ∈ DEFAULTS.*1)); [|contradiction].
    unfold data. now rewrite (clearing_sets _ _ _ _ cleared_distinct Hin).
  - intros c key ->. rewrite (Hother API_KEY api_key_is_a_name).
    + rewrite load_config_reads in Hload.
      destruct (read_settings f) as [config0|e]; [|discriminate].
      injection Hload as <-. apply lookup_insert_eq.
    + intros Hin. apply (bool_decide_pack _) in Hin. vm_compute in Hin. exact Hin.
    + discriminate.
  - intros k Hsome. destruct (decide (k = LOG_LEVEL)) as [->|Hne].
    + apply level_is_a_name.
    + rewrite (Hk k Hne) in Hsome. now apply (recognized_names data).
Qed.

End SettingsFacts.

Lemma load_config_key_precedence_witness :
  exists config,
    Settings.load_config (Some (lit "sk-env"))
                         (Holding (Settings.Object Cases.saved_settings)) = Ok config
    /\ config !! API_KEY = Some (JStr (lit "sk-env")).
Proof.
  exists (<[API_KEY := JStr (lit "sk-env")]>
            (Cases.saved_settings ∪ Settings.dict Settings.DEFAULTS)).
  split; [reflexivity|].
  apply (proj1 (load_config_key_precedence (Some (lit "sk-env"))
                  (Holding (Settings.Object Cases.saved_settings)) _ eq_refl)).
Defined.

Lemma save_config_keeps_recognized_names_witness :
  exists config,
    Settings.save_config (Ok tt) Cases.saved_settings Absent
    = (Ok config, Holding (Settings.Object config))
    /\ config !! lit "theme" = None
    /\ config !! API_KEY = Some (JStr (lit "sk-file")).
Proof.
  set (config := <[LOG_LEVEL := JStr (lit "INFO")]>
                   (Settings.recognized Cases.saved_settings
                      (Settings.dict Settings.DEFAULTS))).
  assert (Hsave : Settings.save_config (Ok tt) Cases.saved_settings Absent
                  = (Ok config, Holding (Settings.Object config))).
  { unfold Settings.save_config.
    replace (Settings.recognized Cases.saved_settings (Settings.dict Settings.DEFAULTS)
               !! lit "log_level")
      with (Some (JStr (lit "verbose"))) by (vm_compute; reflexivity).
    replace (Settings.not_in_valid_levels (JStr (lit "verbose")))
      with (@Ok bool true) by (vm_compute; reflexivity).
    reflexivity. }
  destruct (save_config_keeps_recognized_names (Ok tt) Cases.saved_settings Absent
              (Holding (Settings.Object config)) config Hsave) as (_ & Hnames & _ & Hkeep).
  exists config. split; [exact Hsave|]. split.
  - apply eq_None_not_Some. intros Hsome. apply Hnames in Hsome.
    apply (bool_decide_pack _) in Hsome. vm_compute in Hsome. exact Hsome.
  - rewrite (Hkeep API_KEY api_key_is_a_name) by discriminate.
    vm_compute. reflexivity.
Defined.

Lemma save_config_round_trip_witness :
  exists config,
    Settings.save_config (Ok tt) Cases.saved_settings Absent
    = (Ok config, Holding (Settings.Object config))
    /\ Settings.load_config None (Holding (Settings.Object config)) = Ok config.
Proof.
  set (config := <[LOG_LEVEL := JStr (lit "INFO")]>
                   (Settings.recognized Cases.saved_settings
                      (Settings.dict Settings.DEFAULTS))).
  assert (Hsave : Settings.save_config (Ok tt) Cases.saved_settings Absent
                  = (Ok config, Holding (Settings.Object config))).
  { unfold Settings.save_config.
    replace (Settings.recognized Cases.saved_settings (Settings.dict Settings.DEFAULTS)
               !! lit "log_level")
      with (Some (JStr (lit "verbose"))) by (vm_compute; reflexivity).
    replace (Settings.not_in_valid_levels (JStr (lit "verbose")))
      with (@Ok bool true) by (vm_compute; reflexivity).
    reflexivity. }
  exists config. split; [exact Hsave|].
  exact (proj1 (save_config_round_trip (Ok tt) Cases.saved_settings Absent
                  (Holding (Settings.Object config)) config Hsave)).
Defined.

Lemma save_config_failure_leaves_the_file_witness :
  Settings.save_config (Ok tt) Cases.settings_with_list_level
                       (Holding (Settings.Object Cases.saved_settings))
  = (Raise (Exn TypeError (lit "unhashable type: 'list'")),
     Holding (Settings.Object Cases.saved_settings))
  /\ Holding (Settings.Object Cases.saved_settings)
     = Holding (Settings.Object Cases.saved_settings).
Proof.
  assert (Hsave : Settings.save_config (Ok tt) Cases.settings_with_list_level
                    (Holding (Settings.Object Cases.saved_settings))
                  = (Raise (Exn TypeError (lit "unhashable type: 'list'")),
                     Holding (Settings.Object Cases.saved_settings))).
  { unfold Settings.save_config.
    replace (Settings.recognized Cases.settings_with_list_level
               (Settings.dict Settings.DEFAULTS) !! lit "log_level")
      with (Some (JList [JStr (lit "INFO")])) by (vm_compute; reflexivity).
    reflexivity. }
  split; [exact Hsave|].
  exact (proj1 (save_config_failure_leaves_the_file (Ok tt) Cases.settings_with_list_level
                  (Holding (Settings.Object Cases.saved_settings))
                  (Holding (Settings.Object Cases.saved_settings))
                  (Exn TypeError (lit "unhashable type: 'list'")) Hsave)).
Defined.

Lemma google_disconnect_clears_the_drive_witness :
  exists config,
    Settings.google_disconnect (Some (lit "sk-env")) (Ok tt)
                               (Holding (Settings.Object Cases.saved_settings))
    = (Ok tt, Holding (Settings.Object config))
    /\ config !! lit "gdrive_enabled" = Some (JBool false)
    /\ config !! lit "gdrive_refresh_token" = Some (JStr [])
    /\ config !! API_KEY = Some (JStr (lit "sk-env")).
Proof.
  set (data := foldl (fun config item => <[fst item := snd item]> config)
                     (<[API_KEY := JStr (lit "sk-env")]>
                        (Cases.saved_settings ∪ Settings.dict Settings.DEFAULTS))
                     Settings.cleared).
  set (after := <[LOG_LEVEL := JStr (lit "INFO")]>
                  (Settings.recognized data (Settings.dict Settings.DEFAULTS))).
  assert (Hrun : Settings.google_disconnect (Some (lit "sk-env")) (Ok tt)
                   (Holding (Settings.Object Cases.saved_settings))
                 = (Ok tt, Holding (Settings.Object after))).
  { unfold Settings.google_disconnect.
    replace (Settings.load_config (Some (lit "sk-env"))
               (Holding (Settings.Object Cases.saved_settings)))
      with (Ok (<[API_KEY := JStr (lit "sk-env")]>
                  (Cases.saved_settings ∪ Settings.dict Settings.DEFAULTS)))
      by reflexivity.
    fold data. unfold Settings.save_config.
    replace (Settings.recognized data (Settings.dict Settings.DEFAULTS) !! lit "log_level")
      with (Some (JStr (lit "verbose"))) by (vm_compute; reflexivity).
    replace (Settings.not_in_valid_levels (JStr (lit "verbose")))
      with (@Ok bool true) by (vm_compute; reflexivity).
    reflexivity. }
  destruct (google_disconnect_clears_the_drive (Some (lit "sk-env")) (Ok tt)
              (Holding (Settings.Object Cases.saved_settings))
              (Holding (Settings.Object after)) Hrun)
    as (loaded & config & _ & Hf & Hcleared & _ & Henv & _).
  exists config. split; [now rewrite <- Hf|]. split; [|split].
  - apply Hcleared. apply list_elem_of_here.
  - apply Hcleared. do 2 apply list_elem_of_further. apply list_elem_of_here.
  - exact (Henv _ _ eq_refl).
Defined.

(** ** The token of the Plaud client *)

Section TokenFacts.
Import Plaud.

(** A string that neither starts nor ends with a character of the class. *)
Definition stripped (p : N -> bool) (s : str) : Prop :=
  match s with [] => True | c :: _ => p c = false end
  /\ match rev s with [] => True | c :: _ => p c = false end.

Lemma lstrip_head p s :
  match lstrip p s with [] => True | c :: _ => p c = false end.
Proof.
  induction s as [|c s IH]; cbn [lstrip]; [exact I|].
  destruct (p c) eqn:E; [exact IH|exact E].
Qed.

Lemma lstrip_fixed p s :
  match s with [] => True | c :: _ => p c = false end -> lstrip p s = s.
Proof. destruct s as [|c s]; [reflexivity|]. cbn [lstrip]. now intros ->. Qed.

Lemma lstrip_snoc p s c : p c = false -> lstrip p (s ++ [c]) = lstrip p s ++ [c].
Proof.
  intros Hc. induction s as [|x s IH]; cbn [app lstrip].
  - now rewrite Hc.
  - destruct (p x); [exact IH|reflexivity].
Qed.

Lemma strip_stripped p s : stripped p (strip p s).
Proof.
  unfold stripped, strip, rstrip. rewrite rev_involutive. split; [|apply lstrip_head].
  pose proof (lstrip_head p s) as Hh. destruct (lstrip p s) as [|c t]; [exact I|].
  cbn [rev]. rewrite (lstrip_snoc _ _ _ Hh), rev_app_distr. exact Hh.
Qed.

Lemma strip_fixed p s : stripped p s -> strip p s = s.
Proof.
  intros [Hh Hl]. unfold strip, rstrip. rewrite (lstrip_fixed _ _ Hh).
  rewrite (lstrip_fixed _ _ Hl). apply rev_involutive.
Qed.

Lemma stripped_bearer (t : str) :
  stripped isspace t -> t <> [] -> stripped isspace (lit "bearer " ++ t).
Proof.
  intros [_ Hl] Hne. split; [reflexivity|].
  rewrite rev_app_distr. destruct (rev t) as [|c r] eqn:E; [|exact Hl].
  destruct Hne. apply (f_equal (@rev N)) in E. now rewrite rev_involutive in E.
Qed.

(** X24. The token that [PlaudClient] sends always starts with [bearer ],
    whatever the case of the letters, and the base address never ends with
    a slash.  When the given token holds a character that is no white
    space, building a client from the token of a client gives the same
    token again: a prefix is added once only. *)
Theorem plaud_token_is_a_bearer_token (given address address' : str) :
  let c := init given address in
  startswith (lower (token c)) (lit "bearer ") = true
  /\ endswith (base_url c) (lit "/") = false
  /\ (strip isspace given <> [] -> token (init (token c) address') = token c).
Proof.
  cbv zeta. unfold init. cbn [token base_url].
  set (t := strip isspace given).
  assert (Hadd : startswith (lower (lit "bearer " ++ t)) (lit "bearer ") = true).
  { rewrite lower_app.
    apply (startswith_app (lit "bearer ")). }
  split; [|split].
  - destruct (startswith (lower t) (lit "bearer ")) eqn:E; cbn [negb]; assumption.
  - unfold endswith, rstrip. rewrite rev_involutive.
    pose proof (lstrip_head (fun c => c =? SLASH) (rev address)) as Hh.
    destruct (lstrip (fun c => c =? SLASH) (rev address)) as [|c r]; [reflexivity|].
    cbv beta in Hh. cbn [rev app startswith]. change (lit "/") with [SLASH].
    cbn [rev app startswith]. now rewrite Hh.
  - intros Hne.
    destruct (startswith (lower t) (lit "bearer ")) eqn:E; cbn [negb].
    + assert (Hfix : strip isspace t = t)
        by apply strip_fixed, strip_stripped.
      rewrite Hfix. now rewrite E.
    + assert (Hfix : strip isspace (lit "bearer " ++ t) = lit "bearer " ++ t)
        by (apply strip_fixed, stripped_bearer; [apply strip_stripped|exact Hne]).
      rewrite Hfix. now rewrite Hadd.
Qed.

End TokenFacts.

Lemma plaud_token_is_a_bearer_token_witness :
  Plaud.token (Plaud.init (Plaud.token (Plaud.init (lit " eyJhbGciOi ") (lit "https://api.plaud.ai/")))
                          Plaud.DEFAULT_BASE_URL)
  = lit "bearer eyJhbGciOi".
Proof.
  rewrite (proj2 (proj2 (plaud_token_is_a_bearer_token
                           (lit " eyJhbGciOi ") (lit "https://api.plaud.ai/")
                           Plaud.DEFAULT_BASE_URL)))
    by (vm_compute; discriminate).
  reflexivity.
Defined.

(** ** The file watcher *)

Section WatcherFacts.
Import Pipeline Legacy Watcher.
Variable w : world.
Variable env : surroundings.

(** X25. [on_created] handles a file name once.  An event for a name that is
    in [PROCESSED] changes nothing and returns.  After any event,
    [PROCESSED] is the set it was, or the name of the file was not in it
    and has been added.  When the name is not in [PROCESSED] afterwards, the
    call has returned normally and the state of the pipeline is as it was:
    whatever was handed to [process_audio_file] is remembered, also when
    the processing raised. *)
Theorem on_created_handles_a_name_once
        (event : fs_event) (PROCESSED : gset str) (st : state) :
  let fname := basename (src_path event) in
  let out := on_created w env event PROCESSED st in
  (fname ∈ PROCESSED -> out = (Ok tt, (PROCESSED, st)))
  /\ (fst (snd out) = PROCESSED
      \/ ((fname ∉ PROCESSED) /\ fst (snd out) = PROCESSED ∪ {[fname]}))
  /\ (fname ∉ fst (snd out) -> snd (snd out) = st /\ fst out = Ok tt).
Proof.
  cbv zeta. unfold on_created.
  destruct (is_directory event).
  { split; [reflexivity|]. split; [now left|]. now split. }
  destruct (negb (bool_decide (lower (splitext_ext (src_path event))
                               ∈ SUPPORTED_EXTENSIONS))).
  { split; [reflexivity|]. split; [now left|]. now split. }
  destruct (bool_decide (basename (src_path event) ∈ PROCESSED)) eqn:Hin.
  { split; [reflexivity|]. split; [now left|]. now split. }
  apply bool_decide_eq_false_1 in Hin.
  assert (Hback : (PROCESSED ∪ {[basename (src_path event)]})
                    ∖ {[basename (src_path event)]} = PROCESSED).
  { apply set_eq. intros y.
    rewrite elem_of_difference, elem_of_union, elem_of_singleton.
    split; [intros [[Hy|Hy] Hne]; [exact Hy|contradiction]|].
    intros Hy. split; [now left|]. intros ->. contradiction. }
  assert (Hadded : basename (src_path event)
                   ∈ PROCESSED ∪ {[basename (src_path event)]})
    by (apply elem_of_union_r, elem_of_singleton_2; reflexivity).
  split; [intros H; contradiction|].
  destruct (negb (path_exists env (src_path event))).
  { split; [now left|]. now split. }
  destruct (wait_for_file env (src_path event)).
  2:{ cbn [fst snd]. rewrite Hback. split; [now left|]. now split. }
  destruct (getsize w (src_path event)) as [file_size|e].
  2:{ cbn [fst snd]. split; [now right|]. intros H. contradiction. }
  destruct (MAX_AUDIO_FILE_SIZE <? file_size).
  { cbn [fst snd]. rewrite Hback. split; [now left|]. now split. }
  cbn [fst snd]. split; [now right|]. intros H. contradiction.
Qed.

End WatcherFacts.

Lemma on_created_handles_a_name_once_witness :
  Watcher.on_created (Sample.world_with (Ok tt) Sample.creates_document) Cases.ready
    (Watcher.FsEvent false (lit "/watch/input/memo.mp3"))
    {[lit "memo.mp3"]} Sample.fresh
  = (Ok tt, ({[lit "memo.mp3"]}, Sample.fresh)).
Proof.
  apply (proj1 (on_created_handles_a_name_once
                  (Sample.world_with (Ok tt) Sample.creates_document) Cases.ready
                  (Watcher.FsEvent false (lit "/watch/input/memo.mp3"))
                  {[lit "memo.mp3"]} Sample.fresh)).
  apply elem_of_singleton_2. vm_compute. reflexivity.
Defined.
